(** * generate_animated_icons: timing analysis and frame sampling

    A shallow embedding of [generate_animated_icons.py], the script that
    renders animated SVG icons to looping animated WebP files, and the
    verification of its specification.

    Python integers are unbounded and are modelled by [Z]; [%] and [//]
    on integers are [Z.modulo] and [Z.div] (both round toward minus
    infinity, the remainder has the sign of the divisor).  A Python float
    is an IEEE 754 binary64 number: its value is an exact rational [Q], and
    every operation rounds the exact result to the nearest binary64 number,
    ties to even.  Code that can raise returns in the [result] monad. *)

From Equations Require Import Equations.
From Stdlib Require Import ZArith List Lia Znumtheory Wellfounded.
From Stdlib Require Import QArith Qround Qpower Lqa.
From Stdlib Require Import Bool Ascii String DecimalString.
Import ListNotations.
Local Open Scope Z_scope.

(** ** Exceptions *)

(** The exceptions the script can meet, all of them subclasses of
    [Exception].  [ExternalError] stands for the errors of Playwright,
    Pillow and the file system. *)
Inductive exn : Type :=
| ZeroDivisionError
| OverflowError
| ValueError
| IndexError
| ExternalError (msg : string).

Inductive result (A : Type) : Type :=
| Ok (a : A)
| Raise (e : exn).
Arguments Ok {A} a.
Arguments Raise {A} e.

Definition bind {A B : Type} (r : result A) (k : A -> result B) : result B :=
  match r with
  | Ok a => k a
  | Raise e => Raise e
  end.

Notation "x <- r ;; k" := (bind r (fun x => k))
  (at level 61, r at next level, right associativity).

(** ** Python floats *)

(** A binary64 value: a finite rational, an infinity or not-a-number.  The
    sign of zero is not kept; nothing in the script observes it. *)
Inductive pyfloat : Type :=
| Finite (q : Q)
| Inf (negative : bool)
| NaN.

Definition pow2 (e : Z) : Q := Qpower 2 e.

(** [floor (log2 x)] for [0 < x]. *)
Definition Qlog2 (x : Q) : Z :=
  let k := Z.log2 (Qnum x) - Z.log2 (Zpos (Qden x)) in
  if Qle_bool (pow2 k) x then k else k - 1.

(** The nearest integer, a tie going to the even one. *)
Definition round_half_even (x : Q) : Z :=
  let f := Qfloor x in
  match Qcompare (x - inject_Z f) (1 # 2) with
  | Lt => f
  | Gt => f + 1
  | Eq => if Z.even f then f else f + 1
  end.

(** Rounding of [0 < x] to 53 significant bits, with the exponent of the
    last place no lower than that of the subnormal numbers, 2^-1074.
    [None] is overflow: the rounded value reaches 2^1024. *)
Definition round_pos (x : Q) : option Q :=
  let e := Z.max (-1074) (Qlog2 x - 52) in
  let m := round_half_even (x / pow2 e) in
  let y := Qred (inject_Z m * pow2 e) in
  if Qle_bool (pow2 1024) y then None else Some y.

Definition round64 (x : Q) : pyfloat :=
  match Qcompare x 0 with
  | Eq => Finite 0
  | Gt => match round_pos x with Some y => Finite y | None => Inf false end
  | Lt => match round_pos (- x) with Some y => Finite (- y) | None => Inf true end
  end.

Arguments round64 x : simpl never.

(** [float(n)] for an integer [n], as the mixed operations below apply it
    to their integer operand. *)
Definition float_of_int (n : Z) : result pyfloat :=
  match round64 (inject_Z n) with
  | Finite q => Ok (Finite q)
  | _ => Raise OverflowError
  end.

(** [x * y] on floats. *)
Definition float_mul (x y : pyfloat) : pyfloat :=
  match x, y with
  | NaN, _ | _, NaN => NaN
  | Finite a, Finite b => round64 (a * b)
  | Finite a, Inf s | Inf s, Finite a =>
      match Qcompare a 0 with
      | Eq => NaN
      | Gt => Inf s
      | Lt => Inf (negb s)
      end
  | Inf s, Inf t => Inf (xorb s t)
  end.

(** [x + y] on floats. *)
Definition float_add (x y : pyfloat) : pyfloat :=
  match x, y with
  | NaN, _ | _, NaN => NaN
  | Finite a, Finite b => round64 (a + b)
  | Finite _, Inf s | Inf s, Finite _ => Inf s
  | Inf s, Inf t => if Bool.eqb s t then Inf s else NaN
  end.

(** [x / y] on floats; Python raises on a zero divisor. *)
Definition float_div (x y : pyfloat) : result pyfloat :=
  match x, y with
  | NaN, _ | _, NaN => Ok NaN
  | Finite a, Finite b =>
      match Qcompare b 0 with
      | Eq => Raise ZeroDivisionError
      | _ => Ok (round64 (a / b))
      end
  | Finite _, Inf _ => Ok (Finite 0)
  | Inf s, Finite b =>
      match Qcompare b 0 with
      | Eq => Raise ZeroDivisionError
      | Gt => Ok (Inf s)
      | Lt => Ok (Inf (negb s))
      end
  | Inf _, Inf _ => Ok NaN
  end.

(** [a / b] on integers: the exact quotient, rounded once. *)
Definition int_truediv (a b : Z) : result pyfloat :=
  if b =? 0 then Raise ZeroDivisionError
  else match round64 (inject_Z a / inject_Z b) with
       | Finite q => Ok (Finite q)
       | _ => Raise OverflowError
       end.

(** [n / y], [n * y] and [n + y] for an integer [n] and a float [y], and
    [x * n] for a float [x] and an integer [n]. *)
Definition int_div_float (n : Z) (y : pyfloat) : result pyfloat :=
  x <- float_of_int n ;; float_div x y.

Definition int_mul_float (n : Z) (y : pyfloat) : result pyfloat :=
  x <- float_of_int n ;; Ok (float_mul x y).

Definition int_add_float (n : Z) (y : pyfloat) : result pyfloat :=
  x <- float_of_int n ;; Ok (float_add x y).

Definition float_mul_int (x : pyfloat) (n : Z) : result pyfloat :=
  y <- float_of_int n ;; Ok (float_mul x y).

(** [int(x)]: truncation toward zero. *)
Definition int_of_float (x : pyfloat) : result Z :=
  match x with
  | Finite q => Ok (if Qle_bool 0 q then Qfloor q else Qceiling q)
  | Inf _ => Raise OverflowError
  | NaN => Raise ValueError
  end.

(** [math.ceil(x)] *)
Definition math_ceil (x : pyfloat) : result Z :=
  match x with
  | Finite q => Ok (Qceiling q)
  | Inf _ => Raise OverflowError
  | NaN => Raise ValueError
  end.

(** ** Regular expressions *)

(** Text is a [string]: the characters are the code points below 256.  On
    them [\d] is the ten ASCII digits and [\s] the whitespace of
    [str.isspace].  A text with a character from U+0100 on is outside the
    model: there [\d] and [float] take the other decimal digits of Unicode
    as well, and [\s] its other white space. *)
Definition is_digit (c : ascii) : bool :=
  let n := nat_of_ascii c in (48 <=? n)%nat && (n <=? 57)%nat.

Definition is_space (c : ascii) : bool :=
  let n := nat_of_ascii c in
  ((9 <=? n)%nat && (n <=? 13)%nat) || ((28 <=? n)%nat && (n <=? 32)%nat)
  || (n =? 133)%nat || (n =? 160)%nat.

Definition is_char (a : ascii) (c : ascii) : bool := Ascii.eqb c a.

Definition none_of (a b : ascii) (c : ascii) : bool :=
  negb (Ascii.eqb c a || Ascii.eqb c b).

(** The fragment of [re] syntax that the script uses: literals, character
    classes, the greedy quantifiers [*], [+] and [?] on one character,
    sequence, alternation and numbered groups. *)
Inductive regex : Type :=
| Lit (l : string)
| Cls (p : ascii -> bool)
| Star (p : ascii -> bool)
| Plus (p : ascii -> bool)
| Opt (p : ascii -> bool)
| Seq (r1 r2 : regex)
| Alt (r1 r2 : regex)
| Group (i : nat) (r : regex).

Definition captures : Type := list (nat * string).

(** [m.group(i)] *)
Fixpoint group (m : captures) (i : nat) : string :=
  match m with
  | [] => EmptyString
  | (j, s) :: m' => if Nat.eqb i j then s else group m' i
  end.

Fixpoint strip_prefix (l s : string) : option string :=
  match l with
  | EmptyString => Some s
  | String a l' =>
      match s with
      | String c s' => if Ascii.eqb a c then strip_prefix l' s' else None
      | EmptyString => None
      end
  end.

(** The part of [s] in front of its suffix [rest]. *)
Definition consumed (s rest : string) : string :=
  substring 0 (String.length s - String.length rest) s.

(** A backtracking matcher, as the [re] module is one: [k] is the rest of
    the pattern, alternatives are tried in the order of priority (longest
    repetition first, left branch first) and the first success wins. *)
Fixpoint match_star {R : Type} (p : ascii -> bool) (s : string)
    (k : string -> option R) : option R :=
  match s with
  | String c s' =>
      if p c then
        match match_star p s' k with
        | Some r => Some r
        | None => k s
        end
      else k s
  | EmptyString => k s
  end.

Fixpoint match_re {R : Type} (r : regex) (s : string) (m : captures)
    (k : string -> captures -> option R) : option R :=
  match r with
  | Lit l =>
      match strip_prefix l s with
      | Some s' => k s' m
      | None => None
      end
  | Cls p =>
      match s with
      | String c s' => if p c then k s' m else None
      | EmptyString => None
      end
  | Star p => match_star p s (fun s' => k s' m)
  | Plus p =>
      match s with
      | String c s' => if p c then match_star p s' (fun s'' => k s'' m) else None
      | EmptyString => None
      end
  | Opt p =>
      match s with
      | String c s' =>
          if p c then
            match k s' m with
            | Some r => Some r
            | None => k s m
            end
          else k s m
      | EmptyString => k s m
      end
  | Seq r1 r2 => match_re r1 s m (fun s' m' => match_re r2 s' m' k)
  | Alt r1 r2 =>
      match match_re r1 s m k with
      | Some x => Some x
      | None => match_re r2 s m k
      end
  | Group i r1 => match_re r1 s m (fun s' m' => k s' ((i, consumed s s') :: m'))
  end.

(** A match of [r] at the start of [s]: what is left and the groups. *)
Definition match_at (r : regex) (s : string) : option (string * captures) :=
  match_re r s [] (fun rest m => Some (rest, m)).

(** [re.finditer(r, s)]: the matches from left to right, the search going
    on where the last match ended.  [skip] counts the characters of a match
    still to pass.  None of the patterns below matches the empty string. *)
Fixpoint finditer_from (r : regex) (s : string) (skip : nat) : list captures :=
  match skip with
  | S n =>
      match s with
      | String _ s' => finditer_from r s' n
      | EmptyString => []
      end
  | O =>
      match match_at r s with
      | Some (rest, m) =>
          m :: match s with
               | String _ s' =>
                   finditer_from r s' (String.length s - String.length rest - 1)
               | EmptyString => []
               end
      | None =>
          match s with
          | String _ s' => finditer_from r s' 0
          | EmptyString => []
          end
      end
  end.

Definition finditer (r : regex) (s : string) : list captures :=
  finditer_from r s 0.

(** [re.findall(r, s)] for a pattern with two groups: the pairs of the
    texts of the groups. *)
Definition findall (r : regex) (s : string) : list (string * string) :=
  map (fun m => (group m 1, group m 2)) (finditer r s).

(** ** Numerals *)

Definition digit_value (c : ascii) : Z := Z.of_nat (nat_of_ascii c) - 48.

(** The digits of [s] read in base ten after the digits read so far. *)
Fixpoint digits_value (acc : Z) (s : string) : Z :=
  match s with
  | EmptyString => acc
  | String c s' => digits_value (10 * acc + digit_value c) s'
  end.

Fixpoint all_digits (s : string) : bool :=
  match s with
  | EmptyString => true
  | String c s' => is_digit c && all_digits s'
  end.

(** The text in front of the first point, and the text behind it. *)
Fixpoint split_point (s : string) : string * option string :=
  match s with
  | EmptyString => (EmptyString, None)
  | String c s' =>
      if Ascii.eqb c "." then (EmptyString, Some s')
      else let (a, b) := split_point s' in (String c a, b)
  end.

(** [float(s)] on a numeral made of digits and at most one point, the
    texts that the patterns of the script hand over: the decimal value,
    rounded once.  Every other text is rejected here. *)
Definition float_of_str (s : string) : result pyfloat :=
  let (ip, rest) := split_point s in
  let fp := match rest with Some f => f | None => EmptyString end in
  if all_digits ip && all_digits fp && negb (String.eqb (ip ++ fp)%string "") then
    Ok (round64 (inject_Z (digits_value 0 (ip ++ fp)%string)
                 / inject_Z (10 ^ Z.of_nat (String.length fp))))
  else Raise ValueError.

(** ** The timing analyzer *)

(** [time_re]: a number, [\d+\.?\d*], as group 1 and a unit, [s|ms], as
    group 2. *)
Definition time_re : regex :=
  Seq (Group 1 (Seq (Plus is_digit) (Seq (Opt (is_char ".")) (Star is_digit))))
      (Group 2 (Alt (Lit "s") (Lit "ms"))).

(** The pattern of the first loop: [animation\s*:\s*] and then group 1,
    [[^;}]+]. *)
Definition shorthand_re : regex :=
  Seq (Lit "animation")
    (Seq (Star is_space)
       (Seq (Lit ":")
          (Seq (Star is_space)
             (Group 1 (Plus (none_of ";" "}")))))).

(** The pattern of the second loop: [animation-duration\s*:\s*] and then
    the two groups of [time_re]. *)
Definition duration_re : regex :=
  Seq (Lit "animation-duration")
    (Seq (Star is_space)
       (Seq (Lit ":")
          (Seq (Star is_space) time_re))).

Definition dquote : string := String (ascii_of_nat 34) EmptyString.

(** The pattern of the third loop: [<animate[^>]*dur=], a double quote,
    the two groups of [time_re] and a double quote. *)
Definition smil_re : regex :=
  Seq (Lit "<animate")
    (Seq (Star (fun c => negb (Ascii.eqb c ">")))
       (Seq (Lit ("dur=" ++ dquote)%string)
          (Seq time_re (Lit dquote)))).

(** [int(float(num) * (1000 if unit == 's' else 1))] *)
Definition to_ms (t : string * string) : result Z :=
  let (num, unit) := t in
  x <- float_of_str num ;;
  d <- float_mul_int x (if String.eqb unit "s" then 1000 else 1) ;;
  int_of_float d.

(** A [for] loop over [xs] whose body updates the variables [st]. *)
Fixpoint for_each {A S : Type} (xs : list A) (body : S -> A -> result S)
    (st : S) : result S :=
  match xs with
  | [] => Ok st
  | x :: xs' => st' <- body st x ;; for_each xs' body st'
  end.

(** The body of the first loop, on the lists [durations] and [delays]. *)
Definition shorthand_step (st : list Z * list Z) (m : captures)
    : result (list Z * list Z) :=
  let (durations, delays) := st in
  let shorthand := group m 1 in
  let times := findall time_re shorthand in
  durations' <- match times with
                | t0 :: _ => d <- to_ms t0 ;; Ok (durations ++ [d])%list
                | [] => Ok durations
                end ;;
  delays' <- match times with
             | _ :: t1 :: _ => dl <- to_ms t1 ;; Ok (delays ++ [dl])%list
             | _ => Ok delays
             end ;;
  Ok (durations', delays').

(** The body of the second and of the third loop. *)
Definition duration_step (st : list Z * list Z) (m : captures)
    : result (list Z * list Z) :=
  let (durations, delays) := st in
  d <- to_ms (group m 1, group m 2) ;;
  Ok ((durations ++ [d])%list, delays).

(** [parse_animation_properties(svg_content)] *)
Definition parse_animation_properties (svg_content : string)
    : result (list Z * list Z) :=
  st1 <- for_each (finditer shorthand_re svg_content) shorthand_step ([], []) ;;
  st2 <- for_each (finditer duration_re svg_content) duration_step st1 ;;
  st3 <- for_each (finditer smil_re svg_content) duration_step st2 ;;
  Ok st3.

(** The loop of [gcd] stops because [abs (a % b) < abs b]. *)
Definition abs_lt (x y : Z) : Prop := Z.abs x < Z.abs y.

Lemma abs_lt_wf : well_founded abs_lt.
Proof.
  apply (well_founded_lt_compat Z Z.abs_nat).
  unfold abs_lt. intros x y Hxy. lia.
Qed.

#[local] Instance abs_lt_WellFounded : WellFounded abs_lt :=
  Acc_intro_generator 12 abs_lt_wf.

(** [def gcd(a, b): while b: a, b = b, a % b; return a] *)
Equations? gcd (a b : Z) : Z by wf b abs_lt :=
  gcd a b with Z.eq_dec b 0 => {
    | left _ := a;
    | right _ := gcd b (a mod b) }.
Proof.
  unfold abs_lt.
  pose proof (Z.mod_bound_or a b ltac:(assumption)). lia.
Qed.

(** [def lcm(a, b): return abs(a * b) // gcd(a, b)] *)
Definition lcm (a b : Z) : result Z :=
  let g := gcd a b in
  if g =? 0 then Raise ZeroDivisionError else Ok (Z.abs (a * b) / g).

(** [for d in unique[1:]: result = lcm(result, d)] *)
Fixpoint lcm_loop (res : Z) (rest : list Z) : result Z :=
  match rest with
  | [] => Ok res
  | d :: rest' => res' <- lcm res d ;; lcm_loop res' rest'
  end.

Section SetOrder.

(** [list(set(xs))]: the elements of [xs], each once, in the iteration
    order of the set, which Python leaves unspecified.  The order is a
    parameter of the model. *)
Variable list_of_set : list Z -> list Z.

(** [compute_cycle_ms(durations)] *)
Definition compute_cycle_ms (durations : list Z) : result Z :=
  match durations with
  | [] => Ok 2000
  | _ :: _ =>
      let unique := list_of_set (map (Z.max 1) durations) in
      match unique with
      | [] => Raise IndexError
      | u0 :: rest =>
          r <- lcm_loop u0 rest ;;
          Ok (Z.min r 10000)
      end
  end.

End SetOrder.

(** What [list(set(xs))] guarantees whatever the order: no element twice,
    and the same elements as [xs]. *)
Definition set_order (list_of_set : list Z -> list Z) : Prop :=
  forall xs, NoDup (list_of_set xs) /\
             forall x, In x (list_of_set xs) <-> In x xs.

(** One such order: first occurrences, in the order of insertion. *)
Fixpoint first_seen (xs : list Z) : list Z :=
  match xs with
  | [] => []
  | x :: xs' => x :: filter (fun y => negb (y =? x)) (first_seen xs')
  end.

(** [L] is the least common multiple of the values of [xs]: a positive
    common multiple below every other positive common multiple. *)
Definition least_common_multiple (xs : list Z) (L : Z) : Prop :=
  0 < L /\
  (forall x, In x xs -> (x | L)) /\
  (forall M, 0 < M -> (forall x, In x xs -> (x | M)) -> L <= M).

(** ** The frame sampler *)

Definition FPS : Z := 20.

(** [FRAME_MS = 1000 / FPS] *)
Definition FRAME_MS : result pyfloat := int_truediv 1000 FPS.
Arguments FRAME_MS : simpl never.

(** [max(delays) if delays else 0] *)
Definition max_delay_of (delays : list Z) : Z :=
  match delays with
  | [] => 0
  | d :: ds => fold_left Z.max ds d
  end.

(** [cycle_ms * max(1, math.ceil((max_delay + 1) / cycle_ms))] *)
Definition start_offset (cycle_ms max_delay : Z) : result Z :=
  q <- int_truediv (max_delay + 1) cycle_ms ;;
  c <- math_ceil q ;;
  Ok (cycle_ms * Z.max 1 c).

(** [int(cycle_ms / FRAME_MS)] *)
Definition frame_count (cycle_ms : Z) : result Z :=
  frame_ms <- FRAME_MS ;;
  q <- int_div_float cycle_ms frame_ms ;;
  int_of_float q.

(** [range(n)] *)
Definition range (n : Z) : list Z := map Z.of_nat (seq 0 (Z.to_nat n)).

(** [start_ms + i * FRAME_MS] *)
Definition sample_time (start_ms i : Z) : result pyfloat :=
  frame_ms <- FRAME_MS ;;
  step <- int_mul_float i frame_ms ;;
  int_add_float start_ms step.

(** [for i in range(num_frames): t_ms = start_ms + i * FRAME_MS] *)
Fixpoint sample_times (start_ms : Z) (indices : list Z) : result (list pyfloat) :=
  match indices with
  | [] => Ok []
  | i :: rest =>
      t <- sample_time start_ms i ;;
      ts <- sample_times start_ms rest ;;
      Ok (t :: ts)
  end.

(** The sample plan of a document. *)
Record plan : Type := {
  cycle_ms : Z;
  start_ms : Z;
  num_frames : Z
}.

Section SamplePlan.

Variable list_of_set : list Z -> list Z.

(** The first lines of [render_svg_to_webp], from the text of the document
    to [num_frames]. *)
Definition sample_plan (svg_content : string) : result plan :=
  timings <- parse_animation_properties svg_content ;;
  let (durations, delays) := timings in
  cycle <- compute_cycle_ms list_of_set durations ;;
  let max_delay := max_delay_of delays in
  start <- start_offset cycle max_delay ;;
  frames <- frame_count cycle ;;
  Ok {| cycle_ms := cycle; start_ms := start; num_frames := frames |}.

(** The times at which the frames of the plan are taken. *)
Definition plan_times (svg_content : string) : result (list pyfloat) :=
  p <- sample_plan svg_content ;;
  sample_times (start_ms p) (range (num_frames p)).

End SamplePlan.

(** ** File names *)

(** [s.rfind(c)] *)
Fixpoint rfind (c : ascii) (s : string) : option nat :=
  match s with
  | EmptyString => None
  | String a s' =>
      match rfind c s' with
      | Some i => Some (S i)
      | None => if Ascii.eqb a c then Some O else None
      end
  end.

(** [Path.stem] of a file name: the name without its last suffix; a point
    that starts or ends the name does not start a suffix. *)
Definition stem (name : string) : string :=
  match rfind "." name with
  | Some i =>
      if (0 <? i)%nat && (i <? String.length name - 1)%nat
      then substring 0 i name
      else name
  | None => name
  end.

(** [s.replace(old, new)] for a nonempty [old]: the occurrences of [old]
    are replaced from left to right, an occurrence starting where the last
    one ended at the earliest. *)
Fixpoint replace_from (old new s : string) (skip : nat) : string :=
  match s with
  | EmptyString => EmptyString
  | String c s' =>
      match skip with
      | S n => replace_from old new s' n
      | O =>
          match strip_prefix old s with
          | Some _ => (new ++ replace_from old new s' (String.length old - 1))%string
          | None => String c (replace_from old new s' 0)
          end
      end
  end.

Definition replace (old new s : string) : string := replace_from old new s 0.

(** [svg_path.stem.replace('-animated', '')] *)
Definition icon_name (svg_name : string) : string :=
  replace "-animated" "" (stem svg_name).

(** The name of [ICONS_DIR / f"{name}.webp"] in [ICONS_DIR]. *)
Definition output_name (svg_name : string) : string :=
  (icon_name svg_name ++ ".webp")%string.

(** ** Rendering and the batch *)

Definition SIZE : Z := 128.

Definition decimal (n : Z) : string := NilZero.string_of_int (Z.to_int n).

(** [build_html(svg_content, size)] *)
Definition build_html (svg_content : string) (size : Z) : string :=
  ("<!DOCTYPE html>
<html>
<head><style>
    html, body {
        margin: 0; padding: 0;
        background: transparent;
        overflow: hidden;
        width: " ++ decimal size ++ "px; height: " ++ decimal size ++ "px;
    }
    body {
        display: flex;
        align-items: center;
        justify-content: center;
    }
    svg {
        width: " ++ decimal size ++ "px;
        height: " ++ decimal size ++ "px;
    }
</style></head>
<body>" ++ svg_content ++ "</body>
</html>")%string.

(** The lines that the script prints; [ErrorLine e] is the line
    ["  ERROR: "] followed by the text of [e]. *)
Inductive line : Type :=
| FoundLine (n : nat)
| ConvertingLine (name svg_name : string)
| PlanLine (p : plan)
| SavedLine (output : string) (frames : nat) (size_kb : pyfloat)
| ErrorLine (e : exn)
| BlankLine
| DoneLine.

(** How a call that leaves the script ends: it returns, it raises an
    exception, or it is interrupted by a [BaseException] that is not an
    [Exception] ([KeyboardInterrupt], [asyncio.CancelledError]). *)
Inductive outcome (A : Type) : Type :=
| Returned (a : A)
| Raised (e : exn)
| Interrupted.
Arguments Returned {A} a.
Arguments Raised {A} e.
Arguments Interrupted {A}.

Section World.

(** [E] is the state of what the script drives and does not contain: the
    browser, the files and the codec.  [frame] is a decoded screenshot. *)
Variables E frame : Type.

(** The calls that leave the script.  Each one may change the state.
    [glob_animated] is the sorted list of the names in [ICONS_DIR] that
    match [*-animated.svg]; [start] enters the block [async with
    async_playwright()], which starts Playwright; [launch] is
    [p.chromium.launch()] and [browser.new_page()]; [load_page] is
    [set_content], [set_viewport_size] and the wait for the first render;
    [capture] is the seek of all animations to [t_ms] and [t_sec], the
    wait, the screenshot and its decoding; [save] is [frames[0].save] with
    the frame duration; [close] is [browser.close()]; [stop] is the exit
    of the block [async with async_playwright()], which stops Playwright
    and what it has started, and returns [None]. *)
Record capabilities : Type := {
  glob_animated : E -> outcome (list string) * E;
  start : E -> outcome unit * E;
  launch : E -> outcome unit * E;
  read_text : string -> E -> outcome string * E;
  load_page : string -> Z -> E -> outcome unit * E;
  capture : pyfloat -> pyfloat -> E -> outcome frame * E;
  save : string -> list frame -> Z -> E -> outcome unit * E;
  stat_size : string -> E -> outcome Z * E;
  close : E -> outcome unit * E;
  stop : E -> outcome unit * E
}.

(** What the script has done so far: the lines printed and the files that
    [save] has written, oldest first. *)
Record world : Type := {
  ext : E;
  stdout : list line;
  written : list string
}.

Definition io (A : Type) : Type := world -> outcome A * world.

Definition ret {A : Type} (a : A) : io A := fun w => (Returned a, w).

Definition io_bind {A B : Type} (c : io A) (k : A -> io B) : io B :=
  fun w =>
    match c w with
    | (Returned a, w') => k a w'
    | (Raised e, w') => (Raised e, w')
    | (Interrupted, w') => (Interrupted, w')
    end.

(** A computation of the script itself. *)
Definition lift {A : Type} (r : result A) : io A :=
  fun w =>
    match r with
    | Ok a => (Returned a, w)
    | Raise e => (Raised e, w)
    end.

Definition call {A : Type} (f : E -> outcome A * E) : io A :=
  fun w =>
    let (r, e') := f (ext w) in
    (r, {| ext := e'; stdout := stdout w; written := written w |}).

Definition print (l : line) : io unit :=
  fun w =>
    (Returned tt,
     {| ext := ext w; stdout := (stdout w ++ [l])%list; written := written w |}).

Definition record_written (path : string) : io unit :=
  fun w =>
    (Returned tt,
     {| ext := ext w; stdout := stdout w; written := (written w ++ [path])%list |}).

(** [try: body / except Exception as e: handler(e)] *)
Definition try_except (body : io unit) (handler : exn -> io unit) : io unit :=
  fun w =>
    match body w with
    | (Returned tt, w') => (Returned tt, w')
    | (Raised e, w') => handler e w'
    | (Interrupted, w') => (Interrupted, w')
    end.

Fixpoint io_for_each {A : Type} (xs : list A) (body : A -> io unit) : io unit :=
  match xs with
  | [] => ret tt
  | x :: xs' => io_bind (body x) (fun _ => io_for_each xs' body)
  end.

(** How a block ends whose exit has ended with [exit_outcome], after its
    body has ended with [o]: an exit that returns [None] lets the outcome
    of the body stand; an exit that raises or is interrupted ends the
    block itself. *)
Definition after_exit (o exit_outcome : outcome unit) : outcome unit :=
  match exit_outcome with
  | Returned _ => o
  | Raised e => Raised e
  | Interrupted => Interrupted
  end.

(** [async with enter as x: body(x)] for a context manager whose exit
    returns [None]: when the block has been entered, the exit is awaited
    on every way out of the body, also when the body raises or is
    interrupted.  When entering fails, the exit is not run. *)
Definition async_with {A : Type} (enter : io A) (exit : io unit)
    (body : A -> io unit) : io unit :=
  fun w =>
    match enter w with
    | (Returned a, w1) =>
        let (o, w2) := body a w1 in
        let (x, w3) := exit w2 in
        (after_exit o x, w3)
    | (Raised e, w1) => (Raised e, w1)
    | (Interrupted, w1) => (Interrupted, w1)
    end.

Variable list_of_set : list Z -> list Z.
Variable caps : capabilities.

(** The loop over the frames, [frames] being the list built so far. *)
Fixpoint capture_frames (start : Z) (indices : list Z) (frames : list frame)
    : io (list frame) :=
  match indices with
  | [] => ret frames
  | i :: rest =>
      io_bind (lift (sample_time start i)) (fun t_ms =>
      io_bind (lift (float_div t_ms (Finite 1000))) (fun t_sec =>
      io_bind (call (capture caps t_ms t_sec)) (fun img =>
      capture_frames start rest (frames ++ [img])%list)))
  end.

(** [render_svg_to_webp(page, svg_path, output_path)] *)
Definition render_svg_to_webp (svg_path output_path : string) : io unit :=
  io_bind (call (read_text caps svg_path)) (fun svg_content =>
  io_bind (lift (sample_plan list_of_set svg_content)) (fun p =>
  io_bind (print (PlanLine p)) (fun _ =>
  io_bind (call (load_page caps (build_html svg_content SIZE) SIZE)) (fun _ =>
  io_bind (capture_frames (start_ms p) (range (num_frames p)) []) (fun frames =>
  match frames with
  | [] => ret tt
  | _ :: _ =>
      io_bind (lift FRAME_MS) (fun frame_ms =>
      io_bind (lift (int_of_float frame_ms)) (fun duration =>
      io_bind (call (save caps output_path frames duration)) (fun _ =>
      io_bind (record_written output_path) (fun _ =>
      io_bind (call (stat_size caps output_path)) (fun size =>
      io_bind (lift (int_truediv size 1024)) (fun size_kb =>
      print (SavedLine output_path (List.length frames) size_kb)))))))
  end))))).

(** The body of the loop of [main]. *)
Definition convert_one (svg_name : string) : io unit :=
  let name := icon_name svg_name in
  let output := output_name svg_name in
  io_bind (print (ConvertingLine name svg_name)) (fun _ =>
  io_bind (try_except (render_svg_to_webp svg_name output)
                      (fun e => print (ErrorLine e))) (fun _ =>
  print BlankLine)).

(** The block of [main]: the browser and the page, the loop over the
    documents and [browser.close()]. *)
Definition browser_session (svg_files : list string) : io unit :=
  io_bind (call (launch caps)) (fun _ =>
  io_bind (io_for_each svg_files convert_one) (fun _ =>
  call (close caps))).

(** [main()] *)
Definition main : io unit :=
  io_bind (call (glob_animated caps)) (fun svg_files =>
  io_bind (print (FoundLine (List.length svg_files))) (fun _ =>
  io_bind (async_with (call (start caps)) (call (stop caps))
                      (fun _ => browser_session svg_files)) (fun _ =>
  print DoneLine))).

End World.

Arguments ext {E} w.
Arguments stdout {E} w.
Arguments written {E} w.
Arguments Build_world {E} ext stdout written.
Arguments glob_animated {E frame} c.
Arguments start {E frame} c.
Arguments launch {E frame} c.
Arguments read_text {E frame} c.
Arguments load_page {E frame} c.
Arguments capture {E frame} c.
Arguments save {E frame} c.
Arguments stat_size {E frame} c.
Arguments close {E frame} c.
Arguments stop {E frame} c.
Arguments ret {E A} a.
Arguments io_bind {E A B} c k.
Arguments lift {E A} r.
Arguments call {E A} f.
Arguments print {E} l.
Arguments record_written {E} path.
Arguments try_except {E} body handler.
Arguments io_for_each {E A} xs body.
Arguments async_with {E A} enter exit body.
Arguments capture_frames {E frame} caps start indices frames.
Arguments render_svg_to_webp {E frame} list_of_set caps svg_path output_path.
Arguments convert_one {E frame} list_of_set caps svg_name.
Arguments browser_session {E frame} list_of_set caps svg_files.
Arguments main {E frame} list_of_set caps.

(** A computation that only adds to the lines printed and to the files
    written, and one that leaves the files written as they are. *)
Definition only_appends {E A : Type} (c : io E A) : Prop :=
  forall w r w', c w = (r, w') ->
    (exists l, stdout w' = (stdout w ++ l)%list) /\
    (exists l, written w' = (written w ++ l)%list).

Definition writes_nothing {E A : Type} (c : io E A) : Prop :=
  forall w r w', c w = (r, w') -> written w' = written w.

(** ** A scripted environment *)

(** Capabilities that run the model on given files: the state is the
    list of the names and texts of the files of [ICONS_DIR]; a page
    without an [svg] element fails to load; a frame is the time at which
    it was taken; a saved file takes the place of a file of its name, and
    its text is [WEBP]. *)
Fixpoint file_text (name : string) (files : list (string * string)) : option string :=
  match files with
  | [] => None
  | (n, text) :: files' => if String.eqb n name then Some text else file_text name files'
  end.

Definition write_file (name text : string) (files : list (string * string))
    : list (string * string) :=
  (filter (fun f => negb (String.eqb (fst f) name)) files ++ [(name, text)])%list.

(** Whether a name matches [*-animated.svg]. *)
Definition is_source (name : string) : bool :=
  String.eqb (substring (String.length name - 13) 13 name) "-animated.svg".

Definition has_svg (html : string) : bool :=
  match finditer (Lit "<svg") html with
  | [] => false
  | _ :: _ => true
  end.

Definition scripted : capabilities (list (string * string)) pyfloat := {|
  glob_animated := fun e => (Returned (filter is_source (map fst e)), e);
  start := fun e => (Returned tt, e);
  launch := fun e => (Returned tt, e);
  read_text := fun name e =>
    match file_text name e with
    | Some text => (Returned text, e)
    | None => (Raised (ExternalError "No such file or directory"), e)
    end;
  load_page := fun html _ e =>
    if has_svg html then (Returned tt, e)
    else (Raised (ExternalError "Page.set_content: malformed markup"), e);
  capture := fun t_ms _ e => (Returned t_ms, e);
  save := fun path _ _ e => (Returned tt, write_file path "WEBP" e);
  stat_size := fun path e =>
    match file_text path e with
    | Some _ => (Returned 2048, e)
    | None => (Raised (ExternalError "No such file or directory"), e)
    end;
  close := fun e => (Returned tt, e);
  stop := fun e => (Returned tt, e)
|}.

(** Three documents for the scripted environment: one that converts, one
    that is not an [svg] document and one whose cycle is shorter than a
    frame. *)
Definition demo_files : list (string * string) :=
  [("bad-animated.svg"%string,
    "<g style='animation: spin 2s'/>"%string);
   ("good-animated.svg"%string,
    "<svg><style>.a{animation: spin 1s linear 250ms infinite}</style></svg>"%string);
   ("tiny-animated.svg"%string,
    "<svg><style>.a{animation: blink 30ms}</style></svg>"%string)].

Definition demo_world : world (list (string * string)) :=
  {| ext := demo_files; stdout := []; written := [] |}.

(** The world after a line more has been printed. *)
Definition printed {E : Type} (l : line) (w : world E) : world E :=
  {| ext := ext w; stdout := (stdout w ++ [l])%list; written := written w |}.

(** ** What the loops take from their matches *)

(** [re.findall(time_pattern, shorthand)] *)
Definition time_values (s : string) : list (string * string) :=
  findall time_re s.

(** The texts of the two groups of a match. *)
Definition time_value_of (m : captures) : string * string :=
  (group m 1, group m 2).

(** [times[0]] and [times[1]] of every match of the first loop that has
    them. *)
Definition first_time_values (ms : list captures) : list (string * string) :=
  flat_map (fun m => firstn 1 (time_values (group m 1))) ms.

Definition second_time_values (ms : list captures) : list (string * string) :=
  flat_map (fun m => firstn 1 (skipn 1 (time_values (group m 1)))) ms.

(** The texts that the three loops convert to durations, in the order of
    the loops, and the texts that the first loop converts to delays. *)
Definition matched_durations (svg_content : string) : list (string * string) :=
  (first_time_values (finditer shorthand_re svg_content)
   ++ map time_value_of (finditer duration_re svg_content)
   ++ map time_value_of (finditer smil_re svg_content))%list.

Definition matched_delays (svg_content : string) : list (string * string) :=
  second_time_values (finditer shorthand_re svg_content).

(** ** The extraction rules of the specification *)

(** A time-value in integer milliseconds: seconds are multiplied by 1000,
    and what is left of a millisecond is dropped. *)
Definition milliseconds (t : string * string) : result Z :=
  let (num, unit) := t in
  x <- float_of_str num ;;
  if String.eqb unit "s"
  then y <- float_mul_int x 1000 ;; int_of_float y
  else int_of_float x.



(** A numeral that [float_of_str] reads: digits with at most one point
    among them, and at least one digit. *)
Definition is_numeral (s : string) : bool :=
  let (ip, rest) := split_point s in
  let fp := match rest with Some f => f | None => EmptyString end in
  all_digits ip && all_digits fp && negb (String.eqb (ip ++ fp)%string "").

(** A time-value: a numeral and one of the two units. *)
Definition time_value (t : string * string) : Prop :=
  is_numeral (fst t) = true /\ (snd t = "s" \/ snd t = "ms")%string.


Fixpoint all_chars (p : ascii -> bool) (s : string) : bool :=
  match s with
  | EmptyString => true
  | String c s' => p c && all_chars p s'
  end.

(** Whether [old] occurs somewhere in [s]. *)
Fixpoint occurs_in (old s : string) : bool :=
  match strip_prefix old s with
  | Some _ => true
  | None =>
      match s with
      | EmptyString => false
      | String _ s' => occurs_in old s'
      end
  end.

(** [s] does not start with a character of the class [p]. *)
Definition starts_outside (p : ascii -> bool) (s : string) : Prop :=
  match s with
  | String x _ => p x = false
  | EmptyString => True
  end.

(** The class [[^>]] of the pattern of the third loop. *)
Definition inside_tag (c : ascii) : bool := negb (Ascii.eqb c ">").

(** A number as a time-value writes it: digits, and behind them at most
    one point and more digits. *)
Definition is_number (n : string) : Prop :=
  exists ip fp,
    all_digits ip = true /\ ip <> EmptyString /\ all_digits fp = true /\
    (n = ip \/ n = (ip ++ "." ++ fp)%string).

(** [s] starts with the time-value [t], a number and the unit [s] or [ms]
    right behind it, and [rest] is the text behind the unit. *)
Definition time_value_at (s : string) (t : string * string) (rest : string) : Prop :=
  s = (fst t ++ snd t ++ rest)%string /\
  is_number (fst t) /\ (snd t = "s" \/ snd t = "ms")%string.

(** [s] starts with a shorthand declaration: the word [animation], white
    space, a colon and the value of the declaration, which is the text up
    to the next [;] or [}] or to the end of [s] and is not empty. *)
Definition shorthand_at (s : string) (value : string) (rest : string) : Prop :=
  exists sp,
    s = ("animation" ++ sp ++ ":" ++ value ++ rest)%string /\
    all_chars is_space sp = true /\
    value <> EmptyString /\ all_chars (none_of ";" "}") value = true /\
    starts_outside (none_of ";" "}") rest.

(** [s] starts with a declaration of [animation-duration]: the word, white
    space, a colon, white space and a time-value. *)
Definition duration_at (s : string) (t : string * string) (rest : string) : Prop :=
  exists sp1 sp2 s',
    s = ("animation-duration" ++ sp1 ++ ":" ++ sp2 ++ s')%string /\
    all_chars is_space sp1 = true /\ all_chars is_space sp2 = true /\
    time_value_at s' t rest.

(** [s] starts with the start of a tag [<animate] in which, behind [attrs]
    and before any [>], the attribute [dur] has the time-value [t] between
    double quotes. *)
Definition dur_attribute (s attrs : string) (t : string * string) (rest : string)
    : Prop :=
  exists s',
    s = ("<animate" ++ attrs ++ "dur=" ++ dquote ++ s')%string /\
    all_chars inside_tag attrs = true /\
    time_value_at s' t (dquote ++ rest)%string.

(** The [dur] attribute of an [animate] element at the start of [s]: the
    last such attribute of the tag. *)
Definition smil_at (s : string) (t : string * string) (rest : string) : Prop :=
  exists attrs,
    dur_attribute s attrs t rest /\
    forall attrs' t' rest',
      dur_attribute s attrs' t' rest' ->
      (String.length attrs' <= String.length attrs)%nat.

(** The declarations of a text from left to right: where one starts it is
    taken, and the search goes on behind it; elsewhere the search goes on
    at the next character. *)
Inductive scan {A : Type} (at_start : string -> A -> string -> Prop)
    : string -> list A -> Prop :=
| scan_end : scan at_start EmptyString []
| scan_found (s : string) (x : A) (rest : string) (xs : list A) :
    at_start s x rest -> scan at_start rest xs -> scan at_start s (x :: xs)
| scan_next (c : ascii) (s : string) (xs : list A) :
    (forall x rest, ~ at_start (String c s) x rest) ->
    scan at_start s xs -> scan at_start (String c s) xs.

(** What a document declares: as durations the first time-value of every
    shorthand declaration, then the time-value of every declaration of
    [animation-duration], then the [dur] attribute of every [animate]
    element; as delays the second time-value of every shorthand
    declaration that has one. *)
Definition declares (svg_content : string) (durations delays : list (string * string))
    : Prop :=
  exists values times ds ss,
    scan shorthand_at svg_content values /\
    Forall2 (scan time_value_at) values times /\
    scan duration_at svg_content ds /\
    scan smil_at svg_content ss /\
    durations = (flat_map (firstn 1) times ++ ds ++ ss)%list /\
    delays = flat_map (fun ts => firstn 1 (skipn 1 ts)) times.

(** A non-negative binary64 value, in lowest terms. *)
Definition binary64_nonneg (x : pyfloat) : Prop :=
  match x with
  | Finite y =>
      Qred y = y /\
      exists m e, 0 <= m < 2 ^ 53 /\ -1074 <= e <= 971 /\
                  (y == inject_Z m * pow2 e)%Q
  | Inf s => s = false
  | NaN => False
  end.

(** ** Notions of the further properties *)

(** The largest binary64 number; it is an integer. *)
Definition max_float_int : Z := (2 ^ 53 - 1) * 2 ^ 971.

(** What every loop of the parser keeps true of the lists [durations] and
    [delays]: the values are those of [int] on a non-negative float, and
    there are no more delays than durations. *)
Definition timings_ok (st : list Z * list Z) : Prop :=
  Forall (fun d => 0 <= d <= max_float_int) (fst st) /\
  Forall (fun d => 0 <= d <= max_float_int) (snd st) /\
  (List.length (snd st) <= List.length (fst st))%nat.

(** A character of the text between the time-values of a shorthand: no
    digit, none of the two characters that end the declaration, and no
    [<]. *)
Definition is_filler (c : ascii) : bool :=
  negb (is_digit c) && none_of ";" "}" c && negb (Ascii.eqb c "<").

(** A stretch of such text in which the word [animation] does not occur. *)
Definition filler_ok (w : string) : Prop :=
  all_chars is_filler w = true /\ occurs_in "animation" w = false.

(** A time-value as it is written, a numeral of at most twelve digits and
    a unit, with the text up to the next time-value. *)
Definition written_time (t : string * string * string) : Prop :=
  let '(n, u, w) := t in
  all_digits n = true /\ n <> EmptyString /\ (String.length n <= 12)%nat /\
  (u = "s" \/ u = "ms")%string /\ filler_ok w.

Fixpoint shorthand_body (ts : list (string * string * string)) : string :=
  match ts with
  | [] => EmptyString
  | (n, u, w) :: ts' => (n ++ u ++ w ++ shorthand_body ts')%string
  end.

(** The value of a written time in milliseconds. *)
Definition written_ms (t : string * string * string) : Z :=
  let '(n, u, _) := t in
  digits_value 0 n * (if String.eqb u "s" then 1000 else 1).

(** A computation that prints nothing and writes no file. *)
Definition silent {E A : Type} (c : io E A) : Prop :=
  forall w r w', c w = (r, w') -> stdout w' = stdout w /\ written w' = written w.

(** The lines of [render_svg_to_webp]. *)
Definition is_render_line (l : line) : bool :=
  match l with
  | PlanLine _ | SavedLine _ _ _ => true
  | _ => false
  end.

(** What a conversion may have printed and written when it ends: nothing;
    the plan line; the plan line and the output file; the plan line, the
    output file and the line that reports it. *)
Definition render_trace (output_path : string) (l : list line) (m : list string)
    : Prop :=
  (l = [] /\ m = []) \/
  (exists p, l = [PlanLine p] /\ (m = [] \/ m = [output_path])) \/
  (exists p n size_kb,
     l = [PlanLine p; SavedLine output_path n size_kb] /\ m = [output_path]).

(** The documents that the lines [Converting ...] name, in the order of
    the lines. *)
Definition attempted (ls : list line) : list string :=
  flat_map (fun l => match l with
                     | ConvertingLine _ svg_name => [svg_name]
                     | _ => []
                     end) ls.

(** [l1] is [l2] with some elements left out. *)
Inductive subsequence {A : Type} : list A -> list A -> Prop :=
| subsequence_nil : subsequence [] []
| subsequence_skip (x : A) (l1 l2 : list A) :
    subsequence l1 l2 -> subsequence l1 (x :: l2)
| subsequence_take (x : A) (l1 l2 : list A) :
    subsequence l1 l2 -> subsequence (x :: l1) (x :: l2).

(** The documents that the listing of the directory finds in a world. *)
Definition found {E frame : Type} (caps : capabilities E frame) (w : world E)
    : list string :=
  match fst (glob_animated caps (ext w)) with
  | Returned svg_files => svg_files
  | _ => []
  end.

(** The scripted environment on a machine without a browser, and one in
    which the first screenshot is interrupted from the keyboard. *)
Definition scripted_without_browser : capabilities (list (string * string)) pyfloat := {|
  glob_animated := glob_animated scripted;
  start := start scripted;
  launch := fun e => (Raised (ExternalError "Executable doesn't exist"), e);
  read_text := read_text scripted;
  load_page := load_page scripted;
  capture := capture scripted;
  save := save scripted;
  stat_size := stat_size scripted;
  close := close scripted;
  stop := stop scripted
|}.

Definition scripted_interrupted : capabilities (list (string * string)) pyfloat := {|
  glob_animated := glob_animated scripted;
  start := start scripted;
  launch := launch scripted;
  read_text := read_text scripted;
  load_page := load_page scripted;
  capture := fun _ _ e => (Interrupted, e);
  save := save scripted;
  stat_size := stat_size scripted;
  close := close scripted;
  stop := stop scripted
|}.

(** One of the calls that leave the script raises [e] in some state. *)
Definition capability_raises {E frame : Type} (caps : capabilities E frame)
    (svg_path output_path : string) (e : exn) : Prop :=
  (exists e0, fst (read_text caps svg_path e0) = Raised e) \/
  (exists html size e0, fst (load_page caps html size e0) = Raised e) \/
  (exists t_ms t_sec e0, fst (capture caps t_ms t_sec e0) = Raised e) \/
  (exists frames duration e0,
     fst (save caps output_path frames duration e0) = Raised e) \/
  (exists e0, fst (stat_size caps output_path e0) = Raised e).

(** * Verification *)

(** ** Rounding to binary64 *)

Ltac push_inject_Z :=
  unfold Z.sub;
  repeat (rewrite inject_Z_plus || rewrite inject_Z_mult || rewrite inject_Z_opp);
  change (inject_Z 1) with 1%Q; change (inject_Z 64) with 64%Q.

Section Rounding.

Local Open Scope Q_scope.

Lemma inject_Z_pos (n : Z) : (0 < n)%Z -> 0 < inject_Z n.
Proof. intros H. change 0 with (inject_Z 0). now rewrite <- Zlt_Qlt. Qed.


Lemma pow2_pos (e : Z) : 0 < pow2 e.
Proof. apply Qpower_0_lt. reflexivity. Qed.

Lemma pow2_add (a b : Z) : pow2 (a + b) == pow2 a * pow2 b.
Proof. apply Qpower_plus. discriminate. Qed.

Lemma pow2_succ (a : Z) : pow2 (a + 1) == 2 * pow2 a.
Proof. rewrite pow2_add. unfold pow2 at 2. simpl. ring. Qed.

Lemma pow2_sub (a b : Z) : pow2 (a - b) == pow2 a / pow2 b.
Proof. unfold pow2. apply Qpower_minus. discriminate. Qed.

Lemma pow2_Z (n : Z) : (0 <= n)%Z -> pow2 n == inject_Z (2 ^ n).
Proof. intros H. unfold pow2. symmetry. apply (Zpower_Qpower 2 n H). Qed.

Lemma pow2_le (a b : Z) : (a <= b)%Z -> pow2 a <= pow2 b.
Proof.
  intros H. unfold pow2. apply Qpower_le_compat_l; [exact H|]. 
  discriminate.
Qed.

Lemma pow2_lt (a b : Z) : (a < b)%Z -> pow2 a < pow2 b.
Proof.
  intros H. unfold pow2. apply Qpower_lt_compat_l; [exact H|]. reflexivity.
Qed.

Lemma Qlog2_spec (x : Q) : 0 < x -> pow2 (Qlog2 x) <= x /\ x < pow2 (Qlog2 x + 1).
Proof.
  intros Hx. unfold Qlog2.
  destruct x as [n d]. simpl Qnum. simpl Qden.
  assert (Hn : (0 < n)%Z) by (unfold Qlt in Hx; simpl in Hx; lia).
  set (ln := Z.log2 n). set (ld := Z.log2 (Z.pos d)).
  destruct (Z.log2_spec n Hn) as [Hn1 Hn2]. fold ln in Hn1, Hn2.
  destruct (Z.log2_spec (Z.pos d) (Pos2Z.is_pos d)) as [Hd1 Hd2]. fold ld in Hd1, Hd2.
  assert (Hln : (0 <= ln)%Z) by apply Z.log2_nonneg.
  assert (Hld : (0 <= ld)%Z) by apply Z.log2_nonneg.
  assert (Ex : n # d == inject_Z n / inject_Z (Z.pos d)) by apply Qmake_Qdiv.
  assert (Hdq : 0 < inject_Z (Z.pos d)) by reflexivity.
  assert (En : (n # d) * inject_Z (Z.pos d) == inject_Z n).
  { rewrite Ex. field. lra. }
  assert (Pn1 : pow2 ln <= inject_Z n) by (rewrite pow2_Z by lia; now rewrite <- Zle_Qle).
  assert (Pn2 : inject_Z n < 2 * pow2 ln).
  { rewrite <- pow2_succ, pow2_Z by lia. rewrite <- Zlt_Qlt. 
    replace (ln + 1)%Z with (Z.succ ln) by lia. exact Hn2. }
  assert (Pd1 : pow2 ld <= inject_Z (Z.pos d)) by (rewrite pow2_Z by lia; now rewrite <- Zle_Qle).
  assert (Pd2 : inject_Z (Z.pos d) < 2 * pow2 ld).
  { rewrite <- pow2_succ, pow2_Z by lia. rewrite <- Zlt_Qlt. 
    replace (ld + 1)%Z with (Z.succ ld) by lia. exact Hd2. }
  pose proof (pow2_pos ln) as Pln. pose proof (pow2_pos ld) as Pld.
  assert (Ek : pow2 (ln - ld) * pow2 ld == pow2 ln).
  { rewrite pow2_sub. field. lra. }
  pose proof (pow2_pos (ln - ld)) as Pk.
  destruct (Qle_bool (pow2 (ln - ld)) (n # d)) eqn:E.
  - apply Qle_bool_iff in E. split; [exact E|].
    rewrite pow2_succ. 
    set (X := n # d) in *. set (K := pow2 (ln - ld)) in *.
    set (D := inject_Z (Z.pos d)) in *. set (N := inject_Z n) in *.
    set (PD := pow2 ld) in *. set (PN := pow2 ln) in *.
    nra.
  - assert (E' : n # d < pow2 (ln - ld)).
    { apply Qnot_le_lt. intros H. apply Qle_bool_iff in H. congruence. }
    replace (ln - ld - 1 + 1)%Z with (ln - ld)%Z by lia.
    split; [|exact E'].
    assert (Ek1 : 2 * pow2 (ln - ld - 1) == pow2 (ln - ld)).
    { rewrite <- pow2_succ. now replace (ln - ld - 1 + 1)%Z with (ln - ld)%Z by lia. }
    pose proof (pow2_pos (ln - ld - 1)) as Pk1.
    set (X := n # d) in *. set (K := pow2 (ln - ld)) in *.
    set (K1 := pow2 (ln - ld - 1)) in *.
    set (D := inject_Z (Z.pos d)) in *. set (N := inject_Z n) in *.
    set (PD := pow2 ld) in *. set (PN := pow2 ln) in *.
    nra.
Qed.

Lemma round_half_even_ge (x : Q) (n : Z) :
  inject_Z n <= x -> (n <= round_half_even x)%Z.
Proof.
  intros H. unfold round_half_even.
  assert (Hf : (n <= Qfloor x)%Z).
  { rewrite <- (Qfloor_Z n). now apply Qfloor_resp_le. }
  destruct (Qcompare_spec (x - inject_Z (Qfloor x)) (1 # 2)); 
    try destruct (Z.even (Qfloor x)); lia.
Qed.

Lemma round_half_even_le (x : Q) (n : Z) :
  x <= inject_Z n -> (round_half_even x <= n)%Z.
Proof.
  intros H. unfold round_half_even.
  pose proof (Qfloor_le x) as Hfl.
  assert (Hf : (Qfloor x <= n)%Z) by (rewrite Zle_Qle; lra).
  assert (Hs : inject_Z (Qfloor x) < x -> (Qfloor x + 1 <= n)%Z).
  { intros Hlt. assert (Qfloor x < n)%Z by (rewrite Zlt_Qlt; lra). lia. }
  destruct (Qcompare_spec (x - inject_Z (Qfloor x)) (1 # 2)) as [E|E|E];
    try destruct (Z.even (Qfloor x)); try lia; apply Hs; lra.
Qed.

(** The exponent of the last place and the scaled magnitude of [x]. *)
Lemma exponent_cases (x : Q) :
  0 < x ->
  let e := Z.max (-1074) (Qlog2 x - 52) in
  (-1074 <= e)%Z /\ x < pow2 (e + 53) /\
  ((-1074 < e)%Z -> pow2 (e + 52) <= x).
Proof.
  intros Hx e. destruct (Qlog2_spec x Hx) as [H1 H2].
  split; [lia|]. split.
  - apply Qlt_le_trans with (pow2 (Qlog2 x + 1)); [exact H2|].
    apply pow2_le. lia.
  - intros He. replace (e + 52)%Z with (Qlog2 x) by lia. exact H1.
Qed.

Lemma scale_int (m e e0 : Z) :
  (e0 <= e)%Z ->
  inject_Z m * pow2 e == inject_Z (m * 2 ^ (e - e0)) * pow2 e0.
Proof.
  intros H. rewrite inject_Z_mult, <- pow2_Z by lia.
  rewrite <- Qmult_assoc, <- pow2_add.
  now replace (e - e0 + e0)%Z with e by lia.
Qed.

Lemma round_pos_lower (x : Q) (m e : Z) :
  0 < x -> (m <= 2 ^ 53)%Z -> (-1074 <= e)%Z ->
  inject_Z m * pow2 e <= x ->
  match round_pos x with
  | Some y => inject_Z m * pow2 e <= y
  | None => True
  end.
Proof.
  intros Hx Hm He Hle. unfold round_pos.
  destruct (exponent_cases x Hx) as (He0 & Hup & Hlow).
  set (e0 := Z.max (-1074) (Qlog2 x - 52)) in *.
  set (r := round_half_even (x / pow2 e0)).
  destruct (Qle_bool _ _); [exact I|].
  rewrite Qred_correct.
  pose proof (pow2_pos e0) as P0.
  destruct (Z_le_gt_dec e0 e) as [Hee|Hee].
  - rewrite (scale_int m e e0 Hee) in *.
    apply Qmult_le_compat_r; [|lra].
    rewrite <- Zle_Qle. apply round_half_even_ge.
    apply Qle_shift_div_l; assumption.
  - assert (Hr : (2 ^ 52 <= r)%Z).
    { apply round_half_even_ge. apply Qle_shift_div_l; [exact P0|].
      rewrite <- pow2_Z, <- pow2_add by lia. 
      rewrite Z.add_comm. apply Hlow. lia. }
    apply Qle_trans with (pow2 53 * pow2 e).
    + apply Qmult_le_compat_r; [|pose proof (pow2_pos e); lra].
      rewrite pow2_Z by lia. now rewrite <- Zle_Qle.
    + apply Qle_trans with (pow2 52 * pow2 e0).
      * rewrite <- !pow2_add. apply pow2_le. lia.
      * apply Qmult_le_compat_r; [|lra].
        rewrite pow2_Z by lia. now rewrite <- Zle_Qle.
Qed.

Lemma round_pos_upper (x : Q) (m e : Z) :
  0 < x -> (m < 2 ^ 53)%Z -> (-1074 <= e <= 971)%Z ->
  x <= inject_Z m * pow2 e ->
  exists y, round_pos x = Some y /\ y <= inject_Z m * pow2 e.
Proof.
  intros Hx Hm He Hle. unfold round_pos.
  destruct (exponent_cases x Hx) as (He0 & Hup & Hlow).
  set (e0 := Z.max (-1074) (Qlog2 x - 52)) in *.
  set (r := round_half_even (x / pow2 e0)).
  pose proof (pow2_pos e0) as P0. pose proof (pow2_pos e) as Pe.
  assert (Hfin : inject_Z m * pow2 e < pow2 1024).
  { apply Qlt_le_trans with (pow2 53 * pow2 e).
    - apply Qmult_lt_compat_r; [exact Pe|].
      rewrite pow2_Z by lia. now rewrite <- Zlt_Qlt.
    - rewrite <- pow2_add. apply pow2_le. lia. }
  assert (Hy : inject_Z r * pow2 e0 <= inject_Z m * pow2 e).
  { destruct (Z_le_gt_dec e0 e) as [Hee|Hee].
    - rewrite (scale_int m e e0 Hee) in *.
      apply Qmult_le_compat_r; [|lra].
      rewrite <- Zle_Qle. apply round_half_even_le.
      apply Qle_shift_div_r; assumption.
    - exfalso. 
      assert (pow2 (e0 + 52) <= x) by (apply Hlow; lia).
      assert (inject_Z m * pow2 e < pow2 (e0 + 52)).
      { apply Qlt_le_trans with (pow2 53 * pow2 e).
        - apply Qmult_lt_compat_r; [exact Pe|].
          rewrite pow2_Z by lia. now rewrite <- Zlt_Qlt.
        - rewrite <- pow2_add. apply pow2_le. lia. }
      lra. }
  destruct (Qle_bool _ _) eqn:E.
  - apply Qle_bool_iff in E. rewrite Qred_correct in E. lra.
  - eexists. split; [reflexivity|]. now rewrite Qred_correct.
Qed.

Lemma round64_pos (x : Q) :
  0 < x ->
  round64 x = match round_pos x with Some y => Finite y | None => Inf false end.
Proof.
  intros Hx. unfold round64.
  destruct (Qcompare_spec x 0) as [E|E|E]; [lra|lra|reflexivity].
Qed.

(** A positive [x] between two binary64 numbers rounds to a binary64
    number between them. *)
Lemma round64_between (x : Q) (m1 e1 m2 e2 : Z) :
  0 < x ->
  (m1 <= 2 ^ 53)%Z -> (-1074 <= e1)%Z ->
  (m2 < 2 ^ 53)%Z -> (-1074 <= e2 <= 971)%Z ->
  inject_Z m1 * pow2 e1 <= x -> x <= inject_Z m2 * pow2 e2 ->
  exists y, round64 x = Finite y /\
            inject_Z m1 * pow2 e1 <= y /\ y <= inject_Z m2 * pow2 e2.
Proof.
  intros Hx Hm1 He1 Hm2 He2 Hlo Hhi. rewrite (round64_pos x Hx).
  destruct (round_pos_upper x m2 e2 Hx Hm2 He2 Hhi) as (y & Ey & Hy).
  pose proof (round_pos_lower x m1 e1 Hx Hm1 He1 Hlo) as Hl.
  rewrite Ey in *. exists y. auto.
Qed.

Lemma pow2_0 : pow2 0 == 1.
Proof. reflexivity. Qed.

(** Integers below 2^53 are binary64 numbers. *)
Lemma round64_int (n : Z) :
  (0 <= n < 2 ^ 53)%Z ->
  exists y, round64 (inject_Z n) = Finite y /\ y == inject_Z n.
Proof.
  intros Hn. destruct (Z.eq_dec n 0) as [->|Hn0].
  - exists 0. split; reflexivity.
  - destruct (round64_between (inject_Z n) n 0 n 0) as (y & Ey & H1 & H2);
      try lia; try (rewrite pow2_0; lra).
    + change 0 with (inject_Z 0). rewrite <- Zlt_Qlt. lia.
    + exists y. split; [exact Ey|]. rewrite pow2_0 in *. lra.
Qed.

Lemma Qfloor_unique (x : Q) (n : Z) :
  inject_Z n <= x -> x < inject_Z (n + 1) -> Qfloor x = n.
Proof.
  intros H1 H2. pose proof (Qfloor_le x) as Hf.
  assert (n <= Qfloor x)%Z.
  { rewrite <- (Qfloor_Z n). now apply Qfloor_resp_le. }
  assert (Qfloor x < n + 1)%Z by (rewrite Zlt_Qlt; lra).
  lia.
Qed.

Lemma Qceiling_unique (x : Q) (n : Z) :
  inject_Z (n - 1) < x -> x <= inject_Z n -> Qceiling x = n.
Proof.
  intros H1 H2. pose proof (Qle_ceiling x) as Hc.
  assert (Qceiling x <= n)%Z.
  { rewrite <- (Qceiling_Z n). now apply Qceiling_resp_le. }
  assert (n - 1 < Qceiling x)%Z by (rewrite Zlt_Qlt; lra).
  lia.
Qed.

Lemma Qred_idem (q : Q) : Qred (Qred q) = Qred q.
Proof. apply Qred_complete, Qred_correct. Qed.

Lemma canonical_eq (a b : Q) : Qred a = a -> Qred b = b -> a == b -> a = b.
Proof. intros Ha Hb E. rewrite <- Ha, <- Hb. now apply Qred_complete. Qed.

Lemma Qred_inject_Z (n : Z) : Qred (inject_Z n) = inject_Z n.
Proof.
  unfold Qred, inject_Z.
  pose proof (Z.ggcd_gcd n 1) as Hg.
  pose proof (Z.ggcd_correct_divisors n 1) as Hd.
  destruct (Z.ggcd n 1) as [g [aa bb]]. simpl in *.
  rewrite Z.gcd_1_r in Hg. subst g. destruct Hd as [Ha Hb].
  f_equal; [lia|]. assert (bb = 1%Z) by lia. subst bb. reflexivity.
Qed.

Lemma round_pos_canonical (x y : Q) : round_pos x = Some y -> Qred y = y.
Proof.
  unfold round_pos. set (u := inject_Z _ * pow2 _).
  destruct (Qle_bool _ _); [discriminate|].
  intros E. replace y with (Qred u) by congruence. apply Qred_idem.
Qed.

(** What [round_pos] returns is a binary64 number. *)
Lemma round_pos_output (x y : Q) :
  0 < x -> round_pos x = Some y ->
  exists m e, (0 <= m < 2 ^ 53)%Z /\ (-1074 <= e <= 971)%Z /\
              y == inject_Z m * pow2 e.
Proof.
  intros Hx. unfold round_pos.
  destruct (exponent_cases x Hx) as (He0 & Hup & Hlow).
  set (e0 := Z.max (-1074) (Qlog2 x - 52)) in *.
  set (r := round_half_even (x / pow2 e0)).
  pose proof (pow2_pos e0) as P0.
  destruct (Qle_bool _ _) eqn:E; [discriminate|].
  intros Ey.
  assert (Hy : y == inject_Z r * pow2 e0).
  { replace y with (Qred (inject_Z r * pow2 e0)) by congruence.
    apply Qred_correct. }
  clear Ey.
  assert (Hfin : inject_Z r * pow2 e0 < pow2 1024).
  { apply Qnot_le_lt. intros H. rewrite <- (Qred_correct (_ * _)) in H.
    apply Qle_bool_iff in H. congruence. }
  assert (Hr0 : (0 <= r)%Z).
  { apply round_half_even_ge. apply Qle_shift_div_l; [exact P0|].
    change (inject_Z 0) with 0. lra. }
  assert (Hr1 : (r <= 2 ^ 53)%Z).
  { apply round_half_even_le. apply Qle_shift_div_r; [exact P0|].
    rewrite <- pow2_Z, <- pow2_add by lia. rewrite Z.add_comm. lra. }
  assert (Hlowr : (-1074 < e0)%Z -> (2 ^ 52 <= r)%Z).
  { intros H. apply round_half_even_ge. apply Qle_shift_div_l; [exact P0|].
    rewrite <- pow2_Z, <- pow2_add by lia. rewrite Z.add_comm. now apply Hlow. }
  destruct (Z.eq_dec r (2 ^ 53)) as [Hr|Hr].
  - exists (2 ^ 52)%Z, (e0 + 1)%Z.
    assert (Heq : inject_Z r * pow2 e0 == inject_Z (2 ^ 52) * pow2 (e0 + 1)).
    { rewrite Hr, pow2_succ, <- !pow2_Z by lia.
      change (pow2 53) with (2 * pow2 52). ring. }
    split; [lia|]. split; [|rewrite Hy; exact Heq].
    assert ((e0 + 53 < 1024)%Z); [|lia].
    apply (Qpower_lt_compat_l_inv 2); [|reflexivity].
    fold (pow2 (e0 + 53)). fold (pow2 1024).
    rewrite Z.add_comm, pow2_add, pow2_Z by lia. rewrite <- Hr. exact Hfin.
  - exists r, e0. split; [lia|]. split; [|exact Hy].
    split; [lia|].
    destruct (Z_le_gt_dec e0 (-1074)) as [H|H]; [lia|].
    assert ((e0 + 52 < 1024)%Z); [|lia].
    apply (Qpower_lt_compat_l_inv 2); [|reflexivity].
    fold (pow2 (e0 + 52)). fold (pow2 1024).
    apply Qle_lt_trans with (2 := Hfin).
    rewrite Z.add_comm, pow2_add. apply Qmult_le_compat_r; [|lra].
    rewrite pow2_Z by lia. rewrite <- Zle_Qle. apply Hlowr. lia.
Qed.

(** A binary64 number rounds to itself. *)
Lemma round64_fixed (x y : Q) (m e : Z) :
  Qred y = y -> (0 <= m < 2 ^ 53)%Z -> (-1074 <= e <= 971)%Z ->
  y == inject_Z m * pow2 e -> x == y -> round64 x = Finite y.
Proof.
  intros Hc Hm He Hy Hxy. pose proof (pow2_pos e) as Pe.
  destruct (Z.eq_dec m 0) as [->|Hm0].
  - assert (Hy0 : y == 0) by (rewrite Hy; ring).
    assert (y = 0) by (apply canonical_eq; auto). subst y.
    unfold round64. assert (E : x == 0) by lra. apply Qeq_alt in E. now rewrite E.
  - assert (Hmq : 0 < inject_Z m) by (apply inject_Z_pos; lia).
    assert (Hx : 0 < x).
    { rewrite Hxy, Hy. apply Qmult_lt_0_compat; assumption. }
    destruct (round64_between x m e m e Hx) as (z & Ez & H1 & H2);
      try lia; try lra.
    rewrite Ez. f_equal. apply canonical_eq; [|exact Hc|lra].
    rewrite (round64_pos x Hx) in Ez.
    destruct (round_pos x) as [z'|] eqn:Ep; [|discriminate].
    injection Ez as ->. now apply round_pos_canonical in Ep.
Qed.

Lemma round64_int_eq (x : Q) (n : Z) :
  (0 <= n < 2 ^ 53)%Z -> x == inject_Z n -> round64 x = Finite (inject_Z n).
Proof.
  intros Hn Hx. apply (round64_fixed x (inject_Z n) n 0); try lia; auto.
  - apply Qred_inject_Z.
  - rewrite pow2_0. ring.
Qed.

End Rounding.

(** ** Cycle length *)

Lemma gcd_Zgcd (a b : Z) : 0 <= a -> 0 <= b -> gcd a b = Z.gcd a b.
Proof.
  funelim (gcd a b); intros Ha Hb.
  - subst. rewrite Z.gcd_0_r. lia.
  - match goal with IH : _ -> _ -> gcd _ _ = Z.gcd _ _ |- _ => rewrite IH end.
    + rewrite Z.gcd_comm, Z.gcd_mod by lia. apply Z.gcd_comm.
    + lia.
    + apply Z.mod_pos_bound. lia.
Qed.

Lemma lcm_Zlcm (a b : Z) : 0 < a -> 0 < b -> lcm a b = Ok (Z.lcm a b).
Proof.
  intros Ha Hb. unfold lcm. rewrite gcd_Zgcd by lia.
  assert (Hg : 0 < Z.gcd a b).
  { pose proof (Z.gcd_nonneg a b).
    assert (Z.gcd a b <> 0) by (rewrite Z.gcd_eq_0; lia). lia. }
  destruct (Z.eqb_spec (Z.gcd a b) 0) as [E|_]; [lia|].
  f_equal. unfold Z.lcm.
  rewrite Z.abs_mul, (Z.abs_eq a), (Z.abs_eq b) by lia.
  rewrite Z.abs_eq.
  - apply Z.divide_div_mul_exact; [lia|apply Z.gcd_divide_r].
  - apply Z.mul_nonneg_nonneg; [lia|]. apply Z.div_pos; lia.
Qed.

Lemma Zlcm_pos (a b : Z) : 0 < a -> 0 < b -> 0 < Z.lcm a b.
Proof.
  intros Ha Hb. pose proof (Z.lcm_nonneg a b).
  assert (Z.lcm a b <> 0) by (rewrite Z.lcm_eq_0; lia). lia.
Qed.

(** The loop computes a least common multiple of the start value and the
    rest, whatever the order of the rest. *)
Lemma lcm_loop_spec (rest : list Z) :
  forall r0, 0 < r0 -> (forall x, In x rest -> 0 < x) ->
  exists L, lcm_loop r0 rest = Ok L /\ 0 < L /\ (r0 | L) /\
            (forall x, In x rest -> (x | L)) /\
            (forall M, (r0 | M) -> (forall x, In x rest -> (x | M)) -> (L | M)).
Proof.
  induction rest as [|d rest IH]; intros r0 Hr0 Hpos; simpl.
  - exists r0. repeat split; auto with zarith. intros x [].
  - rewrite lcm_Zlcm by (auto with datatypes). simpl.
    destruct (IH (Z.lcm r0 d)) as (L & HL & HLpos & Hdiv0 & Hdiv & Hleast).
    + apply Zlcm_pos; auto with datatypes.
    + intros x Hx. apply Hpos. now right.
    + exists L. split; [exact HL|]. split; [exact HLpos|].
      split; [|split].
      * apply Z.divide_trans with (Z.lcm r0 d); [apply Z.divide_lcm_l|exact Hdiv0].
      * intros x [<-|Hx].
        -- apply Z.divide_trans with (Z.lcm r0 d); [apply Z.divide_lcm_r|exact Hdiv0].
        -- now apply Hdiv.
      * intros M HM0 HM. apply Hleast.
        -- apply Z.lcm_least; [exact HM0|]. apply HM. now left.
        -- intros x Hx. apply HM. now right.
Qed.

Lemma least_common_multiple_unique (xs : list Z) (L1 L2 : Z) :
  least_common_multiple xs L1 -> least_common_multiple xs L2 -> L1 = L2.
Proof.
  intros (P1 & D1 & M1) (P2 & D2 & M2).
  specialize (M1 L2 P2 D2). specialize (M2 L1 P1 D1). lia.
Qed.

Lemma first_seen_order : set_order first_seen.
Proof.
  intros xs. induction xs as [|x xs [IHnd IHin]]; simpl.
  - split; [constructor|tauto].
  - split.
    + constructor.
      * rewrite filter_In. intros [_ H]. rewrite Z.eqb_refl in H. discriminate.
      * now apply NoDup_filter.
    + intros y. rewrite filter_In, IHin.
      destruct (Z.eqb_spec y x) as [->|Hne]; simpl; intuition congruence.
Qed.

Section CycleLength.

Variable list_of_set : list Z -> list Z.
Hypothesis order_ok : set_order list_of_set.

Lemma compute_cycle_ms_lcm (d : Z) (ds : list Z) :
  exists L, least_common_multiple (map (Z.max 1) (d :: ds)) L /\
            compute_cycle_ms list_of_set (d :: ds) = Ok (Z.min 10000 L).
Proof.
  unfold compute_cycle_ms.
  destruct (order_ok (map (Z.max 1) (d :: ds))) as [_ Hin].
  assert (Hpos : forall x, In x (list_of_set (map (Z.max 1) (d :: ds))) -> 0 < x).
  { intros x Hx. apply Hin in Hx. apply in_map_iff in Hx.
    destruct Hx as (y & <- & _). lia. }
  destruct (list_of_set (map (Z.max 1) (d :: ds))) as [|u0 rest] eqn:E.
  - exfalso. apply (proj2 (Hin (Z.max 1 d))). now left.
  - destruct (lcm_loop_spec rest u0) as (L & HL & HLpos & Hd0 & Hd & Hleast).
    + apply Hpos. now left.
    + intros x Hx. apply Hpos. now right.
    + exists L. split.
      * split; [exact HLpos|]. split.
        -- intros x Hx. apply Hin in Hx. destruct Hx as [<-|Hx]; auto.
        -- intros M HMpos HM. apply Z.divide_pos_le; [exact HMpos|].
           apply Hleast.
           ++ apply HM, Hin. now left.
           ++ intros x Hx. apply HM, Hin. now right.
      * rewrite HL. simpl. now rewrite Z.min_comm.
Qed.

End CycleLength.

(** C1: [compute_cycle_ms] is 2000 on the empty list and otherwise the
    least common multiple of the set of the durations, each raised to at
    least 1, capped at 10000; this for every iteration order of the set. *)
Theorem compute_cycle_ms_spec (list_of_set : list Z -> list Z) (D : list Z) :
  set_order list_of_set ->
  (D = [] -> compute_cycle_ms list_of_set D = Ok 2000) /\
  (D <> [] ->
   exists L, least_common_multiple (map (Z.max 1) D) L /\
             compute_cycle_ms list_of_set D = Ok (Z.min 10000 L)).
Proof.
  intros Hord. split.
  - intros ->. reflexivity.
  - destruct D as [|d ds]; [congruence|]. intros _.
    now apply compute_cycle_ms_lcm.
Qed.

Lemma compute_cycle_ms_spec_witness :
  set_order first_seen /\
  compute_cycle_ms first_seen [] = Ok 2000 /\
  compute_cycle_ms first_seen [1000; 1500; 1000] = Ok 3000 /\
  compute_cycle_ms first_seen [200000] = Ok 10000.
Proof.
  split; [exact first_seen_order|].
  split; [exact (proj1 (compute_cycle_ms_spec first_seen [] first_seen_order) eq_refl)|].
  split; reflexivity.
Defined.

(** C4: two lists of durations with the same set of values have the same
    cycle length, whatever the order and the multiplicities. *)
Theorem compute_cycle_ms_set_semantics
    (list_of_set : list Z -> list Z) (D1 D2 : list Z) :
  set_order list_of_set ->
  (forall d, In d D1 <-> In d D2) ->
  compute_cycle_ms list_of_set D1 = compute_cycle_ms list_of_set D2.
Proof.
  intros Hord Hsame.
  destruct D1 as [|d1 D1], D2 as [|d2 D2].
  - reflexivity.
  - exfalso. apply (proj2 (Hsame d2)). now left.
  - exfalso. apply (proj1 (Hsame d1)). now left.
  - destruct (compute_cycle_ms_lcm list_of_set Hord d1 D1) as (L1 & H1 & ->).
    destruct (compute_cycle_ms_lcm list_of_set Hord d2 D2) as (L2 & H2 & ->).
    f_equal. f_equal. apply (least_common_multiple_unique (map (Z.max 1) (d1 :: D1))).
    + exact H1.
    + destruct H2 as (P2 & Dv2 & M2). split; [exact P2|]. split.
      * intros x Hx. apply Dv2. apply in_map_iff in Hx. apply in_map_iff.
        destruct Hx as (y & <- & Hy). exists y. split; [reflexivity|]. now apply Hsame.
      * intros M HM HdM. apply M2; [exact HM|].
        intros x Hx. apply HdM. apply in_map_iff in Hx. apply in_map_iff.
        destruct Hx as (y & <- & Hy). exists y. split; [reflexivity|]. now apply Hsame.
Qed.

Lemma compute_cycle_ms_set_semantics_witness :
  compute_cycle_ms first_seen [1500; 1000; 1500; 1000; 1000] =
  compute_cycle_ms first_seen [1000; 1500].
Proof.
  apply (compute_cycle_ms_set_semantics first_seen).
  - exact first_seen_order.
  - intros d. simpl. tauto.
Defined.

(** ** Frame count and start offset *)

Lemma FRAME_MS_value : FRAME_MS = Ok (Finite 50).
Proof. reflexivity. Qed.

Section SamplerArithmetic.

Local Open Scope Q_scope.


(** [int(c / 50.0)] is the integer quotient as long as [c] is a binary64
    number with room for six more bits. *)
Lemma frame_count_floor (c : Z) :
  (0 <= c < 2 ^ 52)%Z -> frame_count c = Ok (c / 50)%Z.
Proof.
  intros Hc. unfold frame_count. rewrite FRAME_MS_value. simpl bind.
  unfold int_div_float, float_of_int.
  destruct (round64_int c) as (y & Ey & Hy); [lia|]. rewrite Ey. simpl bind.
  unfold float_div. change (Qcompare 50 0) with Gt.
  destruct (Z.eq_dec c 0) as [->|Hc0].
  - unfold round64. assert (E : y / 50 == 0) by (rewrite Hy; reflexivity).
    apply Qeq_alt in E. rewrite E. reflexivity.
  - set (q := (c / 50)%Z).
    assert (Hq : (50 * q <= c < 50 * q + 50)%Z).
    { pose proof (Z.mul_div_le c 50 eq_refl).
      pose proof (Z.mul_succ_div_gt c 50 eq_refl). unfold q. lia. }
    assert (Hcq : 0 < inject_Z c) by (apply inject_Z_pos; lia).
    destruct (round64_between (y / 50) q 0 ((q + 1) * 64 - 1) (-6))
      as (z & Ez & H1 & H2); try lia.
    + apply Qlt_shift_div_l; lra.
    + rewrite pow2_0. apply Qle_shift_div_l; [reflexivity|].
      rewrite Hy, Qmult_1_r. change 50 with (inject_Z 50).
      rewrite <- inject_Z_mult, <- Zle_Qle. lia.
    + apply Qle_shift_div_r; [reflexivity|].
      change (pow2 (-6)) with (1 # 64). rewrite Hy.
      assert (E : inject_Z ((q + 1) * 64 - 1) * (1 # 64) * 50
                  == inject_Z (((q + 1) * 64 - 1) * 50) * (1 # 64)).
      { rewrite inject_Z_mult. change (inject_Z 50) with 50. ring. }
      rewrite E. apply Qle_shift_div_l with (c := 64); [reflexivity|].
      change 64 with (inject_Z 64). rewrite <- inject_Z_mult, <- Zle_Qle. lia.
    + rewrite Ez. unfold int_of_float.
      rewrite pow2_0 in H1. change (pow2 (-6)) with (1 # 64) in H2.
      assert (Hq0 : (0 <= q)%Z) by (unfold q; apply Z.div_pos; lia).
      assert (0 <= inject_Z q) by (change 0 with (inject_Z 0); now rewrite <- Zle_Qle).
      assert (Hz : Qle_bool 0 z = true) by (apply Qle_bool_iff; lra).
      rewrite Hz. f_equal. apply Qfloor_unique; [lra|].
      apply Qle_lt_trans with (1 := H2). push_inject_Z. lra.
Qed.

Lemma pow2_neg (k : Z) : (0 <= k)%Z -> pow2 (- k) == / inject_Z (2 ^ k).
Proof.
  intros Hk. unfold pow2. rewrite Qpower_opp. apply Qinv_comp.
  symmetry. apply (Zpower_Qpower 2 k Hk).
Qed.

Lemma pow2_Z_pos (k : Z) : (0 <= k)%Z -> 0 < inject_Z (2 ^ k).
Proof. intros Hk. apply inject_Z_pos. now apply Z.pow_pos_nonneg. Qed.

(** Comparisons of a dyadic number [m * 2^-k] with a quotient of integers
    and with an integer, reduced to comparisons of integers. *)
Lemma dyadic_le_ratio (m k a c : Z) :
  (0 <= k)%Z -> (0 < c)%Z -> (m * c <= a * 2 ^ k)%Z ->
  inject_Z m * pow2 (- k) <= inject_Z a / inject_Z c.
Proof.
  intros Hk Hc H. pose proof (pow2_Z_pos k Hk) as HP.
  pose proof (inject_Z_pos c Hc) as HC.
  rewrite pow2_neg by exact Hk.
  apply Qle_shift_div_l; [exact HC|].
  assert (E : inject_Z m * / inject_Z (2 ^ k) * inject_Z c
              == inject_Z (m * c) / inject_Z (2 ^ k)).
  { rewrite inject_Z_mult. field. lra. }
  rewrite E. apply Qle_shift_div_r; [exact HP|].
  rewrite <- inject_Z_mult, <- Zle_Qle. exact H.
Qed.

Lemma ratio_le_dyadic (m k a c : Z) :
  (0 <= k)%Z -> (0 < c)%Z -> (a * 2 ^ k <= m * c)%Z ->
  inject_Z a / inject_Z c <= inject_Z m * pow2 (- k).
Proof.
  intros Hk Hc H. pose proof (pow2_Z_pos k Hk) as HP.
  pose proof (inject_Z_pos c Hc) as HC.
  rewrite pow2_neg by exact Hk.
  apply Qle_shift_div_r; [exact HC|].
  assert (E : inject_Z m * / inject_Z (2 ^ k) * inject_Z c
              == inject_Z (m * c) / inject_Z (2 ^ k)).
  { rewrite inject_Z_mult. field. lra. }
  rewrite E. apply Qle_shift_div_l; [exact HP|].
  rewrite <- inject_Z_mult, <- Zle_Qle. exact H.
Qed.

Lemma int_lt_dyadic (n m k : Z) :
  (0 <= k)%Z -> (n * 2 ^ k < m)%Z -> inject_Z n < inject_Z m * pow2 (- k).
Proof.
  intros Hk H. pose proof (pow2_Z_pos k Hk) as HP.
  rewrite pow2_neg by exact Hk.
  apply Qlt_shift_div_l; [exact HP|].
  rewrite <- inject_Z_mult, <- Zlt_Qlt. exact H.
Qed.

Lemma dyadic_le_int (n m k : Z) :
  (0 <= k)%Z -> (m <= n * 2 ^ k)%Z -> inject_Z m * pow2 (- k) <= inject_Z n.
Proof.
  intros Hk H. pose proof (pow2_Z_pos k Hk) as HP.
  rewrite pow2_neg by exact Hk.
  apply Qle_shift_div_r; [exact HP|].
  rewrite <- inject_Z_mult, <- Zle_Qle. exact H.
Qed.

(** Below 2^52 the float quotient does not reach the next integer, so
    [ceil] of it is the integer ceiling of the exact quotient. *)
Lemma ceil_truediv_exact (a c : Z) :
  (1 <= a < 2 ^ 52)%Z -> (1 <= c < 2 ^ 52)%Z ->
  (q <- int_truediv a c ;; math_ceil q) = Ok ((a + c - 1) / c)%Z.
Proof.
  intros Ha Hc. unfold int_truediv.
  destruct (Z.eqb_spec c 0) as [E|_]; [lia|].
  set (q := (a / c)%Z). set (r := (a mod c)%Z).
  assert (Hdiv : (a = c * q + r)%Z) by (apply Z.div_mod; lia).
  assert (Hr : (0 <= r < c)%Z) by (apply Z.mod_pos_bound; lia).
  assert (Hq : (0 <= q)%Z) by (apply Z.div_pos; lia).
  assert (Hx : 0 < inject_Z a / inject_Z c).
  { apply Qlt_shift_div_l; [apply inject_Z_pos; lia|].
    rewrite Qmult_0_l. apply inject_Z_pos. lia. }
  destruct (Z.eq_dec r 0) as [Hr0|Hr0].
  - assert (Hqa : (q <= a)%Z) by nia.
    destruct (round64_between (inject_Z a / inject_Z c) q 0 q 0 Hx)
      as (y & Ey & H1 & H2); try lia.
    + apply (dyadic_le_ratio q 0 a c); lia.
    + apply (ratio_le_dyadic q 0 a c); lia.
    + rewrite Ey. simpl. f_equal.
      rewrite pow2_0, Qmult_1_r in *.
      replace ((a + c - 1) / c)%Z with q.
      * apply Qceiling_unique; [|lra].
        apply Qlt_le_trans with (inject_Z q); [|lra].
        rewrite <- Zlt_Qlt. lia.
      * apply Z.div_unique with (r := (c - 1)%Z); lia.
  - set (k := Z.log2_up c).
    assert (Hc1 : (1 < c)%Z) by lia.
    destruct (Z.log2_up_spec c Hc1) as [Hk1 Hk2]. fold k in Hk1, Hk2.
    assert (Hk : (0 < k)%Z) by (apply Z.log2_up_pos; lia).
    assert (Hk52 : (k <= 52)%Z).
    { apply Z.log2_up_le_pow2; lia. }
    assert (Hpow : (2 ^ k = 2 * 2 ^ Z.pred k)%Z).
    { rewrite <- Z.pow_succ_r by lia. f_equal. lia. }
    destruct (round64_between (inject_Z a / inject_Z c)
                (q * 2 ^ k + 1) (- k) (q + 1) 0 Hx)
      as (y & Ey & H1 & H2); try lia.
    + nia.
    + apply dyadic_le_ratio; [lia|lia|]. nia.
    + apply (ratio_le_dyadic (q + 1) 0 a c); [lia|lia|]. nia.
    + rewrite Ey. simpl. f_equal.
      replace ((a + c - 1) / c)%Z with (q + 1)%Z.
      * apply Qceiling_unique.
        -- apply Qlt_le_trans with (2 := H1).
           apply int_lt_dyadic; lia.
        -- apply Qle_trans with (1 := H2). apply (dyadic_le_int (q + 1) (q + 1) 0); lia.
      * apply Z.div_unique with (r := (r - 1)%Z); lia.
Qed.

(** The start offset on delays below 2^52 - 1, where the float quotient
    is exact enough. *)
Lemma start_offset_exact (c d : Z) :
  (1 <= c < 2 ^ 52)%Z -> (0 <= d < 2 ^ 52 - 1)%Z ->
  start_offset c d = Ok (c * Z.max 1 ((d + c) / c))%Z.
Proof.
  intros Hc Hd. unfold start_offset.
  pose proof (ceil_truediv_exact (d + 1) c ltac:(lia) Hc) as H.
  replace (d + 1 + c - 1)%Z with (d + c)%Z in H by lia.
  destruct (int_truediv (d + 1) c) as [q|e]; simpl bind in *; [|discriminate].
  rewrite H. reflexivity.
Qed.

End SamplerArithmetic.

(** On delays below 2^52 - 1 the start offset is the least positive
    multiple of the cycle length above the delay. *)
Lemma start_offset_least (c d : Z) :
  1 <= c < 2 ^ 52 -> 0 <= d < 2 ^ 52 - 1 ->
  exists s, start_offset c d = Ok s /\
            s = c * Z.max 1 ((d + c) / c) /\
            0 < s /\ (c | s) /\ d < s /\
            (forall k, d < c * k -> s <= c * k).
Proof.
  intros Hc Hd. exists (c * Z.max 1 ((d + c) / c)).
  split; [now apply start_offset_exact|]. split; [reflexivity|].
  assert (E : (d + c) / c = d / c + 1).
  { replace (d + c) with (d + 1 * c) by lia. rewrite Z.div_add by lia. reflexivity. }
  assert (0 <= d / c) by (apply Z.div_pos; lia).
  pose proof (Z.mul_div_le d c ltac:(lia)).
  pose proof (Z.mul_succ_div_gt d c ltac:(lia)).
  rewrite E. replace (Z.max 1 (d / c + 1)) with (d / c + 1) by lia.
  split; [nia|]. split; [apply Z.divide_factor_l|]. split; [lia|].
  intros k Hk. assert (d / c < k) by nia. nia.
Qed.

(** The cycle length is between 1 and 10000 and does not depend on the
    iteration order of the set. *)
Lemma compute_cycle_ms_range (list_of_set : list Z -> list Z) (D : list Z) :
  set_order list_of_set ->
  exists c, compute_cycle_ms list_of_set D = Ok c /\ 1 <= c <= 10000.
Proof.
  intros Hord. destruct D as [|d ds].
  - exists 2000. split; [reflexivity|lia].
  - destruct (compute_cycle_ms_lcm list_of_set Hord d ds) as (L & (HL & _) & E).
    exists (Z.min 10000 L). split; [exact E|lia].
Qed.

Lemma compute_cycle_ms_order (o1 o2 : list Z -> list Z) (D : list Z) :
  set_order o1 -> set_order o2 ->
  compute_cycle_ms o1 D = compute_cycle_ms o2 D.
Proof.
  intros H1 H2. destruct D as [|d ds]; [reflexivity|].
  destruct (compute_cycle_ms_lcm o1 H1 d ds) as (L1 & HL1 & ->).
  destruct (compute_cycle_ms_lcm o2 H2 d ds) as (L2 & HL2 & ->).
  now rewrite (least_common_multiple_unique _ _ _ HL1 HL2).
Qed.

(** C3: the number of frames of every cycle length that the analyzer
    computes is the integer quotient of the cycle length by the frame
    interval, 1000 / 20 = 50 ms, so that the frames span one cycle up to
    the truncation. *)
Theorem frame_count_spec (list_of_set : list Z -> list Z) (D : list Z) :
  set_order list_of_set ->
  exists c n,
    compute_cycle_ms list_of_set D = Ok c /\
    FRAME_MS = Ok (Finite 50) /\
    frame_count c = Ok n /\
    n = c / 50 /\
    n * 50 <= c < (n + 1) * 50.
Proof.
  intros Hord.
  destruct (compute_cycle_ms_range list_of_set D Hord) as (c & Hc & Hr).
  exists c, (c / 50). split; [exact Hc|]. split; [reflexivity|].
  split; [apply frame_count_floor; lia|]. split; [reflexivity|].
  pose proof (Z.mul_div_le c 50 eq_refl).
  pose proof (Z.mul_succ_div_gt c 50 eq_refl). lia.
Qed.

Lemma frame_count_spec_witness :
  set_order first_seen /\
  frame_count 3000 = Ok 60 /\ frame_count 2000 = Ok 40.
Proof.
  split; [exact first_seen_order|].
  split.
  - destruct (frame_count_spec first_seen [1000; 1500] first_seen_order)
      as (c & n & Hc & _ & Hn & -> & _).
    vm_compute in Hc. injection Hc as <-. exact Hn.
  - destruct (frame_count_spec first_seen [] first_seen_order)
      as (c & n & Hc & _ & Hn & -> & _).
    vm_compute in Hc. injection Hc as <-. exact Hn.
Defined.

(** C2: on a delay of 140737488355329008 ms and a cycle of 1000 ms the
    quotient [(max_delay + 1) / cycle_ms] is rounded down to an integer,
    and the start offset, 140737488355329000, is below the delay. *)
Theorem start_offset_below_delay :
  parse_animation_properties "animation: spin 1s linear 140737488355329008ms"
  = Ok ([1000], [140737488355329008]) /\
  sample_plan first_seen "animation: spin 1s linear 140737488355329008ms"
  = Ok {| cycle_ms := 1000; start_ms := 140737488355329000; num_frames := 20 |} /\
  start_offset 1000 140737488355329008 = Ok 140737488355329000 /\
  140737488355329000 < 140737488355329008.
Proof.
  split; [vm_compute; reflexivity|]. split; [vm_compute; reflexivity|].
  split; [vm_compute; reflexivity|]. reflexivity.
Qed.

(** ** Determinism of the sample plan *)

Lemma float_of_int_exact (n : Z) :
  0 <= n < 2 ^ 53 -> float_of_int n = Ok (Finite (inject_Z n)).
Proof.
  intros Hn. unfold float_of_int.
  now rewrite (round64_int_eq (inject_Z n) n Hn (Qeq_refl _)).
Qed.

(** Below 2^53 the sample times are exact. *)
Lemma sample_time_exact (start i : Z) :
  0 <= start -> 0 <= i -> start + i * 50 < 2 ^ 53 ->
  sample_time start i = Ok (Finite (inject_Z (start + i * 50))).
Proof.
  intros Hs Hi Hlt. unfold sample_time. rewrite FRAME_MS_value. simpl bind.
  unfold int_mul_float. rewrite float_of_int_exact by lia. simpl bind.
  unfold float_mul.
  rewrite (round64_int_eq _ (i * 50)); [|lia|].
  - unfold int_add_float. rewrite float_of_int_exact by lia. simpl bind.
    unfold float_add.
    rewrite (round64_int_eq _ (start + i * 50)); [reflexivity|lia|].
    now rewrite inject_Z_plus.
  - now rewrite inject_Z_mult.
Qed.

Lemma sample_times_exact (start : Z) (indices : list Z) :
  0 <= start ->
  (forall i, In i indices -> 0 <= i /\ start + i * 50 < 2 ^ 53) ->
  sample_times start indices =
  Ok (map (fun i => Finite (inject_Z (start + i * 50))) indices).
Proof.
  intros Hs. induction indices as [|i rest IH]; intros Hall;
    cbn [sample_times map].
  - reflexivity.
  - destruct (Hall i (or_introl eq_refl)) as [Hi Hlt].
    rewrite sample_time_exact by assumption. cbn [bind].
    rewrite IH by (intros j Hj; apply Hall; now right). reflexivity.
Qed.

Lemma range_bounds (n i : Z) : In i (range n) -> 0 <= i < n.
Proof.
  unfold range. rewrite in_map_iff. intros (k & <- & Hk).
  apply in_seq in Hk. lia.
Qed.

Lemma start_offset_pos (c d s : Z) : 1 <= c -> start_offset c d = Ok s -> 1 <= s.
Proof.
  intros Hc. unfold start_offset.
  destruct (int_truediv (d + 1) c) as [q|e]; simpl; [|discriminate].
  destruct (math_ceil q) as [k|e]; simpl; [|discriminate].
  intros E. injection E as <-. nia.
Qed.

(** C9: the sample plan and the sample times are a function of the text of
    the document alone: they do not depend on the iteration order of the
    set of durations, the only choice that Python leaves open, and the
    times are [start_ms + i * 50] for [i] in [range(num_frames)]. *)
Theorem sample_plan_deterministic (o1 o2 : list Z -> list Z) (svg_content : string) :
  set_order o1 -> set_order o2 ->
  sample_plan o1 svg_content = sample_plan o2 svg_content /\
  plan_times o1 svg_content = plan_times o2 svg_content /\
  (forall p, sample_plan o1 svg_content = Ok p ->
             plan_times o1 svg_content =
             sample_times (start_ms p) (range (num_frames p))) /\
  (forall p, sample_plan o1 svg_content = Ok p ->
             start_ms p + num_frames p * 50 < 2 ^ 53 ->
             plan_times o1 svg_content =
             Ok (map (fun i => Finite (inject_Z (start_ms p + i * 50)))
                     (range (num_frames p)))).
Proof.
  intros H1 H2.
  assert (E : sample_plan o1 svg_content = sample_plan o2 svg_content).
  { unfold sample_plan.
    destruct (parse_animation_properties svg_content) as [[D L]|e];
      cbn [bind]; [|reflexivity].
    now rewrite (compute_cycle_ms_order o1 o2 D H1 H2). }
  split; [exact E|]. split; [unfold plan_times; now rewrite E|].
  split.
  - intros p Hp. unfold plan_times. now rewrite Hp.
  - intros p Hp Hlt. unfold plan_times. rewrite Hp. simpl bind.
    assert (Hs : 1 <= start_ms p).
    { unfold sample_plan in Hp.
      destruct (parse_animation_properties svg_content) as [[D L]|e];
        cbn [bind] in Hp; [|discriminate].
      destruct (compute_cycle_ms_range o1 D H1) as (c & Hc & Hr).
      rewrite Hc in Hp. cbn [bind] in Hp.
      destruct (start_offset c (max_delay_of L)) as [s|e] eqn:Es;
        cbn [bind] in Hp; [|discriminate].
      destruct (frame_count c) as [n|e]; cbn [bind] in Hp; [|discriminate].
      injection Hp as <-. simpl.
      apply (start_offset_pos c (max_delay_of L) s); [lia|exact Es]. }
    apply sample_times_exact; [lia|].
    intros i Hi. apply range_bounds in Hi. lia.
Qed.

Lemma rev_first_seen_order : set_order (fun xs => rev (first_seen xs)).
Proof.
  intros xs. destruct (first_seen_order xs) as [Hnd Hin]. split.
  - now apply NoDup_rev.
  - intros x. rewrite <- in_rev. apply Hin.
Qed.

Lemma sample_plan_deterministic_witness :
  set_order first_seen /\ set_order (fun xs => rev (first_seen xs)) /\
  sample_plan first_seen
    "animation: a 1s linear 250ms; animation: b 1.5s"
  = sample_plan (fun xs => rev (first_seen xs))
    "animation: a 1s linear 250ms; animation: b 1.5s".
Proof.
  split; [exact first_seen_order|]. split; [exact rev_first_seen_order|].
  apply (sample_plan_deterministic first_seen (fun xs => rev (first_seen xs)) _
           first_seen_order rev_first_seen_order).
Defined.

(** ** What the patterns capture *)

Section Captures.

Local Open Scope string_scope.

Lemma append_assoc (a b c : string) : (a ++ b) ++ c = a ++ (b ++ c).
Proof. induction a as [|x a IH]; simpl; [reflexivity|now rewrite IH]. Qed.

Lemma append_nil_r (a : string) : a ++ "" = a.
Proof. induction a as [|x a IH]; simpl; [reflexivity|now rewrite IH]. Qed.

Lemma length_append (a b : string) :
  String.length (a ++ b) = (String.length a + String.length b)%nat.
Proof. induction a as [|x a IH]; simpl; [reflexivity|now rewrite IH]. Qed.

Lemma substring_append (a b : string) :
  substring 0 (String.length a) (a ++ b) = a.
Proof.
  induction a as [|x a IH]; simpl.
  - destruct b; reflexivity.
  - now rewrite IH.
Qed.

Lemma consumed_append (a b : string) : consumed (a ++ b) b = a.
Proof.
  unfold consumed. rewrite length_append.
  replace (String.length a + String.length b - String.length b)%nat
    with (String.length a) by lia.
  apply substring_append.
Qed.

Lemma strip_prefix_sound (l s s' : string) :
  strip_prefix l s = Some s' -> s = l ++ s'.
Proof.
  revert s. induction l as [|a l IH]; intros s H; simpl in *.
  - now injection H as ->.
  - destruct s as [|c s]; [discriminate|].
    destruct (Ascii.eqb_spec a c) as [->|]; [|discriminate].
    now rewrite (IH s H).
Qed.

Lemma all_chars_digits (s : string) : all_chars is_digit s = all_digits s.
Proof. induction s as [|c s IH]; simpl; [reflexivity|now rewrite IH]. Qed.

Lemma all_digits_append (a b : string) :
  all_digits a = true -> all_digits b = true -> all_digits (a ++ b) = true.
Proof.
  induction a as [|c a IH]; simpl; intros Ha Hb; [exact Hb|].
  apply andb_prop in Ha. destruct Ha as [Hc Ha].
  now rewrite Hc, IH.
Qed.

Lemma digit_not_point (c : ascii) : is_digit c = true -> Ascii.eqb c "." = false.
Proof.
  intros H. destruct (Ascii.eqb_spec c ".") as [->|]; [discriminate|reflexivity].
Qed.

Lemma split_point_digits (a : string) :
  all_digits a = true -> split_point a = (a, None).
Proof.
  induction a as [|c a IH]; simpl; intros H; [reflexivity|].
  apply andb_prop in H. destruct H as [Hc Ha].
  now rewrite (digit_not_point c Hc), (IH Ha).
Qed.

Lemma split_point_point (a b : string) :
  all_digits a = true -> split_point (a ++ String "." b) = (a, Some b).
Proof.
  induction a as [|c a IH]; simpl; intros H; [reflexivity|].
  apply andb_prop in H. destruct H as [Hc Ha].
  now rewrite (digit_not_point c Hc), (IH Ha).
Qed.

Lemma is_numeral_digits (c : ascii) (a : string) :
  all_digits (String c a) = true -> is_numeral (String c a) = true.
Proof.
  intros H. unfold is_numeral. rewrite (split_point_digits _ H).
  cbn [all_digits] in H |- *. rewrite H. reflexivity.
Qed.

Lemma is_numeral_point (c : ascii) (a b : string) :
  all_digits (String c a) = true -> all_digits b = true ->
  is_numeral (String c a ++ String "." b) = true.
Proof.
  intros Ha Hb. unfold is_numeral.
  rewrite (split_point_point (String c a) b Ha), Hb.
  cbn [all_digits] in Ha |- *. rewrite Ha. reflexivity.
Qed.

(** A greedy repetition that succeeds has passed some characters of the
    class and handed the rest to what follows. *)
Lemma match_star_sound {R : Type} (p : ascii -> bool) (k : string -> option R)
    (r : R) (s : string) :
  match_star p s k = Some r ->
  exists ds rest, s = ds ++ rest /\ all_chars p ds = true /\ k rest = Some r.
Proof.
  induction s as [|c s IH]; simpl; intros H.
  - exists "", "". auto.
  - destruct (p c) eqn:Hc.
    + destruct (match_star p s k) as [r'|] eqn:E.
      * injection H as ->. destruct (IH eq_refl) as (ds & rest & -> & Hds & Hk).
        exists (String c ds), rest. simpl. rewrite Hc, Hds. auto.
      * exists "", (String c s). auto.
    + exists "", (String c s). auto.
Qed.

(** A match of [time_re] has passed a numeral and a unit, and these are
    the texts of its groups. *)
Lemma match_time_re_sound {R : Type} (s : string) (m0 : captures)
    (k : string -> captures -> option R) (r : R) :
  match_re time_re s m0 k = Some r ->
  exists n u rest,
    s = n ++ u ++ rest /\ is_numeral n = true /\ (u = "s" \/ u = "ms") /\
    k rest ((2%nat, u) :: (1%nat, n) :: m0) = Some r.
Proof.
  unfold time_re. cbn [match_re]. intros H.
  destruct s as [|c s0]; [discriminate|].
  destruct (is_digit c) eqn:Hc; [|discriminate].
  apply match_star_sound in H. destruct H as (ds & rest1 & -> & Hds & H).
  rewrite all_chars_digits in Hds.
  assert (Hcds : all_digits (String c ds) = true) by (simpl; now rewrite Hc, Hds).
  set (K := fun (n : string) (rest3 : string) =>
              match
                match strip_prefix "s" rest3 with
                | Some s' => k s' ((2%nat, consumed rest3 s') :: (1%nat, n) :: m0)
                | None => None
                end
              with
              | Some x => Some x
              | None =>
                  match strip_prefix "ms" rest3 with
                  | Some s' => k s' ((2%nat, consumed rest3 s') :: (1%nat, n) :: m0)
                  | None => None
                  end
              end).
  assert (Hn : exists n rest3,
             String c (ds ++ rest1) = n ++ rest3 /\ is_numeral n = true /\
             K n rest3 = Some r).
  { assert (Hplain : match_star is_digit rest1
                       (fun s3 => K (consumed (String c (ds ++ rest1)) s3) s3)
                     = Some r ->
                     exists n rest3,
                       String c (ds ++ rest1) = n ++ rest3 /\ is_numeral n = true /\
                       K n rest3 = Some r).
    { intros H'. apply match_star_sound in H'.
      destruct H' as (fs & rest3 & -> & Hfs & H').
      rewrite all_chars_digits in Hfs.
      exists (String c (ds ++ fs)), rest3.
      assert (E : String c (ds ++ fs ++ rest3) = String c (ds ++ fs) ++ rest3)
        by (simpl; now rewrite append_assoc).
      rewrite E in *. rewrite consumed_append in H'.
      split; [reflexivity|]. split; [|exact H'].
      apply is_numeral_digits. simpl. rewrite Hc. simpl.
      now apply all_digits_append. }
    destruct rest1 as [|c' s']; [exact (Hplain H)|].
    unfold is_char in H. destruct (Ascii.eqb_spec c' ".") as [->|Hne];
      [|exact (Hplain H)].
    destruct (match_star is_digit s' _) as [r'|] eqn:E; [|exact (Hplain H)].
    injection H as ->. apply match_star_sound in E.
    destruct E as (fs & rest3 & -> & Hfs & H').
    rewrite all_chars_digits in Hfs.
    exists (String c ds ++ String "." fs), rest3.
    assert (E : String c (ds ++ String "." (fs ++ rest3))
                = (String c ds ++ String "." fs) ++ rest3).
    { simpl. f_equal. rewrite append_assoc. reflexivity. }
    rewrite E in *. rewrite consumed_append in H'.
    split; [reflexivity|]. split; [|exact H'].
    now apply is_numeral_point. }
  destruct Hn as (n & rest3 & E & Hnum & HK).
  exists n. unfold K in HK.
  destruct (strip_prefix "s" rest3) as [s1|] eqn:E1.
  - apply strip_prefix_sound in E1. subst rest3.
    rewrite (consumed_append "s" s1) in HK.
    destruct (k s1 _) as [x|] eqn:Ek.
    + injection HK as ->. exists "s", s1. rewrite E. auto.
    + simpl in HK. discriminate.
  - destruct (strip_prefix "ms" rest3) as [s2|] eqn:E2; [|discriminate].
    apply strip_prefix_sound in E2. subst rest3.
    rewrite (consumed_append "ms" s2) in HK.
    exists "ms", s2. rewrite E. auto.
Qed.

(** Every match that [finditer] returns is a match at some place. *)
Lemma finditer_from_sound (r : regex) (m : captures) (s : string) :
  forall skip, In m (finditer_from r s skip) ->
               exists s' rest, match_at r s' = Some (rest, m).
Proof.
  induction s as [|c s IH]; intros skip H.
  - destruct skip; simpl in H; [|contradiction].
    destruct (match_at r "") as [[rest m']|] eqn:E; [|contradiction].
    destruct H as [<-|[]]. now exists "", rest.
  - destruct skip; simpl in H; [|now apply (IH skip)].
    destruct (match_at r (String c s)) as [[rest m']|] eqn:E.
    + destruct H as [<-|H]; [now exists (String c s), rest|].
      now apply (IH _ H).
    + now apply (IH _ H).
Qed.

Lemma time_values_sound (s : string) (t : string * string) :
  In t (time_values s) -> time_value t.
Proof.
  unfold time_values, findall, finditer. rewrite in_map_iff.
  intros (m & <- & Hm). apply finditer_from_sound in Hm.
  destruct Hm as (s' & rest & Hm). unfold match_at in Hm.
  apply match_time_re_sound in Hm.
  destruct Hm as (n & u & rest' & _ & Hn & Hu & Hk).
  injection Hk as _ <-. split; [exact Hn|exact Hu].
Qed.

Lemma duration_re_sound (s : string) (m : captures) :
  In m (finditer duration_re s) -> time_value (time_value_of m).
Proof.
  unfold finditer. intros Hm. apply finditer_from_sound in Hm.
  destruct Hm as (s' & rest & Hm). unfold match_at, duration_re in Hm.
  cbn [match_re] in Hm.
  destruct (strip_prefix "animation-duration" s') as [s1|]; [|discriminate].
  apply match_star_sound in Hm. destruct Hm as (_ & s2 & _ & _ & Hm).
  destruct (strip_prefix ":" s2) as [s3|]; [|discriminate].
  apply match_star_sound in Hm. destruct Hm as (_ & s4 & _ & _ & Hm).
  apply match_time_re_sound in Hm.
  destruct Hm as (n & u & rest' & _ & Hn & Hu & Hk).
  injection Hk as _ <-. split; [exact Hn|exact Hu].
Qed.

Lemma smil_re_sound (s : string) (m : captures) :
  In m (finditer smil_re s) -> time_value (time_value_of m).
Proof.
  unfold finditer. intros Hm. apply finditer_from_sound in Hm.
  destruct Hm as (s' & rest & Hm). unfold match_at, smil_re in Hm.
  cbn [match_re] in Hm.
  destruct (strip_prefix "<animate" s') as [s1|]; [|discriminate].
  apply match_star_sound in Hm. destruct Hm as (_ & s2 & _ & _ & Hm).
  destruct (strip_prefix ("dur=" ++ dquote) s2) as [s3|]; [|discriminate].
  apply match_time_re_sound in Hm.
  destruct Hm as (n & u & rest' & _ & Hn & Hu & Hk).
  destruct (strip_prefix dquote rest') as [s4|]; [|discriminate].
  injection Hk as _ <-. split; [exact Hn|exact Hu].
Qed.

End Captures.

(** ** The parser *)

Section ParserValues.

Local Open Scope Q_scope.

Lemma round64_nonneg (x : Q) : 0 <= x -> binary64_nonneg (round64 x).
Proof.
  intros Hx. destruct (Qlt_le_dec 0 x) as [Hpos|Hle].
  - rewrite (round64_pos x Hpos).
    destruct (round_pos x) as [y|] eqn:E; simpl; [|reflexivity].
    split; [now apply round_pos_canonical in E|].
    now apply (round_pos_output x).
  - assert (E : x == 0) by lra. apply Qeq_alt in E.
    unfold round64. rewrite E. simpl. split; [reflexivity|].
    exists 0%Z, 0%Z. split; [split; [lia|reflexivity]|].
    split; [lia|reflexivity].
Qed.

Lemma digits_value_nonneg (s : string) :
  forall acc, (0 <= acc)%Z -> all_digits s = true -> (0 <= digits_value acc s)%Z.
Proof.
  induction s as [|c s IH]; intros acc Hacc Hd; [exact Hacc|].
  cbn [all_digits] in Hd. apply andb_prop in Hd. destruct Hd as [Hc Hs].
  cbn [digits_value]. apply IH; [|exact Hs].
  unfold digit_value. unfold is_digit in Hc.
  apply andb_prop in Hc. destruct Hc as [H1 H2].
  apply Nat.leb_le in H1. lia.
Qed.

Lemma float_of_str_nonneg (s : string) (x : pyfloat) :
  float_of_str s = Ok x -> binary64_nonneg x.
Proof.
  unfold float_of_str. destruct (split_point s) as [ip rest].
  set (fp := match rest with Some f => f | None => EmptyString end).
  destruct (all_digits ip) eqn:Hi; simpl; [|discriminate].
  destruct (all_digits fp) eqn:Hf; simpl; [|discriminate].
  destruct (negb _); [|discriminate].
  intros E. injection E as <-. apply round64_nonneg.
  apply Qle_shift_div_l.
  - apply inject_Z_pos. apply Z.pow_pos_nonneg; lia.
  - rewrite Qmult_0_l. change 0 with (inject_Z 0). rewrite <- Zle_Qle.
    apply digits_value_nonneg; [lia|]. now apply all_digits_append.
Qed.

(** Multiplying by the integer 1 changes nothing. *)
Lemma float_mul_one (x : pyfloat) :
  binary64_nonneg x -> float_mul_int x 1 = Ok x.
Proof.
  intros Hx. unfold float_mul_int.
  change (float_of_int 1) with (Ok (Finite 1)). simpl bind.
  destruct x as [y|s|]; simpl in Hx.
  - destruct Hx as (Hc & m & e & Hm & He & Hy). unfold float_mul.
    f_equal. apply (round64_fixed (y * 1) y m e); auto. ring.
  - subst s. reflexivity.
  - contradiction.
Qed.

Lemma to_ms_milliseconds (t : string * string) : to_ms t = milliseconds t.
Proof.
  destruct t as [num unit]. unfold to_ms, milliseconds.
  destruct (float_of_str num) as [x|e] eqn:E; cbn [bind]; [|reflexivity].
  destruct (String.eqb unit "s"); [reflexivity|].
  rewrite float_mul_one by (now apply (float_of_str_nonneg num)).
  reflexivity.
Qed.

(** [int] drops the fraction: it never rounds up a non-negative value and
    never rounds down a non-positive one. *)
Lemma int_of_float_truncates (q : Q) (k : Z) :
  int_of_float (Finite q) = Ok k ->
  (0 <= q -> inject_Z k <= q /\ q < inject_Z (k + 1)) /\
  (q <= 0 -> inject_Z (k - 1) < q /\ q <= inject_Z k).
Proof.
  unfold int_of_float. intros E. injection E as <-.
  destruct (Qle_bool 0 q) eqn:H.
  - apply Qle_bool_iff in H. split.
    + intros _. split; [apply Qfloor_le|apply Qlt_floor].
    + intros Hq. pose proof (Qfloor_le q) as Hf.
      pose proof (Qfloor_resp_le 0 q H) as H0. rewrite Zle_Qle in H0.
      change (inject_Z (Qfloor 0)) with 0 in H0.
      split; [|lra].
      apply Qlt_le_trans with (inject_Z (Qfloor q)); [|exact Hf].
      rewrite <- Zlt_Qlt. lia.
  - assert (Hneg : q < 0).
    { apply Qnot_le_lt. intros Hq. apply Qle_bool_iff in Hq. congruence. }
    split; [lra|]. intros _. split; [apply Qceiling_lt|apply Qle_ceiling].
Qed.

End ParserValues.










(** The conversions raise nothing but [OverflowError]. *)
Section Overflow.

Local Open Scope Q_scope.

Lemma float_of_str_numeral (n : string) :
  is_numeral n = true ->
  exists x, float_of_str n = Ok x /\ binary64_nonneg x.
Proof.
  intros H. unfold is_numeral in H.
  destruct (float_of_str n) as [x|e] eqn:E.
  - exists x. split; [reflexivity|]. now apply (float_of_str_nonneg n).
  - unfold float_of_str in E. destruct (split_point n) as [ip rest].
    rewrite H in E. discriminate.
Qed.

Lemma binary64_nonneg_ge (y : Q) : binary64_nonneg (Finite y) -> 0 <= y.
Proof.
  intros (_ & m & e & Hm & _ & Hy). rewrite Hy.
  apply Qmult_le_0_compat.
  - change 0 with (inject_Z 0). rewrite <- Zle_Qle. lia.
  - apply Qlt_le_weak, pow2_pos.
Qed.

Lemma float_mul_int_nonneg (x : pyfloat) (k : Z) :
  (1 <= k < 2 ^ 53)%Z -> binary64_nonneg x ->
  exists y, float_mul_int x k = Ok y /\ binary64_nonneg y.
Proof.
  intros Hk Hx. unfold float_mul_int.
  rewrite float_of_int_exact by lia. simpl bind.
  assert (Hkq : 0 < inject_Z k) by (apply inject_Z_pos; lia).
  destruct x as [y|s|]; simpl in Hx.
  - exists (round64 (y * inject_Z k)). split; [reflexivity|].
    apply round64_nonneg. apply Qmult_le_0_compat; [|lra].
    now apply binary64_nonneg_ge.
  - subst s. exists (Inf false). split; [|reflexivity].
    unfold float_mul. apply Qgt_alt in Hkq. now rewrite Hkq.
  - contradiction.
Qed.

Lemma int_of_float_overflow (y : pyfloat) (e : exn) :
  binary64_nonneg y -> int_of_float y = Raise e -> e = OverflowError.
Proof.
  destruct y as [q|s|]; simpl; intros Hy H.
  - discriminate.
  - now injection H as <-.
  - contradiction.
Qed.

Lemma to_ms_overflow (t : string * string) (e : exn) :
  time_value t -> to_ms t = Raise e -> e = OverflowError.
Proof.
  destruct t as [n u]. intros [Hn Hu]. simpl in Hn, Hu. unfold to_ms.
  destruct (float_of_str_numeral n Hn) as (x & -> & Hx). simpl bind.
  set (k := if String.eqb u "s" then 1000%Z else 1%Z).
  assert (Hk : (1 <= k < 2 ^ 53)%Z) by (unfold k; destruct (String.eqb u "s"); lia).
  destruct (float_mul_int_nonneg x k Hk Hx) as (y & -> & Hy). simpl bind.
  now apply int_of_float_overflow.
Qed.

End Overflow.

Lemma for_each_overflow {A S : Type} (xs : list A) (body : S -> A -> result S) :
  (forall st x e, In x xs -> body st x = Raise e -> e = OverflowError) ->
  forall st e, for_each xs body st = Raise e -> e = OverflowError.
Proof.
  induction xs as [|x xs IH]; intros Hbody st e H; simpl in H; [discriminate|].
  destruct (body st x) as [st'|e'] eqn:E; simpl in H.
  - apply (IH (fun st0 x0 e0 Hin => Hbody st0 x0 e0 (or_intror Hin)) st' e H).
  - injection H as <-. apply (Hbody st x e' (or_introl eq_refl) E).
Qed.

Lemma shorthand_step_overflow (st : list Z * list Z) (m : captures) (e : exn) :
  shorthand_step st m = Raise e -> e = OverflowError.
Proof.
  destruct st as [D L]. unfold shorthand_step.
  pose proof (time_values_sound (group m 1)) as Hs. unfold time_values in Hs.
  destruct (findall time_re (group m 1)) as [|t0 [|t1 rest]]; simpl.
  - discriminate.
  - destruct (to_ms t0) as [d|e0] eqn:E0; simpl; [discriminate|].
    intros H. injection H as <-. apply (to_ms_overflow t0); [|exact E0].
    apply Hs. now left.
  - destruct (to_ms t0) as [d|e0] eqn:E0; simpl.
    + destruct (to_ms t1) as [dl|e1] eqn:E1; simpl; [discriminate|].
      intros H. injection H as <-. apply (to_ms_overflow t1); [|exact E1].
      apply Hs. right. now left.
    + intros H. injection H as <-. apply (to_ms_overflow t0); [|exact E0].
      apply Hs. now left.
Qed.

Lemma duration_step_overflow (st : list Z * list Z) (m : captures) (e : exn) :
  time_value (time_value_of m) -> duration_step st m = Raise e -> e = OverflowError.
Proof.
  destruct st as [D L]. unfold duration_step, time_value_of. intros Hm.
  destruct (to_ms (group m 1, group m 2)) as [d|e0] eqn:E0; simpl; [discriminate|].
  intros H. injection H as <-. now apply (to_ms_overflow _ e0 Hm).
Qed.

Lemma parse_animation_properties_overflow (svg_content : string) (e : exn) :
  parse_animation_properties svg_content = Raise e -> e = OverflowError.
Proof.
  unfold parse_animation_properties.
  destruct (for_each (finditer shorthand_re svg_content) shorthand_step ([], []))
    as [st1|e1] eqn:E1; simpl.
  - destruct (for_each (finditer duration_re svg_content) duration_step st1)
      as [st2|e2] eqn:E2; simpl.
    + destruct (for_each (finditer smil_re svg_content) duration_step st2)
        as [st3|e3] eqn:E3; simpl; [discriminate|].
      intros H. injection H as <-. revert E3. apply for_each_overflow.
      intros st x e0 Hx. apply duration_step_overflow. now apply (smil_re_sound svg_content).
    + intros H. injection H as <-. revert E2. apply for_each_overflow.
      intros st x e0 Hx. apply duration_step_overflow.
      now apply (duration_re_sound svg_content).
  - intros H. injection H as <-. revert E1. apply for_each_overflow.
    intros st x e0 _. apply shorthand_step_overflow.
Qed.

(** Numerals of at most 300 characters convert. *)
Section ShortNumerals.

Local Open Scope Q_scope.

Lemma digits_value_bound (s : string) :
  forall acc, (0 <= acc)%Z -> all_digits s = true ->
  (digits_value acc s < (acc + 1) * 10 ^ Z.of_nat (String.length s))%Z.
Proof.
  induction s as [|c s IH]; intros acc Hacc Hd.
  - simpl. lia.
  - cbn [all_digits] in Hd. apply andb_prop in Hd. destruct Hd as [Hc Hs].
    cbn [digits_value String.length].
    assert (Hv : (0 <= digit_value c <= 9)%Z).
    { unfold digit_value. unfold is_digit in Hc. apply andb_prop in Hc.
      destruct Hc as [H1 H2]. apply Nat.leb_le in H1, H2. lia. }
    specialize (IH (10 * acc + digit_value c)%Z ltac:(lia) Hs).
    rewrite Nat2Z.inj_succ, Z.pow_succ_r by lia.
    assert (0 < 10 ^ Z.of_nat (String.length s))%Z
      by (apply Z.pow_pos_nonneg; lia).
    nia.
Qed.


Lemma binary64_nonneg_le (x : Q) (m e : Z) :
  0 <= x -> (0 <= m < 2 ^ 53)%Z -> (-1074 <= e <= 971)%Z ->
  x <= inject_Z m * pow2 e ->
  exists y, round64 x = Finite y /\ 0 <= y /\ y <= inject_Z m * pow2 e.
Proof.
  intros Hx Hm He Hle. destruct (Qlt_le_dec 0 x) as [Hpos|H0].
  - destruct (round64_between x 0 0 m e Hpos) as (y & Ey & H1 & H2);
      try lia; try assumption;
      try (change (inject_Z 0 * pow2 0) with 0; lra).
    exists y. change (inject_Z 0 * pow2 0) with 0 in H1. auto.
  - assert (E : x == 0) by lra. apply Qeq_alt in E.
    unfold round64. rewrite E. exists 0. split; [reflexivity|].
    split; [lra|]. apply Qmult_le_0_compat.
    + change 0 with (inject_Z 0). rewrite <- Zle_Qle. lia.
    + apply Qlt_le_weak, pow2_pos.
Qed.


End ShortNumerals.








Example parse_animation_properties_example :
  parse_animation_properties
    ("<svg><style>.a{animation: spin 1.5s linear 250ms infinite}
     .b { animation : pulse 2s ease-in-out; animation-duration: 800ms }
     </style><circle><animate attributeName=r dur=" ++ dquote ++ "0.5s"
     ++ dquote ++ "/></circle></svg>")
  = Ok ([1500; 2000; 800; 500], [250]).
Proof. vm_compute. reflexivity. Qed.

(** A duration of zero counts as one millisecond in the cycle. *)
Lemma compute_cycle_ms_zero (list_of_set : list Z -> list Z) :
  set_order list_of_set -> compute_cycle_ms list_of_set [0] = Ok 1.
Proof.
  intros Hord.
  destruct (compute_cycle_ms_lcm list_of_set Hord 0 []) as (L & (HL & _ & Hleast) & ->).
  assert (L <= 1).
  { apply Hleast; [lia|]. intros x [<-|[]]. apply Z.divide_refl. }
  f_equal. lia.
Qed.

(** C10: the conversion of a time-value drops the fraction of a
    millisecond: the stored integer is [int(v * 1000)] for seconds and
    [int(v)] for milliseconds, where [int] never rounds a non-negative
    value up; 1.5ms is stored as 1 and 0.0004s as 0, which the cycle
    computation then counts as 1. *)
Theorem to_ms_truncates (list_of_set : list Z -> list Z)
    (num unit : string) (v : pyfloat) :
  set_order list_of_set ->
  float_of_str num = Ok v ->
  to_ms (num, unit) =
    (if String.eqb unit "s"
     then y <- float_mul_int v 1000 ;; int_of_float y
     else int_of_float v) /\
  (forall q k, int_of_float (Finite q) = Ok k -> (0 <= q)%Q ->
               (inject_Z k <= q)%Q /\ (q < inject_Z (k + 1))%Q) /\
  parse_animation_properties "animation-duration: 1.5ms" = Ok ([1], []) /\
  parse_animation_properties "animation: blink 0.0004s" = Ok ([0], []) /\
  compute_cycle_ms list_of_set [0] = Ok 1.
Proof.
  intros Hord Hv. split.
  - rewrite to_ms_milliseconds. unfold milliseconds. now rewrite Hv.
  - split.
    + intros q k Hk Hq. now apply (int_of_float_truncates q k Hk).
    + split; [vm_compute; reflexivity|]. split; [vm_compute; reflexivity|].
      now apply compute_cycle_ms_zero.
Qed.

Lemma to_ms_truncates_witness :
  set_order first_seen /\
  float_of_str "1.5" = Ok (Finite (3 # 2)) /\
  to_ms ("1.5", "ms")%string = Ok 1 /\ to_ms ("1.5", "s")%string = Ok 1500 /\
  to_ms ("0.0004", "s")%string = Ok 0 /\ to_ms ("1.999", "ms")%string = Ok 1.
Proof.
  split; [exact first_seen_order|]. split; [vm_compute; reflexivity|].
  split.
  - rewrite (proj1 (to_ms_truncates first_seen "1.5" "ms" (Finite (3 # 2))
                      first_seen_order eq_refl)).
    reflexivity.
  - split; [|split]; vm_compute; reflexivity.
Defined.

(** ** Output names *)

Section Names.

Local Open Scope string_scope.

Lemma rfind_append (c : ascii) (a b : string) (i : nat) :
  rfind c b = Some i -> rfind c (a ++ b) = Some (String.length a + i)%nat.
Proof.
  intros H. induction a as [|x a IH]; simpl; [exact H|now rewrite IH].
Qed.

Lemma strip_prefix_append (old x y : string) :
  (String.length old <= String.length x)%nat ->
  strip_prefix old (x ++ y) =
  match strip_prefix old x with
  | Some r => Some (r ++ y)
  | None => None
  end.
Proof.
  revert x. induction old as [|a old IH]; intros x Hlen; simpl.
  - reflexivity.
  - destruct x as [|c x]; simpl in *; [lia|].
    destruct (Ascii.eqb a c); [|reflexivity]. apply IH. lia.
Qed.

(** The stem of a name that ends in [-animated.svg]. *)
Lemma stem_animated_svg (base : string) :
  stem (base ++ "-animated.svg") = base ++ "-animated".
Proof.
  unfold stem.
  rewrite (rfind_append "." base "-animated.svg" 9 eq_refl).
  rewrite length_append. simpl String.length.
  replace (0 <? String.length base + 9)%nat with true
    by (symmetry; apply Nat.ltb_lt; lia).
  replace (String.length base + 9 <? String.length base + 13 - 1)%nat with true
    by (symmetry; apply Nat.ltb_lt; lia).
  simpl andb.
  change "-animated.svg" with ("-animated" ++ ".svg").
  rewrite <- append_assoc.
  replace (String.length base + 9)%nat with (String.length (base ++ "-animated"))
    by (rewrite length_append; reflexivity).
  apply substring_append.
Qed.

(** When the marker occurs only at the end of the stem, [replace] removes
    exactly this suffix. *)
Lemma replace_marker_suffix (base : string) :
  occurs_in "-animated" (base ++ "-animate") = false ->
  replace "-animated" "" (base ++ "-animated") = base.
Proof.
  unfold replace. induction base as [|c base IH]; intros H.
  - reflexivity.
  - cbn [append occurs_in] in H.
    destruct (strip_prefix "-animated" (String c (base ++ "-animate"))) eqn:E;
      [discriminate|].
    cbn [append replace_from].
    assert (E' : strip_prefix "-animated" (String c (base ++ "-animated")) = None).
    { change "-animated" with ("-animate" ++ "d") at 2.
      rewrite <- append_assoc.
      change (String c ((base ++ "-animate") ++ "d"))
        with (String c (base ++ "-animate") ++ "d").
      rewrite strip_prefix_append, E; [reflexivity|].
      simpl String.length. rewrite length_append. simpl. lia. }
    rewrite E'. f_equal. now apply IH.
Qed.

End Names.

(** C8, as amended: the output name is the stem of the input name with
    the occurrences of [-animated] removed by [replace], followed by
    [.webp]; when the marker occurs in the stem only as its suffix, this
    is the stem without the suffix, the rest unchanged. *)
Theorem output_name_suffix_only (base : string) :
  occurs_in "-animated" (base ++ "-animate") = false ->
  stem (base ++ "-animated.svg") = (base ++ "-animated")%string /\
  output_name (base ++ "-animated.svg") = (base ++ ".webp")%string /\
  forall svg_name,
    output_name svg_name = (replace "-animated" "" (stem svg_name) ++ ".webp")%string.
Proof.
  intros H. split; [apply stem_animated_svg|]. split; [|reflexivity].
  unfold output_name, icon_name.
  now rewrite stem_animated_svg, replace_marker_suffix.
Qed.

Lemma output_name_suffix_only_witness :
  occurs_in "-animated" ("fire" ++ "-animate") = false /\
  output_name "fire-animated.svg" = "fire.webp"%string.
Proof.
  split; [reflexivity|].
  exact (proj1 (proj2 (output_name_suffix_only "fire" eq_refl))).
Defined.

(** A marker inside the base name is removed as well. *)
Lemma output_name_counterexample :
  output_name ("a-animated-b" ++ "-animated.svg") = "a-b.webp"%string /\
  output_name ("a-animated-b" ++ "-animated.svg") <> ("a-animated-b" ++ ".webp")%string.
Proof. split; [reflexivity|discriminate]. Qed.

(** ** Rendering and the batch *)

Section Batch.

Variables E frame : Type.
Variable list_of_set : list Z -> list Z.
Variable caps : capabilities E frame.

Let render := render_svg_to_webp list_of_set caps.
Let convert := convert_one list_of_set caps.

Lemma writes_nothing_ret {A : Type} (a : A) : writes_nothing (@ret E A a).
Proof. intros w r w' H. now injection H as <- <-. Qed.

Lemma writes_nothing_lift {A : Type} (r : result A) : writes_nothing (@lift E A r).
Proof. intros w r' w' H. unfold lift in H. destruct r; now injection H as <- <-. Qed.

Lemma writes_nothing_call {A : Type} (f : E -> outcome A * E) :
  writes_nothing (call f).
Proof.
  intros w r w' H. unfold call in H. destruct (f (ext w)) as [r0 e0].
  now injection H as <- <-.
Qed.

Lemma writes_nothing_print (l : line) : writes_nothing (@print E l).
Proof. intros w r w' H. now injection H as <- <-. Qed.

Lemma writes_nothing_bind {A B : Type} (c : io E A) (k : A -> io E B) :
  writes_nothing c -> (forall a, writes_nothing (k a)) ->
  writes_nothing (io_bind c k).
Proof.
  intros Hc Hk w r w' H. unfold io_bind in H.
  destruct (c w) as [[a|e|] w1] eqn:Ec.
  - rewrite (Hk a w1 r w' H). now apply (Hc w (Returned a)).
  - injection H as <- <-. now apply (Hc w (Raised e)).
  - injection H as <- <-. now apply (Hc w Interrupted).
Qed.

Lemma only_appends_ret {A : Type} (a : A) : only_appends (@ret E A a).
Proof.
  intros w r w' H. injection H as <- <-.
  split; exists []; now rewrite app_nil_r.
Qed.

Lemma only_appends_lift {A : Type} (r : result A) : only_appends (@lift E A r).
Proof.
  intros w r' w' H. unfold lift in H.
  destruct r; injection H as <- <-; split; exists []; now rewrite app_nil_r.
Qed.

Lemma only_appends_call {A : Type} (f : E -> outcome A * E) :
  only_appends (call f).
Proof.
  intros w r w' H. unfold call in H. destruct (f (ext w)) as [r0 e0].
  injection H as <- <-. split; exists []; simpl; now rewrite app_nil_r.
Qed.

Lemma only_appends_print (l : line) : only_appends (@print E l).
Proof.
  intros w r w' H. injection H as <- <-. split.
  - now exists [l].
  - exists []. simpl. now rewrite app_nil_r.
Qed.

Lemma only_appends_record (path : string) : only_appends (@record_written E path).
Proof.
  intros w r w' H. injection H as <- <-. split.
  - exists []. simpl. now rewrite app_nil_r.
  - now exists [path].
Qed.

Lemma only_appends_bind {A B : Type} (c : io E A) (k : A -> io E B) :
  only_appends c -> (forall a, only_appends (k a)) ->
  only_appends (io_bind c k).
Proof.
  intros Hc Hk w r w' H. unfold io_bind in H.
  destruct (c w) as [[a|e|] w1] eqn:Ec.
  - destruct (Hc w _ w1 Ec) as [[l1 H1] [m1 M1]].
    destruct (Hk a w1 r w' H) as [[l2 H2] [m2 M2]]. split.
    + exists (l1 ++ l2)%list. now rewrite H2, H1, app_assoc.
    + exists (m1 ++ m2)%list. now rewrite M2, M1, app_assoc.
  - injection H as <- <-. now apply (Hc w (Raised e)).
  - injection H as <- <-. now apply (Hc w Interrupted).
Qed.

Lemma io_bind_returned {A B : Type} (c : io E A) (k : A -> io E B)
    (w w' : world E) (b : B) :
  io_bind c k w = (Returned b, w') ->
  exists a w1, c w = (Returned a, w1) /\ k a w1 = (Returned b, w').
Proof.
  unfold io_bind. destruct (c w) as [[a|e|] w1]; try discriminate.
  intros H. now exists a, w1.
Qed.

Lemma io_bind_cases {A B : Type} (c : io E A) (k : A -> io E B)
    (w w' : world E) (r : outcome B) :
  io_bind c k w = (r, w') ->
  (exists a w1, c w = (Returned a, w1) /\ k a w1 = (r, w')) \/
  ((forall b, r <> Returned b) /\ exists r0, c w = (r0, w')).
Proof.
  unfold io_bind. destruct (c w) as [[a|e|] w1] eqn:Ec; intros H.
  - left. now exists a, w1.
  - right. injection H as <- <-. split; [discriminate|now exists (Raised e)].
  - right. injection H as <- <-. split; [discriminate|now exists Interrupted].
Qed.

Lemma lift_cases {A : Type} (r : result A) (w w' : world E) (o : outcome A) :
  lift r w = (o, w') ->
  w' = w /\ match r with Ok a => o = Returned a | Raise e => o = Raised e end.
Proof. unfold lift. destruct r; intros H; now injection H as <- <-. Qed.

Lemma lift_returned {A : Type} (r : result A) (a : A) (w w' : world E) :
  lift r w = (Returned a, w') -> r = Ok a /\ w' = w.
Proof.
  unfold lift. destruct r; intros H; [now injection H as <- <-|discriminate].
Qed.

Lemma call_cases {A : Type} (f : E -> outcome A * E) (w w' : world E)
    (o : outcome A) :
  call f w = (o, w') ->
  f (ext w) = (o, ext w') /\ stdout w' = stdout w /\ written w' = written w.
Proof.
  unfold call. destruct (f (ext w)) as [r0 e0]. intros H.
  now injection H as <- <-.
Qed.

Lemma writes_nothing_capture_frames (start : Z) (indices : list Z) :
  forall frames, writes_nothing (capture_frames caps start indices frames).
Proof.
  induction indices as [|i rest IH]; intros frames; simpl.
  - apply writes_nothing_ret.
  - apply writes_nothing_bind; [apply writes_nothing_lift|]. intros t_ms.
    apply writes_nothing_bind; [apply writes_nothing_lift|]. intros t_sec.
    apply writes_nothing_bind; [apply writes_nothing_call|]. intros img.
    apply IH.
Qed.

Lemma only_appends_capture_frames (start : Z) (indices : list Z) :
  forall frames, only_appends (capture_frames caps start indices frames).
Proof.
  induction indices as [|i rest IH]; intros frames; simpl.
  - apply only_appends_ret.
  - apply only_appends_bind; [apply only_appends_lift|]. intros t_ms.
    apply only_appends_bind; [apply only_appends_lift|]. intros t_sec.
    apply only_appends_bind; [apply only_appends_call|]. intros img.
    apply IH.
Qed.

(** The loop over the frames returns one frame for each index. *)
Lemma capture_frames_length (start : Z) (indices : list Z) :
  forall frames w fs w',
    capture_frames caps start indices frames w = (Returned fs, w') ->
    List.length fs = (List.length frames + List.length indices)%nat.
Proof.
  induction indices as [|i rest IH]; intros frames w fs w' H; simpl in H.
  - injection H as <- <-. simpl. lia.
  - apply io_bind_returned in H. destruct H as (t_ms & w1 & _ & H).
    apply io_bind_returned in H. destruct H as (t_sec & w2 & _ & H).
    apply io_bind_returned in H. destruct H as (img & w3 & _ & H).
    apply IH in H. rewrite H, length_app. simpl. lia.
Qed.

Lemma range_length (n : Z) : List.length (range n) = Z.to_nat n.
Proof. unfold range. now rewrite length_map, length_seq. Qed.

Ltac appends_step :=
  apply only_appends_bind;
  [ first [ apply only_appends_call | apply only_appends_lift
          | apply only_appends_print | apply only_appends_record
          | apply only_appends_capture_frames ]
  | intros ? ].

Lemma only_appends_render (svg_path output_path : string) :
  only_appends (render svg_path output_path).
Proof.
  unfold render, render_svg_to_webp.
  do 5 appends_step.
  match goal with |- only_appends (match ?fs with _ => _ end) => destruct fs end;
    [apply only_appends_ret|].
  do 6 appends_step. apply only_appends_print.
Qed.

(** A conversion that returns, step by step: the document has been read,
    the plan computed and printed, the page loaded and the frames
    captured; with no frame the conversion has ended there, and with a
    frame the file has been saved, its size asked for and the line that
    reports it printed. *)
Lemma render_returned (svg_path output_path : string) (w w' : world E) :
  render_svg_to_webp list_of_set caps svg_path output_path w = (Returned tt, w') ->
  exists svg_content p e0 e1 frames w5,
    read_text caps svg_path (ext w) = (Returned svg_content, e0) /\
    sample_plan list_of_set svg_content = Ok p /\
    load_page caps (build_html svg_content SIZE) SIZE e0 = (Returned tt, e1) /\
    capture_frames caps (start_ms p) (range (num_frames p)) []
      {| ext := e1; stdout := (stdout w ++ [PlanLine p])%list; written := written w |}
    = (Returned frames, w5) /\
    match frames with
    | [] => w' = w5
    | _ :: _ =>
        exists e3 size size_kb,
          save caps output_path frames 50 (ext w5) = (Returned tt, e3) /\
          stat_size caps output_path e3 = (Returned size, ext w') /\
          int_truediv size 1024 = Ok size_kb /\
          stdout w'
          = (stdout w5 ++ [SavedLine output_path (List.length frames) size_kb])%list /\
          written w' = (written w5 ++ [output_path])%list
    end.
Proof.
  unfold render_svg_to_webp. intros H.
  apply io_bind_returned in H. destruct H as (svg_content & w1 & H1 & H).
  apply io_bind_returned in H. destruct H as (p & w2 & H2 & H).
  apply io_bind_returned in H. destruct H as ([] & w3 & H3 & H).
  apply io_bind_returned in H. destruct H as ([] & w4 & H4 & H).
  apply io_bind_returned in H. destruct H as (frames & w5 & H5 & H).
  apply call_cases in H1. destruct H1 as (R1 & S1 & W1).
  apply lift_returned in H2. destruct H2 as (R2 & ->).
  injection H3 as <-.
  apply call_cases in H4. cbn [ext stdout written] in H4.
  destruct H4 as (R4 & S4 & W4).
  exists svg_content, p, (ext w1), (ext w4), frames, w5.
  split; [exact R1|]. split; [exact R2|]. split; [exact R4|]. split.
  { rewrite <- H5. f_equal. destruct w4 as [x4 s4 m4]. cbn [ext stdout written] in *.
    now rewrite S4, W4, S1, W1. }
  destruct frames as [|f frames]; [now injection H as <-|].
  apply io_bind_returned in H. destruct H as (frame_ms & w6 & H6 & H).
  apply io_bind_returned in H. destruct H as (duration & w7 & H7 & H).
  apply io_bind_returned in H. destruct H as ([] & w8 & H8 & H).
  apply io_bind_returned in H. destruct H as ([] & w9 & H9 & H).
  apply io_bind_returned in H. destruct H as (size & w10 & H10 & H).
  apply io_bind_returned in H. destruct H as (size_kb & w11 & H11 & H).
  apply lift_returned in H6. destruct H6 as (R6 & ->).
  rewrite FRAME_MS_value in R6. injection R6 as <-.
  apply lift_returned in H7. destruct H7 as (R7 & ->).
  assert (Hd : duration = 50) by (vm_compute in R7; now injection R7 as <-).
  subst duration.
  apply call_cases in H8. destruct H8 as (R8 & S8 & W8).
  injection H9 as <-.
  apply call_cases in H10. cbn [ext stdout written] in H10.
  destruct H10 as (R10 & S10 & W10).
  apply lift_returned in H11. destruct H11 as (R11 & ->).
  injection H as <-.
  exists (ext w8), size, size_kb. cbn [ext stdout written].
  split; [exact R8|]. split; [exact R10|]. split; [exact R11|].
  now rewrite S10, W10, S8, W8.
Qed.

(** C7, as amended: a conversion that returns has saved the output file
    once when the plan has at least one frame: [save] has been called with
    the output path, one frame for each index of the plan and a frame
    duration of 50 ms, it has returned, and the conversion has ended in
    the state that the call for the size of this file left; it is the
    only file written.  When the cycle is shorter than a frame,
    [num_frames = 0], nothing has been saved: the conversion has ended in
    the state that the page load left. *)
Theorem render_saves_once_or_never (svg_path output_path : string) (w w' : world E) :
  render_svg_to_webp list_of_set caps svg_path output_path w = (Returned tt, w') ->
  exists svg_content p e0 e1,
    read_text caps svg_path (ext w) = (Returned svg_content, e0) /\
    sample_plan list_of_set svg_content = Ok p /\
    load_page caps (build_html svg_content SIZE) SIZE e0 = (Returned tt, e1) /\
    if 0 <? num_frames p then
      exists frames e2 e3 size,
        List.length frames = Z.to_nat (num_frames p) /\
        save caps output_path frames 50 e2 = (Returned tt, e3) /\
        stat_size caps output_path e3 = (Returned size, ext w') /\
        written w' = (written w ++ [output_path])%list
    else ext w' = e1 /\ written w' = written w.
Proof.
  intros H. apply render_returned in H.
  destruct H as (svg_content & p & e0 & e1 & frames & w5 & R1 & R2 & R4 & H5 & H).
  exists svg_content, p, e0, e1.
  split; [exact R1|]. split; [exact R2|]. split; [exact R4|].
  pose proof (capture_frames_length _ _ _ _ _ _ H5) as Hlen.
  rewrite range_length in Hlen. cbn [List.length Nat.add] in Hlen.
  pose proof (writes_nothing_capture_frames _ _ _ _ _ _ H5) as W5.
  cbn [written] in W5.
  destruct frames as [|f frames].
  - subst w'. cbn [List.length] in Hlen.
    replace (0 <? num_frames p) with false by (symmetry; apply Z.ltb_ge; lia).
    split; [|exact W5].
    assert (Hr : range (num_frames p) = []).
    { apply length_zero_iff_nil. now rewrite range_length. }
    rewrite Hr in H5. cbn [capture_frames] in H5. now injection H5 as <-.
  - cbn [List.length] in Hlen.
    replace (0 <? num_frames p) with true by (symmetry; apply Z.ltb_lt; lia).
    destruct H as (e3 & size & size_kb & R8 & R10 & _ & _ & W).
    exists (f :: frames), (ext w5), e3, size.
    split; [exact Hlen|]. split; [exact R8|]. split; [exact R10|].
    now rewrite W, W5.
Qed.

(** The body of the loop of [main] returns or is interrupted: it never
    raises. *)
Lemma convert_never_raises (svg_name : string) (w w' : world E) (e : exn) :
  convert svg_name w <> (Raised e, w').
Proof.
  unfold convert, convert_one, io_bind, try_except, print.
  fold render.
  destruct (render svg_name (output_name svg_name) _) as [[[]|e0|] w1];
    discriminate.
Qed.

Lemma for_each_never_raises (files : list string) :
  forall (w w' : world E) (e : exn),
    io_for_each files convert w <> (Raised e, w').
Proof.
  induction files as [|f files IH]; intros w w' e; simpl.
  - discriminate.
  - unfold io_bind. destruct (convert f w) as [[[]|e0|] w1] eqn:Ec.
    + apply IH.
    + exfalso. exact (convert_never_raises f w w1 e0 Ec).
    + discriminate.
Qed.

Lemma for_each_app (before after : list string) :
  forall (w w1 : world E),
    io_for_each before convert w = (Returned tt, w1) ->
    io_for_each (before ++ after) convert w = io_for_each after convert w1.
Proof.
  induction before as [|f before IH]; intros w w1 H; simpl in *.
  - now injection H as <-.
  - unfold io_bind in *. destruct (convert f w) as [[[]|e0|] w2];
      try discriminate. now apply IH.
Qed.

Lemma only_appends_convert (svg_name : string) : only_appends (convert svg_name).
Proof.
  unfold convert, convert_one. fold render.
  appends_step.
  apply only_appends_bind; [|intros _; apply only_appends_print].
  intros w r w' H. unfold try_except in H.
  destruct (render svg_name (output_name svg_name) w) as [[[]|e0|] w1] eqn:Er.
  - injection H as <- <-. exact (only_appends_render _ _ _ _ _ Er).
  - destruct (only_appends_render _ _ _ _ _ Er) as [[l Hl] [m Hm]].
    destruct (only_appends_print _ _ _ _ H) as [[l' Hl'] [m' Hm']]. split.
    + exists (l ++ l')%list. now rewrite Hl', Hl, app_assoc.
    + exists (m ++ m')%list. now rewrite Hm', Hm, app_assoc.
  - injection H as <- <-. exact (only_appends_render _ _ _ _ _ Er).
Qed.

Lemma only_appends_for_each (files : list string) :
  only_appends (io_for_each files convert).
Proof.
  induction files as [|f files IH]; simpl.
  - apply only_appends_ret.
  - apply only_appends_bind; [apply only_appends_convert|intros _; exact IH].
Qed.

(** C6: an exception raised by the conversion of a document is caught in
    the loop of [main]: the error line and the blank line are printed and
    the loop goes on with the documents that remain; when these convert or
    fail in the same way, [main] returns, with the error among the lines
    printed.  A document of the batch whose conversion returns with a
    plan of at least one frame has its output file saved, before or after
    the failure: the call of [save] under its output name has returned,
    and the file is among the files written when the loop ends.  No
    exception ever leaves the loop. *)
Theorem batch_survives_failure
    (before after before' after' : list string) (bad good svg_content : string)
    (p : plan) (w w1 w2 w3 wg wg' : world E) (e1 e2 e3 e4 e5 eg : E) (e : exn) :
  glob_animated caps (ext w) = (Returned (before ++ bad :: after)%list, e1) ->
  start caps e1 = (Returned tt, e2) ->
  launch caps e2 = (Returned tt, e3) ->
  io_for_each before (convert_one list_of_set caps)
    {| ext := e3;
       stdout := (stdout w ++ [FoundLine (List.length (before ++ bad :: after))])%list;
       written := written w |}
  = (Returned tt, w1) ->
  render_svg_to_webp list_of_set caps bad (output_name bad)
    (printed (ConvertingLine (icon_name bad) bad) w1) = (Raised e, w2) ->
  io_for_each after (convert_one list_of_set caps)
    (printed BlankLine (printed (ErrorLine e) w2)) = (Returned tt, w3) ->
  close caps (ext w3) = (Returned tt, e4) ->
  stop caps e4 = (Returned tt, e5) ->
  (before ++ bad :: after = before' ++ good :: after')%list ->
  io_for_each before' (convert_one list_of_set caps)
    {| ext := e3;
       stdout := (stdout w ++ [FoundLine (List.length (before ++ bad :: after))])%list;
       written := written w |}
  = (Returned tt, wg) ->
  render_svg_to_webp list_of_set caps good (output_name good)
    (printed (ConvertingLine (icon_name good) good) wg) = (Returned tt, wg') ->
  read_text caps good (ext wg) = (Returned svg_content, eg) ->
  sample_plan list_of_set svg_content = Ok p ->
  0 < num_frames p ->
  convert_one list_of_set caps bad w1
  = (Returned tt, printed BlankLine (printed (ErrorLine e) w2)) /\
  main list_of_set caps w
  = (Returned tt,
     printed DoneLine {| ext := e5; stdout := stdout w3; written := written w3 |}) /\
  (exists l, stdout w3 = (stdout w2 ++ ErrorLine e :: BlankLine :: l)%list) /\
  (exists frames s s' size,
     List.length frames = Z.to_nat (num_frames p) /\
     save caps (output_name good) frames 50 s = (Returned tt, s') /\
     stat_size caps (output_name good) s' = (Returned size, ext wg') /\
     In (output_name good) (written w3)) /\
  (exists l, written w3 = (written w1 ++ l)%list) /\
  (forall files w0 e0 w',
      io_for_each files (convert_one list_of_set caps) w0 <> (Raised e0, w')).
Proof.
  intros Hglob Hstart Hlaunch Hbefore Hbad Hafter Hclose Hstop
    Hfiles Hbefore' Hgood Hread Hplan Hframes.
  assert (Hc : convert bad w1
               = (Returned tt, printed BlankLine (printed (ErrorLine e) w2))).
  { unfold convert, convert_one, io_bind, try_except.
    change (print (ConvertingLine (icon_name bad) bad) w1)
      with (Returned tt, printed (ConvertingLine (icon_name bad) bad) w1).
    cbv beta iota. rewrite Hbad. reflexivity. }
  assert (Hg : convert good wg = (Returned tt, printed BlankLine wg')).
  { unfold convert, convert_one, io_bind, try_except.
    change (print (ConvertingLine (icon_name good) good) wg)
      with (Returned tt, printed (ConvertingLine (icon_name good) good) wg).
    cbv beta iota. rewrite Hgood. reflexivity. }
  fold convert in Hbefore, Hafter, Hbefore'.
  assert (Hloop : io_for_each (before ++ bad :: after) convert
                    {| ext := e3;
                       stdout := (stdout w ++ [FoundLine (List.length
                                                 (before ++ bad :: after))])%list;
                       written := written w |}
                  = (Returned tt, w3)).
  { rewrite (for_each_app before (bad :: after) _ w1 Hbefore).
    cbn [io_for_each]. unfold io_bind at 1. now rewrite Hc. }
  split; [exact Hc|]. split; [|split; [|split; [|split]]].
  - unfold main. unfold io_bind at 1. unfold call at 1. rewrite Hglob.
    unfold io_bind at 1. unfold print at 1. cbn [ext stdout written].
    unfold io_bind at 1. unfold async_with, browser_session.
    unfold call at 1. cbn [ext stdout written]. rewrite Hstart.
    unfold io_bind at 1. unfold call at 1. cbn [ext stdout written].
    rewrite Hlaunch. unfold io_bind at 1. fold convert. rewrite Hloop.
    unfold call. rewrite Hclose. cbn [ext stdout written]. rewrite Hstop.
    reflexivity.
  - destruct (only_appends_for_each after _ _ _ Hafter) as [[l Hl] _].
    exists l. rewrite Hl. simpl. now rewrite <- !app_assoc.
  - apply render_returned in Hgood.
    destruct Hgood as (svg_content' & p' & e0 & e1' & frames & w5
                       & R1 & R2 & _ & H5 & H).
    cbn [printed ext stdout written] in R1, H5.
    rewrite Hread in R1. injection R1 as <- <-.
    rewrite Hplan in R2. injection R2 as <-.
    pose proof (capture_frames_length _ _ _ _ _ _ H5) as Hlen.
    rewrite range_length in Hlen. cbn [List.length Nat.add] in Hlen.
    destruct frames as [|f frames]; [cbn [List.length] in Hlen; lia|].
    destruct H as (s' & size & size_kb & R8 & R10 & _ & _ & W).
    exists (f :: frames), (ext w5), s', size.
    split; [exact Hlen|]. split; [exact R8|]. split; [exact R10|].
    assert (Hloop' : io_for_each (before' ++ good :: after') convert
                       {| ext := e3;
                          stdout := (stdout w ++ [FoundLine (List.length
                                                    (before ++ bad :: after))])%list;
                          written := written w |}
                     = (Returned tt, w3)) by (rewrite <- Hfiles; exact Hloop).
    clear Hloop. rename Hloop' into Hloop.
    rewrite (for_each_app before' (good :: after') _ wg Hbefore') in Hloop.
    cbn [io_for_each] in Hloop. unfold io_bind at 1 in Hloop. rewrite Hg in Hloop.
    destruct (only_appends_for_each after' _ _ _ Hloop) as [_ [m Hm]].
    rewrite Hm. cbn [printed written]. rewrite W.
    apply in_or_app. left. apply in_or_app. right. now left.
  - destruct (only_appends_render _ _ _ _ _ Hbad) as [_ [m Hm]].
    destruct (only_appends_for_each after _ _ _ Hafter) as [_ [m' Hm']].
    exists (m ++ m')%list. rewrite Hm'. simpl. now rewrite Hm, app_assoc.
  - intros files w0 e0 w'. apply for_each_never_raises.
Qed.

End Batch.

Lemma render_saves_once_or_never_witness :
  let w' := snd (render_svg_to_webp first_seen scripted
                   "good-animated.svg" "good.webp" demo_world) in
  render_svg_to_webp first_seen scripted "good-animated.svg" "good.webp" demo_world
  = (Returned tt, w') /\
  file_text "good.webp" (ext w') = Some "WEBP"%string /\
  written w' = ["good.webp"%string] /\
  exists frames e2 e3 size,
    List.length frames = 20%nat /\
    save scripted "good.webp" frames 50 e2 = (Returned tt, e3) /\
    stat_size scripted "good.webp" e3 = (Returned size, ext w') /\
    written w' = (written demo_world ++ ["good.webp"%string])%list.
Proof.
  intros w'.
  assert (H : render_svg_to_webp first_seen scripted
                "good-animated.svg" "good.webp" demo_world
              = (Returned tt, w')) by (vm_compute; reflexivity).
  split; [exact H|]. split; [vm_compute; reflexivity|].
  split; [vm_compute; reflexivity|].
  destruct (render_saves_once_or_never _ _ first_seen scripted _ _ _ _ H)
    as (svg_content & p & e0 & e1 & Hr & Hp & _ & Hs).
  vm_compute in Hr. injection Hr as <- _.
  vm_compute in Hp. injection Hp as <-.
  exact Hs.
Defined.

(** A document whose cycle is 30 ms converts without an error and without
    an output file: the files are as they were. *)
Lemma render_writes_one_file_counterexample :
  let w' := snd (render_svg_to_webp first_seen scripted
                   "tiny-animated.svg" "tiny.webp" demo_world) in
  render_svg_to_webp first_seen scripted "tiny-animated.svg" "tiny.webp" demo_world
  = (Returned tt, w') /\
  ext w' = demo_files /\ file_text "tiny.webp" (ext w') = None /\
  written w' = [] /\
  written w' <> (written demo_world ++ ["tiny.webp"%string])%list.
Proof.
  intros w'. split; [vm_compute; reflexivity|]. split; [vm_compute; reflexivity|].
  split; [vm_compute; reflexivity|]. split; [vm_compute; reflexivity|].
  vm_compute. discriminate.
Qed.

Lemma batch_survives_failure_witness :
  let convert := convert_one first_seen scripted in
  let e := ExternalError "Page.set_content: malformed markup" in
  let w0 := {| ext := demo_files; stdout := [FoundLine 3]; written := [] |} in
  let w2 := snd (render_svg_to_webp first_seen scripted
                   "bad-animated.svg" (output_name "bad-animated.svg")
                   (printed (ConvertingLine (icon_name "bad-animated.svg")
                                            "bad-animated.svg") w0)) in
  let wg := printed BlankLine (printed (ErrorLine e) w2) in
  let wg' := snd (render_svg_to_webp first_seen scripted
                    "good-animated.svg" (output_name "good-animated.svg")
                    (printed (ConvertingLine (icon_name "good-animated.svg")
                                             "good-animated.svg") wg)) in
  let w3 := snd (io_for_each ["good-animated.svg"; "tiny-animated.svg"]%string
                   convert wg) in
  render_svg_to_webp first_seen scripted
    "bad-animated.svg" (output_name "bad-animated.svg")
    (printed (ConvertingLine (icon_name "bad-animated.svg") "bad-animated.svg") w0)
  = (Raised e, w2) /\
  main first_seen scripted demo_world = (Returned tt, printed DoneLine w3) /\
  file_text "good.webp" (ext w3) = Some "WEBP"%string /\
  file_text "bad.webp" (ext w3) = None /\
  written w3 = ["good.webp"%string] /\
  List.length (filter (fun l => match l with ErrorLine _ => true | _ => false end)
                      (stdout w3)) = 1%nat /\
  exists frames s s' size,
    List.length frames = 20%nat /\
    save scripted "good.webp" frames 50 s = (Returned tt, s') /\
    stat_size scripted "good.webp" s' = (Returned size, ext wg') /\
    In "good.webp"%string (written w3).
Proof.
  intros convert e w0 w2 wg wg' w3.
  assert (H2 : render_svg_to_webp first_seen scripted
                 "bad-animated.svg" (output_name "bad-animated.svg")
                 (printed (ConvertingLine (icon_name "bad-animated.svg")
                                          "bad-animated.svg") w0)
               = (Raised e, w2))
    by (vm_compute; reflexivity).
  assert (H3 : io_for_each ["good-animated.svg"; "tiny-animated.svg"]%string convert wg
               = (Returned tt, w3))
    by (vm_compute; reflexivity).
  assert (Hb : io_for_each ["bad-animated.svg"%string] convert w0 = (Returned tt, wg))
    by (vm_compute; reflexivity).
  assert (Hg : render_svg_to_webp first_seen scripted
                 "good-animated.svg" (output_name "good-animated.svg")
                 (printed (ConvertingLine (icon_name "good-animated.svg")
                                          "good-animated.svg") wg)
               = (Returned tt, wg'))
    by (vm_compute; reflexivity).
  pose proof (batch_survives_failure _ _ first_seen scripted
                [] ["good-animated.svg"; "tiny-animated.svg"]%string
                ["bad-animated.svg"%string] ["tiny-animated.svg"%string]
                "bad-animated.svg" "good-animated.svg"
                "<svg><style>.a{animation: spin 1s linear 250ms infinite}</style></svg>"
                {| cycle_ms := 1000; start_ms := 1000; num_frames := 20 |}
                demo_world w0 w2 w3 wg wg'
                demo_files demo_files demo_files (ext w3) (ext w3) demo_files e
                eq_refl eq_refl eq_refl eq_refl H2 H3 eq_refl eq_refl
                eq_refl Hb Hg eq_refl ltac:(vm_compute; reflexivity)
                ltac:(reflexivity)) as (_ & Hmain & _ & Hsave & _).
  split; [exact H2|]. split.
  - rewrite Hmain. vm_compute. reflexivity.
  - split; [vm_compute; reflexivity|]. split; [vm_compute; reflexivity|].
    split; [vm_compute; reflexivity|]. split; [vm_compute; reflexivity|].
    exact Hsave.
Defined.

(** * Further properties of the code *)

(** ** Euclid's algorithm on all integers *)

(** The loop of [gcd] leaves the mathematical greatest common divisor with
    the sign of the last divisor, which is the sign of [b]. *)
Lemma gcd_closed_form (a b : Z) :
  gcd a b = if b =? 0 then a else Z.sgn b * Z.gcd a b.
Proof.
  funelim (gcd a b).
  - subst. reflexivity.
  - destruct (Z.eqb_spec b 0) as [E|_]; [contradiction|].
    rewrite H. clear H Heqcall Heq.
    destruct (Z.eqb_spec (a mod b) 0) as [E0|E0].
    + assert (Hd : (b | a)) by (apply Z.mod_divide; assumption).
      rewrite Z.gcd_comm, <- Z.gcd_abs_l.
      rewrite (proj1 (Z.divide_gcd_iff (Z.abs b) a (Z.abs_nonneg b)))
        by (apply Z.divide_abs_l; exact Hd).
      rewrite Z.mul_comm. symmetry. apply Z.abs_sgn.
    + rewrite (Z.gcd_comm b), Z.gcd_mod, (Z.gcd_comm b a) by assumption.
      f_equal.
      pose proof (Z.mod_bound_or a b n).
      destruct (Z.sgn_spec b) as [[? ->]|[[? ->]|[? ->]]];
        destruct (Z.sgn_spec (a mod b)) as [[? ->]|[[? ->]|[? ->]]]; lia.
Qed.

Lemma Zgcd_pos (a b : Z) : b <> 0 -> 0 < Z.gcd a b.
Proof.
  intros Hb. pose proof (Z.gcd_nonneg a b).
  assert (Z.gcd a b <> 0) by (rewrite Z.gcd_eq_0; lia). lia.
Qed.

(** X1: on all integers, negative ones too, [gcd] returns the greatest
    common divisor up to its sign, and the sign is that of [b], or that of
    [a] when [b] is zero. *)
Theorem gcd_sign_and_size (a b : Z) :
  Z.abs (gcd a b) = Z.gcd a b /\
  Z.sgn (gcd a b) = Z.sgn (if b =? 0 then a else b).
Proof.
  rewrite gcd_closed_form. destruct (Z.eqb_spec b 0) as [->|Hb].
  - split; [now rewrite Z.gcd_0_r|reflexivity].
  - pose proof (Zgcd_pos a b Hb) as Hg.
    destruct (Z.sgn_spec b) as [[? ->]|[[? ->]|[? ->]]]; lia.
Qed.

(** X2: [lcm] raises [ZeroDivisionError] exactly when both arguments are
    zero; it returns 0 when one of them is zero, and otherwise the least
    common multiple with the sign of [b]. *)
Theorem lcm_zero_division (a b : Z) :
  lcm a b =
  if b =? 0 then (if a =? 0 then Raise ZeroDivisionError else Ok 0)
  else Ok (Z.sgn b * Z.lcm a b).
Proof.
  unfold lcm. rewrite gcd_closed_form.
  destruct (Z.eqb_spec b 0) as [->|Hb].
  - destruct (Z.eqb_spec a 0) as [->|Ha]; [reflexivity|].
    rewrite Z.mul_0_r. reflexivity.
  - pose proof (Zgcd_pos a b Hb) as Hg.
    assert (Hs : Z.sgn b * Z.gcd a b <> 0).
    { destruct (Z.sgn_spec b) as [[? ->]|[[? ->]|[? ->]]]; lia. }
    destruct (Z.eqb_spec (Z.sgn b * Z.gcd a b) 0) as [E|_]; [contradiction|].
    f_equal.
    assert (Hl : Z.abs (a * b) = Z.lcm a b * Z.gcd a b).
    { unfold Z.lcm. destruct (Z.gcd_divide_r a b) as [k Hk].
      rewrite Hk at 1 2. rewrite Z.div_mul by lia.
      rewrite Z.mul_assoc, (Z.abs_mul (a * k)). f_equal. lia. }
    rewrite Hl.
    destruct (Z.sgn_spec b) as [[? ->]|[[? ->]|[? ->]]]; try lia.
    + rewrite !Z.mul_1_l. apply Z.div_mul. lia.
    + replace (-1 * Z.gcd a b) with (- Z.gcd a b) by ring.
      replace (Z.lcm a b * Z.gcd a b) with (- Z.lcm a b * - Z.gcd a b) by ring.
      rewrite Z.div_mul by lia. ring.
Qed.

(** ** Invariants of the parser *)

Lemma for_each_invariant {A S : Type} (P : S -> Prop) (xs : list A)
    (body : S -> A -> result S) :
  (forall st x st', In x xs -> P st -> body st x = Ok st' -> P st') ->
  forall st st', P st -> for_each xs body st = Ok st' -> P st'.
Proof.
  induction xs as [|x xs IH]; intros Hbody st st' HP H; simpl in H.
  - now injection H as <-.
  - destruct (body st x) as [st1|e] eqn:E; simpl in H; [|discriminate].
    apply (IH (fun s y s' Hin => Hbody s y s' (or_intror Hin)) st1 st'); [|exact H].
    apply (Hbody st x st1 (or_introl eq_refl) HP E).
Qed.

(** The conversion of a time-value returns a value between 0 and the
    largest float. *)
Lemma to_ms_range (t : string * string) (d : Z) :
  time_value t -> to_ms t = Ok d -> 0 <= d <= max_float_int.
Proof.
  destruct t as [n u]. intros [Hn Hu] H. simpl in Hn, Hu. unfold to_ms in H.
  destruct (float_of_str_numeral n Hn) as (x & Ex & Hx). rewrite Ex in H.
  cbn [bind] in H.
  set (k := if String.eqb u "s" then 1000 else 1) in H.
  assert (Hk : 1 <= k < 2 ^ 53) by (unfold k; destruct (String.eqb u "s"); lia).
  destruct (float_mul_int_nonneg x k Hk Hx) as (y & Ey & Hy). rewrite Ey in H.
  cbn [bind] in H. destruct y as [q|s|]; simpl in H; try discriminate.
  pose proof (binary64_nonneg_ge q Hy) as Hq.
  destruct Hy as (_ & m & e & Hm & He & Hqe).
  apply Qle_bool_iff in Hq. rewrite Hq in H. injection H as <-.
  apply Qle_bool_iff in Hq. split.
  - change 0 with (Qfloor 0). now apply Qfloor_resp_le.
  - assert (Hle : (q <= inject_Z max_float_int)%Q).
    { unfold max_float_int.
      rewrite Hqe, inject_Z_mult, <- (pow2_Z 971) by lia.
      assert (H1 : (0 <= inject_Z m)%Q)
        by (change 0%Q with (inject_Z 0); rewrite <- Zle_Qle; lia).
      assert (H2 : (inject_Z m <= inject_Z (2 ^ 53 - 1))%Q)
        by (rewrite <- Zle_Qle; lia).
      pose proof (pow2_le e 971 ltac:(lia)) as H3.
      pose proof (pow2_pos e) as H4.
      set (M := inject_Z m) in *. set (B := inject_Z (2 ^ 53 - 1)) in *.
      set (T := pow2 971) in *. set (U := pow2 e) in *.
      nra. }
    apply Qfloor_resp_le in Hle. now rewrite Qfloor_Z in Hle.
Qed.

Lemma shorthand_step_ok (st st' : list Z * list Z) (m : captures) :
  timings_ok st -> shorthand_step st m = Ok st' -> timings_ok st'.
Proof.
  destruct st as [D L]. intros (HD & HL & Hlen). unfold shorthand_step.
  pose proof (time_values_sound (group m 1)) as Hs. unfold time_values in Hs.
  cbn [fst snd] in *.
  destruct (findall time_re (group m 1)) as [|t0 [|t1 rest]]; cbn [bind].
  - intros H. injection H as <-. now repeat split.
  - destruct (to_ms t0) as [d|e] eqn:E0; cbn [bind]; [|discriminate].
    intros H. injection H as <-. repeat split; cbn [fst snd].
    + apply Forall_app. split; [exact HD|]. constructor; [|constructor].
      apply (to_ms_range t0); [apply Hs; now left|exact E0].
    + exact HL.
    + rewrite length_app. simpl. lia.
  - destruct (to_ms t0) as [d|e] eqn:E0; cbn [bind]; [|discriminate].
    destruct (to_ms t1) as [dl|e] eqn:E1; cbn [bind]; [|discriminate].
    intros H. injection H as <-. repeat split; cbn [fst snd].
    + apply Forall_app. split; [exact HD|]. constructor; [|constructor].
      apply (to_ms_range t0); [apply Hs; now left|exact E0].
    + apply Forall_app. split; [exact HL|]. constructor; [|constructor].
      apply (to_ms_range t1); [apply Hs; right; now left|exact E1].
    + rewrite !length_app. simpl. lia.
Qed.

Lemma duration_step_ok (st st' : list Z * list Z) (m : captures) :
  time_value (time_value_of m) ->
  timings_ok st -> duration_step st m = Ok st' -> timings_ok st'.
Proof.
  destruct st as [D L]. intros Hm (HD & HL & Hlen). unfold duration_step.
  cbn [fst snd] in *.
  destruct (to_ms (group m 1, group m 2)) as [d|e] eqn:E0; cbn [bind]; [|discriminate].
  intros H. injection H as <-. repeat split; cbn [fst snd].
  - apply Forall_app. split; [exact HD|]. constructor; [|constructor].
    now apply (to_ms_range (group m 1, group m 2)).
  - exact HL.
  - rewrite length_app. simpl. lia.
Qed.

Lemma parse_animation_properties_ok (svg_content : string) (st : list Z * list Z) :
  parse_animation_properties svg_content = Ok st -> timings_ok st.
Proof.
  unfold parse_animation_properties.
  destruct (for_each (finditer shorthand_re svg_content) shorthand_step ([], []))
    as [st1|e1] eqn:E1; cbn [bind]; [|discriminate].
  destruct (for_each (finditer duration_re svg_content) duration_step st1)
    as [st2|e2] eqn:E2; cbn [bind]; [|discriminate].
  destruct (for_each (finditer smil_re svg_content) duration_step st2)
    as [st3|e3] eqn:E3; cbn [bind]; [|discriminate].
  intros H. injection H as <-.
  assert (H1 : timings_ok st1).
  { revert E1. apply for_each_invariant.
    - intros s x s' _. apply shorthand_step_ok.
    - repeat split; simpl; auto. }
  assert (H2 : timings_ok st2).
  { revert E2. apply for_each_invariant; [|exact H1].
    intros s x s' Hx. apply duration_step_ok. now apply (duration_re_sound svg_content). }
  revert E3. apply for_each_invariant; [|exact H2].
  intros s x s' Hx. apply duration_step_ok. now apply (smil_re_sound svg_content).
Qed.

Lemma fold_max_bounds (P : Z -> Prop) (ds : list Z) :
  forall d, P d -> Forall P ds -> P (fold_left Z.max ds d).
Proof.
  induction ds as [|x ds IH]; intros d Hd Hds; simpl; [exact Hd|].
  inversion Hds; subst. apply IH; [|assumption].
  destruct (Z.max_spec d x) as [[_ ->]|[_ ->]]; assumption.
Qed.

Lemma fold_max_ge (ds : list Z) :
  forall d, d <= fold_left Z.max ds d /\
            forall x, In x ds -> x <= fold_left Z.max ds d.
Proof.
  induction ds as [|y ds IH]; intros d; simpl.
  - split; [lia|intros x []].
  - destruct (IH (Z.max d y)) as [H1 H2]. split; [lia|].
    intros x [<-|Hx]; [lia|now apply H2].
Qed.

Lemma fold_max_in (ds : list Z) :
  forall d, In (fold_left Z.max ds d) (d :: ds).
Proof.
  induction ds as [|x ds IH]; intros d; simpl; [now left|].
  destruct (IH (Z.max d x)) as [H|H]; [|now right; right].
  rewrite <- H. destruct (Z.max_spec d x) as [[_ ->]|[_ ->]]; auto.
Qed.

Lemma max_delay_of_bounds (P : Z -> Prop) (delays : list Z) :
  P 0 -> Forall P delays -> P (max_delay_of delays).
Proof.
  intros H0 H. destruct delays as [|d ds]; [exact H0|].
  inversion H; subst. simpl. apply fold_max_bounds; assumption.
Qed.

Lemma max_delay_of_ge (delays : list Z) (d : Z) :
  In d delays -> d <= max_delay_of delays.
Proof.
  destruct delays as [|d0 ds]; [intros []|].
  simpl. destruct (fold_max_ge ds d0) as [H1 H2].
  intros [<-|Hd]; [exact H1|now apply H2].
Qed.

(** X3: whatever the text, the durations and the delays that the parser
    returns are non-negative and there are no more delays than durations;
    the greatest delay, 0 when there is none, is at least every delay. *)
Theorem parse_animation_properties_nonneg
    (svg_content : string) (durations delays : list Z) :
  parse_animation_properties svg_content = Ok (durations, delays) ->
  Forall (fun d => 0 <= d) durations /\
  Forall (fun d => 0 <= d) delays /\
  (List.length delays <= List.length durations)%nat /\
  0 <= max_delay_of delays /\
  (forall d, In d delays -> d <= max_delay_of delays).
Proof.
  intros H. apply parse_animation_properties_ok in H.
  destruct H as (HD & HL & Hlen). cbn [fst snd] in *.
  split; [|split; [|split; [|split]]].
  - eapply Forall_impl; [|exact HD]. intros d Hd. exact (proj1 Hd).
  - eapply Forall_impl; [|exact HL]. intros d Hd. exact (proj1 Hd).
  - exact Hlen.
  - apply (max_delay_of_bounds (fun d => 0 <= d)); [lia|].
    eapply Forall_impl; [|exact HL]. intros d Hd. exact (proj1 Hd).
  - intros d. apply max_delay_of_ge.
Qed.

Lemma parse_animation_properties_nonneg_witness :
  parse_animation_properties
    "animation: a 1s linear 250ms; animation: b 1.5s ease 100ms"
  = Ok ([1000; 1500], [250; 100]) /\
  max_delay_of [250; 100] = 250 /\
  (List.length [250; 100] <= List.length [1000; 1500])%nat.
Proof.
  assert (H : parse_animation_properties
                "animation: a 1s linear 250ms; animation: b 1.5s ease 100ms"
              = Ok ([1000; 1500], [250; 100])) by (vm_compute; reflexivity).
  split; [exact H|]. split; [reflexivity|].
  exact (proj1 (proj2 (proj2 (parse_animation_properties_nonneg _ _ _ H)))).
Defined.

(** ** Documents without a declaration *)

Lemma strip_prefix_app_none (a b s : string) :
  strip_prefix a s = None -> strip_prefix (a ++ b) s = None.
Proof.
  revert s. induction a as [|c a IH]; intros s H; simpl in *; [discriminate|].
  destruct s as [|x s]; [reflexivity|].
  destruct (Ascii.eqb c x); [now apply IH|reflexivity].
Qed.

Lemma occurs_in_app (a b s : string) :
  occurs_in a s = false -> occurs_in (a ++ b)%string s = false.
Proof.
  induction s as [|x s IH]; intros H.
  - cbn [occurs_in] in *.
    destruct (strip_prefix a "") eqn:E; [discriminate|].
    now rewrite (strip_prefix_app_none a b _ E).
  - cbn [occurs_in] in *.
    destruct (strip_prefix a (String x s)) eqn:E; [discriminate|].
    rewrite (strip_prefix_app_none a b _ E). now apply IH.
Qed.

(** A pattern that starts with a literal finds nothing in a text without
    the literal. *)
Lemma finditer_from_absent (l : string) (r : regex) (s : string) :
  occurs_in l s = false -> forall skip, finditer_from (Seq (Lit l) r) s skip = [].
Proof.
  induction s as [|x s IH]; intros H skip.
  - cbn [occurs_in] in H. destruct (strip_prefix l "") eqn:E; [discriminate|].
    destruct skip; cbn [finditer_from]; [|reflexivity].
    unfold match_at. cbn [match_re]. now rewrite E.
  - cbn [occurs_in] in H. destruct (strip_prefix l (String x s)) eqn:E; [discriminate|].
    destruct skip; cbn [finditer_from]; [|now apply IH].
    unfold match_at. cbn [match_re]. rewrite E. now apply IH.
Qed.

(** X4: a document in which neither [animation] nor [<animate] occurs
    declares nothing: the parser returns two empty lists and the plan is
    the default one, a cycle of 2000 ms sampled in 40 frames from 2000 ms
    on. *)
Theorem static_document_plan (list_of_set : list Z -> list Z) (svg_content : string) :
  occurs_in "animation" svg_content = false ->
  occurs_in "<animate" svg_content = false ->
  parse_animation_properties svg_content = Ok ([], []) /\
  sample_plan list_of_set svg_content
  = Ok {| cycle_ms := 2000; start_ms := 2000; num_frames := 40 |}.
Proof.
  intros Hcss Hsmil.
  assert (Hp : parse_animation_properties svg_content = Ok ([], [])).
  { unfold parse_animation_properties, finditer.
    unfold shorthand_re. rewrite finditer_from_absent by exact Hcss.
    unfold duration_re. rewrite finditer_from_absent
      by (exact (occurs_in_app "animation" "-duration" _ Hcss)).
    unfold smil_re. rewrite finditer_from_absent by exact Hsmil.
    reflexivity. }
  split; [exact Hp|].
  unfold sample_plan. rewrite Hp. reflexivity.
Qed.

Lemma static_document_plan_witness :
  occurs_in "animation" "<svg><circle r='5'/></svg>" = false /\
  occurs_in "<animate" "<svg><circle r='5'/></svg>" = false /\
  sample_plan first_seen "<svg><circle r='5'/></svg>"
  = Ok {| cycle_ms := 2000; start_ms := 2000; num_frames := 40 |}.
Proof.
  split; [reflexivity|]. split; [reflexivity|].
  exact (proj2 (static_document_plan first_seen "<svg><circle r='5'/></svg>"
                  eq_refl eq_refl)).
Defined.

(** ** The plan of a parsed document *)

Lemma max_float_int_pos : 1 <= max_float_int.
Proof. vm_compute. discriminate. Qed.

(** The true division of integers returns up to the largest float: the
    quotient of the largest float plus one rounds back to it. *)
Lemma int_truediv_returns (a c : Z) :
  1 <= a <= max_float_int + 1 -> 1 <= c ->
  exists q, int_truediv a c = Ok (Finite q) /\ (0 <= q)%Q.
Proof.
  intros Ha Hc. unfold int_truediv.
  destruct (Z.eqb_spec c 0) as [E|_]; [lia|].
  assert (Hsmall : a <= max_float_int * c ->
                   exists q, match round64 (inject_Z a / inject_Z c) with
                             | Finite q0 => Ok (Finite q0)
                             | _ => Raise OverflowError
                             end = Ok (Finite q) /\ (0 <= q)%Q).
  { intros Hle.
    assert (Hcq : (0 < inject_Z c)%Q) by (apply inject_Z_pos; lia).
    assert (H0 : (0 <= inject_Z a / inject_Z c)%Q).
    { apply Qle_shift_div_l; [exact Hcq|]. rewrite Qmult_0_l.
      change 0%Q with (inject_Z 0). rewrite <- Zle_Qle. lia. }
    assert (H1 : (inject_Z a / inject_Z c <= inject_Z (2 ^ 53 - 1) * pow2 971)%Q).
    { apply Qle_shift_div_r; [exact Hcq|].
      rewrite pow2_Z by lia. rewrite <- !inject_Z_mult, <- Zle_Qle.
      exact Hle. }
    destruct (binary64_nonneg_le _ (2 ^ 53 - 1) 971 H0 ltac:(lia) ltac:(lia) H1)
      as (y & -> & Hy & _).
    exists y. now split. }
  pose proof max_float_int_pos as HM.
  destruct (Z.eq_dec a (max_float_int + 1)) as [Ea|Na];
    [destruct (Z.eq_dec c 1) as [Ec|Nc]|].
  - subst a c. vm_compute. eexists. split; [reflexivity|discriminate].
  - apply Hsmall. nia.
  - apply Hsmall. nia.
Qed.

Lemma start_offset_returns (c d : Z) :
  1 <= c -> 0 <= d <= max_float_int ->
  exists k, 1 <= k /\ start_offset c d = Ok (c * k).
Proof.
  intros Hc Hd. unfold start_offset.
  destruct (int_truediv_returns (d + 1) c ltac:(lia) Hc) as (q & -> & Hq).
  cbn [bind math_ceil]. exists (Z.max 1 (Qceiling q)). split; [lia|reflexivity].
Qed.

Section PlanBounds.

Variable list_of_set : list Z -> list Z.
Hypothesis order_ok : set_order list_of_set.

Lemma sample_plan_of_timings (svg_content : string) (durations delays : list Z) :
  parse_animation_properties svg_content = Ok (durations, delays) ->
  exists c k,
    compute_cycle_ms list_of_set durations = Ok c /\ 1 <= c <= 10000 /\ 1 <= k /\
    start_offset c (max_delay_of delays) = Ok (c * k) /\
    sample_plan list_of_set svg_content
    = Ok {| cycle_ms := c; start_ms := c * k; num_frames := c / 50 |}.
Proof.
  intros Hp.
  destruct (compute_cycle_ms_range list_of_set durations order_ok) as (c & Hc & Hr).
  pose proof (parse_animation_properties_ok _ _ Hp) as (_ & HL & _).
  cbn [snd] in HL.
  assert (Hd : 0 <= max_delay_of delays <= max_float_int).
  { apply (max_delay_of_bounds (fun d => 0 <= d <= max_float_int)); [|exact HL].
    pose proof max_float_int_pos. lia. }
  destruct (start_offset_returns c _ ltac:(lia) Hd) as (k & Hk & Hs).
  exists c, k. repeat split; try assumption; try lia.
  unfold sample_plan. rewrite Hp. cbn [bind]. rewrite Hc. cbn [bind].
  rewrite Hs. cbn [bind]. rewrite frame_count_floor by lia. reflexivity.
Qed.

(** X5: once the parser has returned, the plan is computed without an
    error, however large the delays: the cycle length is between 1 and
    10000, the number of frames is the cycle length divided by 50, at most
    200, and the start offset is a positive multiple of the cycle
    length. *)
Theorem sample_plan_returns (svg_content : string) (durations delays : list Z) :
  parse_animation_properties svg_content = Ok (durations, delays) ->
  exists p,
    sample_plan list_of_set svg_content = Ok p /\
    compute_cycle_ms list_of_set durations = Ok (cycle_ms p) /\
    1 <= cycle_ms p <= 10000 /\
    num_frames p = cycle_ms p / 50 /\ 0 <= num_frames p <= 200 /\
    (cycle_ms p | start_ms p) /\ cycle_ms p <= start_ms p.
Proof.
  intros Hp.
  destruct (sample_plan_of_timings _ _ _ Hp) as (c & k & Hc & Hr & Hk & _ & Hs).
  eexists. split; [exact Hs|]. cbn [cycle_ms start_ms num_frames].
  split; [exact Hc|]. split; [exact Hr|]. split; [reflexivity|].
  split; [|split].
  - split; [apply Z.div_pos; lia|].
    apply Z.div_le_upper_bound; lia.
  - exists k. ring.
  - nia.
Qed.

(** X6: when every delay of the document is below 2^52 - 1 ms, the start
    offset of the plan is the least positive multiple of the cycle length
    that is greater than every delay. *)
Theorem start_after_every_delay (svg_content : string) (durations delays : list Z) :
  parse_animation_properties svg_content = Ok (durations, delays) ->
  (forall d, In d delays -> d < 2 ^ 52 - 1) ->
  exists p,
    sample_plan list_of_set svg_content = Ok p /\
    0 < start_ms p /\ (cycle_ms p | start_ms p) /\
    (forall d, In d delays -> d < start_ms p) /\
    (forall k, 0 < k -> (forall d, In d delays -> d < cycle_ms p * k) ->
               start_ms p <= cycle_ms p * k).
Proof.
  intros Hp Hsmall.
  destruct (sample_plan_of_timings _ _ _ Hp)
    as (c & k & Hc & Hr & Hk & Hs & Hplan).
  pose proof (parse_animation_properties_ok _ _ Hp) as (_ & HL & _).
  cbn [snd] in HL.
  assert (Hd : 0 <= max_delay_of delays < 2 ^ 52 - 1).
  { destruct delays as [|d0 ds]; [simpl; lia|].
    destruct (fold_max_in ds d0) as [E|Hin].
    - simpl. rewrite <- E. split.
      + inversion HL; subst. lia.
      + apply Hsmall. now left.
    - simpl. split.
      + rewrite Forall_forall in HL. apply (HL _ (or_intror Hin)).
      + apply Hsmall. now right. }
  destruct (start_offset_least c (max_delay_of delays) ltac:(lia) Hd)
    as (s & Es & _ & Hpos & Hdiv & Hgt & Hleast).
  rewrite Hs in Es. injection Es as Es.
  eexists. split; [exact Hplan|]. cbn [cycle_ms start_ms num_frames].
  rewrite Es. split; [exact Hpos|]. split; [exact Hdiv|]. split.
  - intros d Hin. pose proof (max_delay_of_ge delays d Hin). lia.
  - intros k' Hk' Hall. apply Hleast.
    destruct delays as [|d0 ds]; [simpl; nia|].
    destruct (fold_max_in ds d0) as [E|Hin].
    + simpl. rewrite <- E. apply Hall. now left.
    + simpl. apply Hall. now right.
Qed.

End PlanBounds.

Lemma sample_plan_returns_witness :
  set_order first_seen /\
  parse_animation_properties
    "animation: a 1s linear 250ms; animation: b 1.5s ease 100ms"
  = Ok ([1000; 1500], [250; 100]) /\
  exists p,
    sample_plan first_seen
      "animation: a 1s linear 250ms; animation: b 1.5s ease 100ms" = Ok p /\
    compute_cycle_ms first_seen [1000; 1500] = Ok (cycle_ms p) /\
    1 <= cycle_ms p <= 10000 /\
    num_frames p = cycle_ms p / 50 /\ 0 <= num_frames p <= 200 /\
    (cycle_ms p | start_ms p) /\ cycle_ms p <= start_ms p.
Proof.
  assert (H : parse_animation_properties
                "animation: a 1s linear 250ms; animation: b 1.5s ease 100ms"
              = Ok ([1000; 1500], [250; 100])) by (vm_compute; reflexivity).
  split; [exact first_seen_order|]. split; [exact H|].
  exact (sample_plan_returns first_seen first_seen_order _ _ _ H).
Defined.

Lemma start_after_every_delay_witness :
  set_order first_seen /\
  parse_animation_properties
    "animation: a 1s linear 250ms; animation: b 1.5s ease 3100ms"
  = Ok ([1000; 1500], [250; 3100]) /\
  (forall d, In d [250; 3100] -> d < 2 ^ 52 - 1) /\
  sample_plan first_seen
    "animation: a 1s linear 250ms; animation: b 1.5s ease 3100ms"
  = Ok {| cycle_ms := 3000; start_ms := 6000; num_frames := 60 |} /\
  exists p,
    sample_plan first_seen
      "animation: a 1s linear 250ms; animation: b 1.5s ease 3100ms" = Ok p /\
    0 < start_ms p /\ (cycle_ms p | start_ms p) /\
    (forall d, In d [250; 3100] -> d < start_ms p) /\
    (forall k, 0 < k -> (forall d, In d [250; 3100] -> d < cycle_ms p * k) ->
               start_ms p <= cycle_ms p * k).
Proof.
  assert (H : parse_animation_properties
                "animation: a 1s linear 250ms; animation: b 1.5s ease 3100ms"
              = Ok ([1000; 1500], [250; 3100])) by (vm_compute; reflexivity).
  assert (Hs : forall d, In d [250; 3100] -> d < 2 ^ 52 - 1)
    by (intros d [<-|[<-|[]]]; lia).
  split; [exact first_seen_order|]. split; [exact H|]. split; [exact Hs|].
  split; [vm_compute; reflexivity|].
  exact (start_after_every_delay first_seen first_seen_order _ _ _ H Hs).
Defined.

(** ** Declarations read back *)

Ltac unfold_seq :=
  change (match_re (Seq ?a ?b) ?s ?m ?k0)
    with (match_re a s m (fun s' m' => match_re b s' m' k0)).

Ltac unfold_star :=
  change (match_re (Star ?p) ?s ?m ?k0) with (match_star p s (fun s' => k0 s' m)).

Ltac unfold_group :=
  change (match_re (Group ?i ?a) ?s ?m ?k0)
    with (match_re a s m (fun s' m' => k0 s' ((i, consumed s s') :: m'))).

Section Completeness.

Local Open Scope string_scope.

(** A repetition takes all the characters of its class that stand in
    front of the first character outside the class, when the rest of the
    pattern matches from there. *)
Lemma match_star_greedy {R : Type} (p : ascii -> bool) (k : string -> option R)
    (r : R) (ds rest : string) :
  all_chars p ds = true -> starts_outside p rest -> k rest = Some r ->
  match_star p (ds ++ rest) k = Some r.
Proof.
  intros Hds Hrest Hk. induction ds as [|d ds IH]; cbn [append].
  - destruct rest as [|x rest']; cbn [match_star]; [exact Hk|].
    simpl in Hrest. now rewrite Hrest.
  - cbn [all_chars] in Hds. apply andb_prop in Hds. destruct Hds as [Hd Hds].
    cbn [match_star]. rewrite Hd, (IH Hds). reflexivity.
Qed.

Lemma match_star_outside {R : Type} (p : ascii -> bool) (k : string -> option R)
    (s : string) :
  starts_outside p s -> match_star p s k = k s.
Proof. destruct s as [|x s]; simpl; [reflexivity|]. now intros ->. Qed.

Lemma match_opt_outside {R : Type} (p : ascii -> bool) (s : string) (m : captures)
    (k : string -> captures -> option R) :
  starts_outside p s -> match_re (Opt p) s m k = k s m.
Proof. destruct s as [|x s]; simpl; [reflexivity|]. now intros ->. Qed.

Lemma strip_prefix_self (l s : string) : strip_prefix l (l ++ s) = Some s.
Proof.
  induction l as [|a l IH]; simpl; [reflexivity|]. now rewrite Ascii.eqb_refl.
Qed.

Lemma match_lit_append {R : Type} (l s : string) (m : captures)
    (k : string -> captures -> option R) :
  match_re (Lit l) (l ++ s) m k = k s m.
Proof. cbn [match_re]. now rewrite strip_prefix_self. Qed.

(** The pattern of a time-value matches a numeral of digits that a unit
    follows, the numeral being group 1 and the unit group 2. *)
Lemma match_time_re_complete {R : Type} (n u rest : string) (m0 : captures)
    (k : string -> captures -> option R) (r : R) :
  all_digits n = true -> n <> "" -> u = "s" \/ u = "ms" ->
  k rest ((2%nat, u) :: (1%nat, n) :: m0) = Some r ->
  match_re time_re (n ++ u ++ rest) m0 k = Some r.
Proof.
  intros Hn Hne Hu Hk. destruct n as [|c n']; [congruence|].
  assert (Hg : consumed (String c n' ++ u ++ rest) (u ++ rest) = String c n')
    by apply consumed_append.
  assert (Hg2 : consumed (u ++ rest) rest = u) by apply consumed_append.
  cbn [all_digits] in Hn. apply andb_prop in Hn. destruct Hn as [Hc Hn'].
  unfold time_re. unfold_seq. unfold_group. unfold_seq.
  change (String c n' ++ u ++ rest) with (String c (n' ++ u ++ rest)) at 1.
  change (match_re (Plus ?p) (String c ?s) ?m ?k0)
    with (if p c then match_star p s (fun s'' => k0 s'' m) else None).
  rewrite Hc.
  assert (Hout : forall p, p "s"%char = false -> p "m"%char = false ->
                           starts_outside p (u ++ rest)).
  { intros p Hs Hm. destruct Hu as [-> | ->]; assumption. }
  apply match_star_greedy; [now rewrite all_chars_digits|now apply Hout|].
  unfold_seq. rewrite match_opt_outside by (now apply Hout). cbv beta.
  unfold_star. rewrite match_star_outside by (now apply Hout). cbv beta.
  rewrite Hg. unfold_group.
  change (match_re (Alt ?a ?b) ?s ?m ?k0)
    with (match match_re a s m k0 with
          | Some x => Some x
          | None => match_re b s m k0
          end).
  destruct Hu as [-> | ->].
  - rewrite match_lit_append, Hg2, Hk. reflexivity.
  - change (match_re (Lit "s") ("ms" ++ rest) ?m ?k0) with (@None R).
    cbv iota. rewrite match_lit_append, Hg2. exact Hk.
Qed.

Lemma all_chars_append (p : ascii -> bool) (a b : string) :
  all_chars p (a ++ b) = all_chars p a && all_chars p b.
Proof.
  induction a as [|c a IH]; simpl; [reflexivity|].
  now rewrite IH, andb_assoc.
Qed.

Lemma all_chars_impl (p q : ascii -> bool) (s : string) :
  (forall c, p c = true -> q c = true) ->
  all_chars p s = true -> all_chars q s = true.
Proof.
  intros Hpq. induction s as [|c s IH]; simpl; [reflexivity|].
  intros H. apply andb_prop in H. destruct H as [Hc Hs].
  now rewrite (Hpq c Hc), IH.
Qed.

(** A text without the first character of [l] has no occurrence of [l]. *)
Lemma occurs_in_first_char (f : ascii) (l s : string) :
  all_chars (fun c => negb (Ascii.eqb f c)) s = true ->
  occurs_in (String f l) s = false.
Proof.
  induction s as [|c s IH]; intros H; [reflexivity|].
  cbn [all_chars] in H. apply andb_prop in H. destruct H as [Hc Hs].
  cbn [occurs_in strip_prefix].
  destruct (Ascii.eqb f c); [discriminate|]. now apply IH.
Qed.

Lemma occurs_in_cons (l s : string) (c : ascii) :
  strip_prefix l (String c s) = None ->
  occurs_in l (String c s) = occurs_in l s.
Proof. intros H. cbn [occurs_in]. now rewrite H. Qed.

Lemma space_not_letter (c : ascii) :
  is_space c = true ->
  negb (Ascii.eqb "a" c) = true /\ negb (Ascii.eqb "<" c) = true.
Proof.
  destruct c as [[] [] [] [] [] [] [] []]; vm_compute; intros H;
    first [discriminate H | split; reflexivity].
Qed.

Lemma digit_not_letter (c : ascii) :
  is_digit c = true ->
  negb (Ascii.eqb "a" c) = true /\ negb (Ascii.eqb "<" c) = true /\
  is_space c = false.
Proof.
  destruct c as [[] [] [] [] [] [] [] []]; vm_compute; intros H;
    first [discriminate H | repeat split; reflexivity].
Qed.

Lemma finditer_from_skip_all (r : regex) (s : string) :
  match_at r "" = None -> finditer_from r s (String.length s) = [].
Proof.
  intros H. induction s as [|c s IH]; cbn [String.length finditer_from].
  - now rewrite H.
  - exact IH.
Qed.

Lemma finditer_from_none (r : regex) (c : ascii) (s : string) :
  match_at r (String c s) = None ->
  finditer_from r (String c s) 0 = finditer_from r s 0.
Proof. intros H. cbn [finditer_from]. now rewrite H. Qed.

Lemma finditer_from_whole (r : regex) (c : ascii) (s : string) (m : captures) :
  match_at r (String c s) = Some (EmptyString, m) -> match_at r EmptyString = None ->
  finditer_from r (String c s) 0 = [m].
Proof.
  intros H H0. cbn [finditer_from]. rewrite H. f_equal.
  cbn [String.length]. rewrite Nat.sub_0_r. cbn [Nat.sub]. rewrite Nat.sub_0_r.
  now apply finditer_from_skip_all.
Qed.

(** Numerals of at most twelve digits convert without rounding. *)
Lemma to_ms_exact (n u : string) :
  all_digits n = true -> n <> "" -> (String.length n <= 12)%nat ->
  u = "s" \/ u = "ms" ->
  to_ms (n, u) = Ok (digits_value 0 n * (if String.eqb u "s" then 1000 else 1))%Z.
Proof.
  intros Hn Hne Hlen Hu.
  pose proof (digits_value_nonneg n 0 ltac:(lia) Hn) as HN0.
  pose proof (digits_value_bound n 0 ltac:(lia) Hn) as HN1.
  assert (HN : (digits_value 0 n < 10 ^ 12)%Z).
  { apply Z.lt_le_trans with (1 := HN1). rewrite Z.mul_1_l.
    apply Z.pow_le_mono_r; lia. }
  unfold to_ms, float_of_str. rewrite (split_point_digits n Hn).
  rewrite append_nil_r, Hn.
  replace (String.eqb n "") with false
    by (symmetry; apply String.eqb_neq; exact Hne).
  cbn [all_digits andb negb String.length Z.of_nat].
  set (N := digits_value 0 n) in *.
  rewrite (round64_int_eq _ N) by (try lia; change (10 ^ 0)%Z with 1%Z; field).
  cbn [bind].
  set (k := if String.eqb u "s" then 1000%Z else 1%Z).
  assert (Hk : (1 <= k <= 1000)%Z) by (unfold k; destruct (String.eqb u "s"); lia).
  unfold float_mul_int. rewrite float_of_int_exact by lia. cbn [bind float_mul].
  rewrite (round64_int_eq _ (N * k)) by (try nia; now rewrite inject_Z_mult).
  cbn [bind int_of_float].
  replace (Qle_bool 0 (inject_Z (N * k))) with true.
  - now rewrite Qfloor_Z.
  - symmetry. apply Qle_bool_iff. change 0%Q with (inject_Z 0).
    rewrite <- Zle_Qle. nia.
Qed.

Lemma match_star_all {R : Type} (p : ascii -> bool) (k : string -> option R)
    (r : R) (s : string) :
  all_chars p s = true -> k EmptyString = Some r -> match_star p s k = Some r.
Proof.
  intros Hs Hk. rewrite <- (append_nil_r s).
  now apply match_star_greedy.
Qed.

Lemma consumed_all (s : string) : consumed s EmptyString = s.
Proof. rewrite <- (append_nil_r s) at 1. apply consumed_append. Qed.

Lemma strip_prefix_outside (c : ascii) (l s : string) :
  starts_outside (fun x => Ascii.eqb c x) s -> strip_prefix (String c l) s = None.
Proof. destruct s as [|x s]; simpl; [reflexivity|]. now intros ->. Qed.

Lemma digit_facts (c : ascii) :
  is_digit c = true ->
  none_of ";" "}" c = true /\ negb (Ascii.eqb "<" c) = true /\
  negb (Ascii.eqb "a" c) = true /\
  all_chars (fun x => negb (Ascii.eqb x c)) "animation" = true.
Proof.
  destruct c as [[] [] [] [] [] [] [] []]; vm_compute; intros H;
    first [discriminate H | repeat split; reflexivity].
Qed.

Lemma space_not_hyphen (c : ascii) :
  is_space c = true -> Ascii.eqb "-" c = false.
Proof.
  destruct c as [[] [] [] [] [] [] [] []]; vm_compute; intros H;
    first [discriminate H | reflexivity].
Qed.

Lemma filler_facts (c : ascii) :
  is_filler c = true ->
  none_of ";" "}" c = true /\ negb (Ascii.eqb "<" c) = true /\
  is_digit c = false.
Proof.
  destruct c as [[] [] [] [] [] [] [] []]; vm_compute; intros H;
    first [discriminate H | repeat split; reflexivity].
Qed.

(** An occurrence of [l] does not reach over a character that [l] does
    not hold. *)
Lemma strip_prefix_separator (l x b : string) (c : ascii) :
  all_chars (fun y => negb (Ascii.eqb y c)) l = true ->
  strip_prefix l x = None -> strip_prefix l (x ++ String c b) = None.
Proof.
  revert x. induction l as [|f l IH]; intros x Hl H; [discriminate|].
  cbn [all_chars] in Hl. apply andb_prop in Hl. destruct Hl as [Hf Hl].
  destruct x as [|y x]; cbn [append strip_prefix] in *.
  - apply negb_true_iff in Hf. now rewrite Hf.
  - destruct (Ascii.eqb f y); [now apply IH|reflexivity].
Qed.

Lemma occurs_in_separator (l a b : string) (c : ascii) :
  all_chars (fun y => negb (Ascii.eqb y c)) l = true ->
  occurs_in l a = false ->
  occurs_in l (a ++ String c b) = occurs_in l b.
Proof.
  intros Hl. induction a as [|x a IH]; intros H.
  - cbn [occurs_in] in H. destruct (strip_prefix l "") eqn:E; [discriminate|].
    pose proof (strip_prefix_separator l "" b c Hl E) as E'.
    cbn [append] in *. cbn [occurs_in]. now rewrite E'.
  - cbn [occurs_in] in H. destruct (strip_prefix l (String x a)) eqn:E; [discriminate|].
    change (String x a ++ String c b) with (String x (a ++ String c b)).
    cbn [occurs_in].
    change (String x (a ++ String c b)) with (String x a ++ String c b).
    rewrite (strip_prefix_separator l _ b c Hl E). now apply IH.
Qed.

(** Characters other than the first one of [l] in front of a text change
    nothing to the occurrences of [l] in it. *)
Lemma occurs_in_skip (f : ascii) (l a b : string) :
  all_chars (fun c => negb (Ascii.eqb f c)) a = true ->
  occurs_in (String f l) (a ++ b) = occurs_in (String f l) b.
Proof.
  induction a as [|c a IH]; intros H; [reflexivity|].
  cbn [all_chars] in H. apply andb_prop in H. destruct H as [Hc Ha].
  cbn [append occurs_in strip_prefix].
  destruct (Ascii.eqb f c); [discriminate|]. now apply IH.
Qed.

(** The search goes on behind a match. *)
Lemma finditer_from_skip (r : regex) (a b : string) :
  finditer_from r (a ++ b) (String.length a) = finditer_from r b 0.
Proof. induction a as [|c a IH]; [reflexivity|exact IH]. Qed.

Lemma finditer_from_match (r : regex) (a b : string) (m : captures) :
  a <> "" -> match_at r (a ++ b) = Some (b, m) ->
  finditer_from r (a ++ b) 0 = m :: finditer_from r b 0.
Proof.
  intros Ha H. destruct a as [|c a]; [congruence|].
  change (String c a ++ b) with (String c (a ++ b)) in *.
  cbn [finditer_from]. rewrite H. f_equal.
  cbn [String.length]. rewrite length_append.
  replace (S (String.length a + String.length b) - String.length b - 1)%nat
    with (String.length a) by lia.
  apply finditer_from_skip.
Qed.

Lemma match_time_re_nondigit (c : ascii) (s : string) :
  is_digit c = false -> match_at time_re (String c s) = None.
Proof.
  intros H. unfold match_at, time_re. unfold_seq. unfold_group. unfold_seq.
  cbn [match_re]. now rewrite H.
Qed.

Lemma time_values_skip (w b : string) :
  all_chars is_filler w = true ->
  finditer_from time_re (w ++ b) 0 = finditer_from time_re b 0.
Proof.
  induction w as [|c w IH]; intros H; [reflexivity|].
  cbn [all_chars] in H. apply andb_prop in H. destruct H as [Hc Hw].
  change (String c w ++ b) with (String c (w ++ b)).
  rewrite finditer_from_none
    by (apply match_time_re_nondigit; apply (filler_facts c Hc)).
  now apply IH.
Qed.

(** The time-values of a text that is made of written times are these
    times, in their order. *)
Lemma time_values_body (ts : list (string * string * string)) :
  Forall written_time ts ->
  finditer_from time_re (shorthand_body ts) 0
  = map (fun t => let '(n, u, _) := t in [(2%nat, u); (1%nat, n)]) ts.
Proof.
  induction ts as [|[[n u] w] ts IH]; intros H; [reflexivity|].
  inversion H as [|t ts' Ht Hts]; subst.
  destruct Ht as (Hn & Hne & _ & Hu & Hw & _).
  cbn [shorthand_body map].
  rewrite <- (append_assoc n u).
  rewrite (finditer_from_match time_re (n ++ u) _ [(2%nat, u); (1%nat, n)]).
  - f_equal. rewrite time_values_skip by exact Hw. now apply IH.
  - destruct n; [congruence|discriminate].
  - unfold match_at. rewrite append_assoc. now apply match_time_re_complete.
Qed.

(** A repetition in front of a text gives the result of the repetition
    on the text, when there is one: the longest repetition wins. *)
Lemma match_star_prefix {R : Type} (p : ascii -> bool) (k : string -> option R)
    (r : R) (a s : string) :
  all_chars p a = true -> match_star p s k = Some r ->
  match_star p (a ++ s) k = Some r.
Proof.
  intros Ha Hs. induction a as [|c a IH]; [exact Hs|].
  cbn [all_chars] in Ha. apply andb_prop in Ha. destruct Ha as [Hc Ha].
  cbn [append match_star]. now rewrite Hc, (IH Ha).
Qed.

(** A repetition that ends at a character outside the class fails when
    the rest of the pattern starts with a literal that does not occur up
    to there. *)
Lemma match_star_none {R : Type} (p : ascii -> bool) (k : string -> option R)
    (l b r : string) (c : ascii) :
  (forall t, strip_prefix l t = None -> k t = None) ->
  all_chars (fun y => negb (Ascii.eqb y c)) l = true ->
  p c = false -> occurs_in l b = false ->
  match_star p (b ++ String c r) k = None.
Proof.
  intros Hk Hl Hc. induction b as [|x b IH]; intros Hb.
  - cbn [occurs_in] in Hb. destruct (strip_prefix l "") eqn:E; [discriminate|].
    pose proof (strip_prefix_separator l "" r c Hl E) as E'.
    cbn [append] in *. cbn [match_star]. rewrite Hc. now apply Hk.
  - cbn [occurs_in] in Hb.
    destruct (strip_prefix l (String x b)) eqn:E; [discriminate|].
    pose proof (strip_prefix_separator l _ r c Hl E) as E'.
    change (String x b ++ String c r) with (String x (b ++ String c r)) in *.
    cbn [match_star]. rewrite (IH Hb), (Hk _ E').
    now destruct (p x).
Qed.

Lemma match_star_cons {R : Type} (p : ascii -> bool) (k : string -> option R)
    (c : ascii) (s : string) :
  p c = true ->
  match_star p (String c s) k
  = match match_star p s k with
    | Some r => Some r
    | None => k (String c s)
    end.
Proof. intros H. cbn [match_star]. now rewrite H. Qed.

Lemma shorthand_body_chars (p : ascii -> bool)
    (ts : list (string * string * string)) :
  (forall c, is_digit c = true -> p c = true) ->
  (forall c, is_filler c = true -> p c = true) ->
  p "s"%char = true -> p "m"%char = true ->
  Forall written_time ts ->
  all_chars p (shorthand_body ts) = true.
Proof.
  intros Hd Hf Hs Hm H.
  induction H as [|[[n u] w] ts' (Hn & _ & _ & Hu & Hw & _) _ IH];
    [reflexivity|].
  cbn [shorthand_body]. rewrite !all_chars_append, IH.
  rewrite (all_chars_impl is_digit p n Hd) by (now rewrite all_chars_digits).
  rewrite (all_chars_impl is_filler p w Hf Hw).
  destruct Hu as [-> | ->]; cbn [all_chars]; now rewrite ?Hs, ?Hm.
Qed.

Lemma shorthand_body_without_animation (ts : list (string * string * string)) :
  Forall written_time ts ->
  forall w, filler_ok w -> occurs_in "animation" (w ++ shorthand_body ts) = false.
Proof.
  intros H.
  induction H as [|[[n u] w] ts' (Hn & Hne & _ & Hu & Hw) _ IH];
    intros w1 [_ Hw1].
  - cbn [shorthand_body]. now rewrite append_nil_r.
  - cbn [shorthand_body]. destruct n as [|c n]; [congruence|].
    cbn [all_digits] in Hn. apply andb_prop in Hn. destruct Hn as [Hc Hn].
    change (String c n ++ u ++ w ++ shorthand_body ts')
      with (String c (n ++ u ++ w ++ shorthand_body ts')).
    rewrite occurs_in_separator;
      [|apply (digit_facts c Hc)|exact Hw1].
    rewrite occurs_in_skip.
    + rewrite occurs_in_skip; [now apply IH|].
      destruct Hu as [-> | ->]; reflexivity.
    + apply (all_chars_impl is_digit); [|now rewrite all_chars_digits].
      intros x Hx. apply (digit_facts x Hx).
Qed.

Lemma to_ms_written (n u w : string) :
  written_time (n, u, w) -> to_ms (n, u) = Ok (written_ms (n, u, w)).
Proof. intros (Hn & Hne & Hlen & Hu & _). now apply to_ms_exact. Qed.

End Completeness.

Section DurationDeclaration.

Local Open Scope string_scope.

Variables sp1 sp2 n u : string.
Hypothesis sp1_spaces : all_chars is_space sp1 = true.
Hypothesis sp2_spaces : all_chars is_space sp2 = true.
Hypothesis n_digits : all_digits n = true.
Hypothesis n_nonempty : n <> "".
Hypothesis u_unit : u = "s" \/ u = "ms".

Let tail : string := sp1 ++ ":" ++ sp2 ++ n ++ u.

Lemma tail_chars (f : ascii) :
  (forall c, is_space c = true -> negb (Ascii.eqb f c) = true) ->
  (forall c, is_digit c = true -> negb (Ascii.eqb f c) = true) ->
  negb (Ascii.eqb f ":") = true -> negb (Ascii.eqb f "s") = true ->
  negb (Ascii.eqb f "m") = true ->
  all_chars (fun c => negb (Ascii.eqb f c)) tail = true.
Proof.
  intros Hsp Hd Hc Hs Hm. unfold tail.
  rewrite !all_chars_append.
  rewrite (all_chars_impl is_space _ sp1 Hsp sp1_spaces).
  rewrite (all_chars_impl is_space _ sp2 Hsp sp2_spaces).
  rewrite (all_chars_impl is_digit _ n Hd) by (now rewrite all_chars_digits).
  cbn [all_chars]. rewrite Hc.
  destruct u_unit as [-> | ->]; cbn [all_chars]; now rewrite ?Hs, ?Hm.
Qed.

Lemma shorthand_absent :
  finditer shorthand_re ("animation-duration" ++ tail) = [].
Proof.
  unfold finditer.
  change ("animation-duration" ++ tail) with (String "a" ("nimation-duration" ++ tail)).
  assert (H0 : match_at shorthand_re (String "a" ("nimation-duration" ++ tail)) = None).
  { unfold match_at, shorthand_re. unfold_seq.
    change (String "a" ("nimation-duration" ++ tail))
      with ("animation" ++ ("-duration" ++ tail)).
    rewrite match_lit_append. cbv beta. unfold_seq. unfold_star.
    rewrite match_star_outside by reflexivity. cbv beta.
    reflexivity. }
  rewrite (finditer_from_none _ _ _ H0). apply finditer_from_absent.
  cbn [append]. rewrite !occurs_in_cons by reflexivity.
  apply occurs_in_first_char, tail_chars; try reflexivity.
  - intros c Hc. apply (space_not_letter c Hc).
  - intros c Hc. apply (digit_not_letter c Hc).
Qed.

Lemma smil_absent :
  finditer smil_re ("animation-duration" ++ tail) = [].
Proof.
  unfold finditer, smil_re. apply finditer_from_absent.
  cbn [append]. rewrite !occurs_in_cons by reflexivity.
  apply occurs_in_first_char, tail_chars; try reflexivity.
  - intros c Hc. apply (space_not_letter c Hc).
  - intros c Hc. apply (digit_not_letter c Hc).
Qed.

Lemma duration_found :
  finditer duration_re ("animation-duration" ++ tail)
  = [[(2%nat, u); (1%nat, n)]].
Proof.
  assert (Hm : match_at duration_re ("animation-duration" ++ tail)
               = Some ("", [(2%nat, u); (1%nat, n)])).
  { unfold match_at, duration_re. unfold_seq.
    rewrite match_lit_append. cbv beta. unfold_seq. unfold_star.
    unfold tail. apply match_star_greedy; [exact sp1_spaces|reflexivity|].
    unfold_seq. rewrite match_lit_append. cbv beta. unfold_seq. unfold_star.
    apply match_star_greedy; [exact sp2_spaces| |].
    - destruct n as [|c n']; [congruence|]. cbn [append starts_outside].
      cbn [all_digits] in n_digits. apply andb_prop in n_digits.
      apply (digit_not_letter c (proj1 n_digits)).
    - rewrite <- (append_nil_r u) at 1.
      now apply match_time_re_complete. }
  unfold finditer.
  change ("animation-duration" ++ tail)
    with (String "a" ("nimation-duration" ++ tail)) in *.
  now apply finditer_from_whole.
Qed.

End DurationDeclaration.

(** X7: a declaration [animation-duration], with or without white space
    around the colon, whose value is a numeral of at most twelve digits
    and a unit, is read back as this number of milliseconds, times 1000
    when the unit is [s]: it gives one duration and no delay. *)
Theorem duration_declaration_round_trip (sp1 sp2 n u : string) :
  all_chars is_space sp1 = true -> all_chars is_space sp2 = true ->
  all_digits n = true -> n <> ""%string -> (String.length n <= 12)%nat ->
  u = "s"%string \/ u = "ms"%string ->
  parse_animation_properties
    ("animation-duration" ++ sp1 ++ ":" ++ sp2 ++ n ++ u)
  = Ok ([digits_value 0 n * (if String.eqb u "s" then 1000 else 1)], []).
Proof.
  intros H1 H2 Hn Hne Hlen Hu. unfold parse_animation_properties.
  rewrite (shorthand_absent sp1 sp2 n u H1 H2 Hn Hu).
  rewrite (duration_found sp1 sp2 n u H1 H2 Hn Hne Hu).
  rewrite (smil_absent sp1 sp2 n u H1 H2 Hn Hu).
  cbn [for_each bind duration_step group Nat.eqb].
  rewrite (to_ms_exact n u Hn Hne Hlen Hu). reflexivity.
Qed.

Lemma duration_declaration_round_trip_witness :
  parse_animation_properties "animation-duration : 2500ms" = Ok ([2500], []) /\
  parse_animation_properties "animation-duration:3s" = Ok ([3000], []).
Proof.
  split.
  - exact (duration_declaration_round_trip " " " " "2500" "ms"
             eq_refl eq_refl eq_refl ltac:(discriminate) ltac:(simpl; lia)
             (or_intror eq_refl)).
  - exact (duration_declaration_round_trip "" "" "3" "s"
             eq_refl eq_refl eq_refl ltac:(discriminate) ltac:(simpl; lia)
             (or_introl eq_refl)).
Defined.

Section ShorthandDeclaration.

Local Open Scope string_scope.

Variables sp1 sp2 w0 : string.
Variable ts : list (string * string * string).
Hypothesis sp1_spaces : all_chars is_space sp1 = true.
Hypothesis sp2_spaces : all_chars is_space sp2 = true.
Hypothesis w0_filler : filler_ok w0.
Hypothesis w0_start : starts_outside is_space w0.
Hypothesis ts_written : Forall written_time ts.
Hypothesis body_nonempty : w0 ++ shorthand_body ts <> "".

Let body : string := w0 ++ shorthand_body ts.

Lemma body_chars (p : ascii -> bool) :
  (forall c, is_digit c = true -> p c = true) ->
  (forall c, is_filler c = true -> p c = true) ->
  p "s"%char = true -> p "m"%char = true ->
  all_chars p body = true.
Proof.
  intros Hd Hf Hs Hm. unfold body. rewrite all_chars_append.
  rewrite (all_chars_impl is_filler p w0 Hf (proj1 w0_filler)).
  now rewrite shorthand_body_chars.
Qed.

Lemma body_start : starts_outside is_space body.
Proof.
  unfold body. destruct w0 as [|c w]; [|exact w0_start].
  cbn [append]. destruct ts_written as [|[[n u] w] ts' (Hn & Hne & _) _];
    [exact I|].
  cbn [shorthand_body]. destruct n as [|c n]; [congruence|].
  cbn [all_digits] in Hn. apply andb_prop in Hn.
  apply (digit_not_letter c (proj1 Hn)).
Qed.

Lemma shorthand_found :
  finditer shorthand_re ("animation" ++ sp1 ++ ":" ++ sp2 ++ body)
  = [[(1%nat, body)]].
Proof.
  assert (Hm : match_at shorthand_re ("animation" ++ sp1 ++ ":" ++ sp2 ++ body)
               = Some ("", [(1%nat, body)])).
  { unfold match_at, shorthand_re. unfold_seq.
    rewrite match_lit_append. cbv beta. unfold_seq. unfold_star.
    apply match_star_greedy; [exact sp1_spaces|reflexivity|].
    unfold_seq. rewrite match_lit_append. cbv beta. unfold_seq. unfold_star.
    apply match_star_greedy; [exact sp2_spaces|exact body_start|].
    unfold_group.
    pose proof (body_chars (none_of ";" "}")
                  (fun c H => proj1 (digit_facts c H))
                  (fun c H => proj1 (filler_facts c H)) eq_refl eq_refl) as Hb.
    fold body in body_nonempty.
    destruct body as [|c b]; [congruence|].
    cbn [all_chars] in Hb. apply andb_prop in Hb. destruct Hb as [Hc Hb].
    change (match_re (Plus ?p) (String c ?s) ?m ?k0)
      with (if p c then match_star p s (fun s'' => k0 s'' m) else None).
    rewrite Hc. apply match_star_all; [exact Hb|].
    now rewrite consumed_all. }
  unfold finditer.
  change ("animation" ++ sp1 ++ ":" ++ sp2 ++ body)
    with (String "a" ("nimation" ++ sp1 ++ ":" ++ sp2 ++ body)) in *.
  now apply finditer_from_whole.
Qed.

Lemma body_time_values :
  findall time_re body = map (fun t => let '(n, u, _) := t in (n, u)) ts.
Proof.
  unfold findall, finditer, body.
  rewrite time_values_skip by exact (proj1 w0_filler).
  rewrite time_values_body by exact ts_written.
  rewrite map_map. apply map_ext. intros [[n u] w]. reflexivity.
Qed.

Lemma text_without_animation :
  occurs_in "animation" ("nimation" ++ sp1 ++ ":" ++ sp2 ++ body) = false.
Proof.
  cbn [append]. rewrite !occurs_in_cons by reflexivity.
  rewrite occurs_in_skip
    by (apply (all_chars_impl is_space); [|exact sp1_spaces];
        intros c Hc; apply (space_not_letter c Hc)).
  change (":" ++ sp2 ++ body) with (String ":" (sp2 ++ body)).
  rewrite occurs_in_cons by reflexivity.
  rewrite occurs_in_skip
    by (apply (all_chars_impl is_space); [|exact sp2_spaces];
        intros c Hc; apply (space_not_letter c Hc)).
  exact (shorthand_body_without_animation ts ts_written w0 w0_filler).
Qed.

Lemma duration_absent :
  finditer duration_re ("animation" ++ sp1 ++ ":" ++ sp2 ++ body) = [].
Proof.
  unfold finditer, duration_re. apply finditer_from_absent.
  change ("animation" ++ sp1 ++ ":" ++ sp2 ++ body)
    with (String "a" ("nimation" ++ sp1 ++ ":" ++ sp2 ++ body)).
  rewrite occurs_in_cons.
  - exact (occurs_in_app "animation" "-duration" _ text_without_animation).
  - change (String "a" ("nimation" ++ sp1 ++ ":" ++ sp2 ++ body))
      with ("animation" ++ (sp1 ++ ":" ++ sp2 ++ body)).
    change "animation-duration" with ("animation" ++ "-duration").
    assert (Hcut : forall a b s, strip_prefix (a ++ b) (a ++ s) = strip_prefix b s).
    { intros a b s. induction a as [|x a IH]; simpl; [reflexivity|].
      now rewrite Ascii.eqb_refl. }
    rewrite Hcut. apply strip_prefix_outside.
    destruct sp1 as [|c sp]; [reflexivity|].
    cbn [all_chars] in sp1_spaces. apply andb_prop in sp1_spaces.
    apply (space_not_hyphen c (proj1 sp1_spaces)).
Qed.

Lemma smil_absent_shorthand :
  finditer smil_re ("animation" ++ sp1 ++ ":" ++ sp2 ++ body) = [].
Proof.
  unfold finditer, smil_re. apply finditer_from_absent.
  apply occurs_in_first_char.
  rewrite !all_chars_append.
  rewrite (all_chars_impl is_space _ sp1
             (fun c H => proj2 (space_not_letter c H)) sp1_spaces).
  rewrite (all_chars_impl is_space _ sp2
             (fun c H => proj2 (space_not_letter c H)) sp2_spaces).
  rewrite (body_chars _ (fun c H => proj1 (proj2 (digit_facts c H)))
             (fun c H => proj1 (proj2 (filler_facts c H))) eq_refl eq_refl).
  reflexivity.
Qed.

End ShorthandDeclaration.

(** X18: of a shorthand declaration [animation: ...] made of words and of
    time-values, the first time-value is extracted as the duration and
    the second, when there is one, as the delay, each in milliseconds;
    further time-values are ignored, and a declaration without a
    time-value gives nothing. *)
Theorem shorthand_declaration_round_trip
    (sp1 sp2 w0 : string) (ts : list (string * string * string)) :
  all_chars is_space sp1 = true -> all_chars is_space sp2 = true ->
  filler_ok w0 -> starts_outside is_space w0 ->
  Forall written_time ts ->
  (w0 ++ shorthand_body ts)%string <> EmptyString ->
  parse_animation_properties
    ("animation" ++ sp1 ++ ":" ++ sp2 ++ w0 ++ shorthand_body ts)
  = Ok (firstn 1 (map written_ms ts), firstn 1 (skipn 1 (map written_ms ts))).
Proof.
  intros H1 H2 Hw0 Hs0 Hts Hne. unfold parse_animation_properties.
  rewrite (shorthand_found sp1 sp2 w0 ts H1 H2 Hw0 Hs0 Hts Hne).
  rewrite (duration_absent sp1 sp2 w0 ts H1 H2 Hw0 Hts).
  rewrite (smil_absent_shorthand sp1 sp2 w0 ts H1 H2 Hw0 Hts).
  cbn [for_each bind]. unfold shorthand_step. cbn [group Nat.eqb].
  rewrite (body_time_values w0 ts Hw0 Hts).
  destruct Hts as [|[[n0 u0] w] ts0 Ht0 Hts]; [reflexivity|].
  cbn [map]. rewrite (to_ms_written n0 u0 w Ht0). cbn [bind app].
  destruct Hts as [|[[n1 u1] w'] ts1 Ht1 Hts]; [reflexivity|].
  cbn [map]. rewrite (to_ms_written n1 u1 w' Ht1). reflexivity.
Qed.

Lemma shorthand_declaration_round_trip_witness :
  parse_animation_properties "animation: spin 1s linear 250ms infinite"
  = Ok ([1000], [250]) /\
  parse_animation_properties "animation : pulse 2s ease-in-out"
  = Ok ([2000], []) /\
  parse_animation_properties "animation:none" = Ok ([], []).
Proof.
  assert (H1 : Forall written_time
                 [("1", "s", " linear "); ("250", "ms", " infinite")]%string).
  { repeat (apply Forall_cons;
            [repeat split;
             first [reflexivity | discriminate | (simpl; lia)
                   | (left; reflexivity) | (right; reflexivity)]|]).
    apply Forall_nil. }
  assert (H2 : Forall written_time [("2", "s", " ease-in-out")]%string).
  { repeat (apply Forall_cons;
            [repeat split;
             first [reflexivity | discriminate | (simpl; lia)
                   | (left; reflexivity) | (right; reflexivity)]|]).
    apply Forall_nil. }
  split; [|split].
  - exact (shorthand_declaration_round_trip "" " " "spin " _
             eq_refl eq_refl (conj eq_refl eq_refl) eq_refl H1
             ltac:(discriminate)).
  - exact (shorthand_declaration_round_trip " " " " "pulse " _
             eq_refl eq_refl (conj eq_refl eq_refl) eq_refl H2
             ltac:(discriminate)).
  - exact (shorthand_declaration_round_trip "" "" "none" []
             eq_refl eq_refl (conj eq_refl eq_refl) eq_refl (Forall_nil _)
             ltac:(discriminate)).
Defined.

Section SmilElement.

Local Open Scope string_scope.

Variables attrs n u r1 r2 : string.
Hypothesis attrs_inside : all_chars inside_tag attrs = true.
Hypothesis attrs_plain : occurs_in "animation" attrs = false.
Hypothesis n_digits : all_digits n = true.
Hypothesis n_nonempty : n <> "".
Hypothesis u_unit : u = "s" \/ u = "ms".
Hypothesis r1_no_dur : occurs_in ("dur=" ++ dquote) r1 = false.
Hypothesis rest_plain : occurs_in "animation" (r1 ++ ">" ++ r2) = false.
Hypothesis rest_last : occurs_in "<animate" (r1 ++ ">" ++ r2) = false.

Let value : string := n ++ u ++ dquote ++ r1 ++ ">" ++ r2.

Lemma value_without_dur :
  occurs_in ("dur=" ++ dquote) ("ur=" ++ dquote ++ n ++ u ++ dquote ++ r1) = false.
Proof.
  replace ("ur=" ++ dquote ++ n ++ u ++ dquote ++ r1)
    with (("ur=" ++ dquote ++ n ++ u ++ dquote) ++ r1)
    by (now rewrite !append_assoc).
  change ("dur=" ++ dquote) with (String "d" ("ur=" ++ dquote)) in *.
  rewrite occurs_in_skip; [exact r1_no_dur|].
  rewrite !all_chars_append.
  rewrite (all_chars_impl is_digit _ n) by
    (try (now rewrite all_chars_digits);
     intros c H; destruct c as [[] [] [] [] [] [] [] []];
     first [discriminate H | reflexivity]).
  destruct u_unit as [-> | ->]; reflexivity.
Qed.

Lemma smil_match :
  match_at smil_re ("<animate" ++ attrs ++ "dur=" ++ dquote ++ value)
  = Some (r1 ++ ">" ++ r2, [(2%nat, u); (1%nat, n)]).
Proof.
  unfold match_at, smil_re. unfold_seq.
  rewrite match_lit_append. cbv beta. unfold_seq. unfold_star.
  fold inside_tag.
  apply match_star_prefix; [exact attrs_inside|].
  change ("dur=" ++ dquote ++ value) with (String "d" ("ur=" ++ dquote ++ value)).
  rewrite match_star_cons by reflexivity.
  replace ("ur=" ++ dquote ++ value)
    with (("ur=" ++ dquote ++ n ++ u ++ dquote ++ r1) ++ String ">" r2)
    by (unfold value; now rewrite !append_assoc).
  rewrite (match_star_none inside_tag _ ("dur=" ++ dquote)).
  - replace (String "d" (("ur=" ++ dquote ++ n ++ u ++ dquote ++ r1) ++ String ">" r2))
      with (("dur=" ++ dquote) ++ n ++ u ++ dquote ++ r1 ++ ">" ++ r2)
      by (now rewrite !append_assoc).
    unfold_seq. rewrite match_lit_append. cbv beta. unfold_seq.
    apply match_time_re_complete; try assumption.
    now rewrite match_lit_append.
  - intros t Ht. unfold_seq. cbn [match_re]. now rewrite Ht.
  - reflexivity.
  - reflexivity.
  - exact value_without_dur.
Qed.

Lemma smil_found :
  finditer smil_re ("<animate" ++ attrs ++ "dur=" ++ dquote ++ value)
  = [[(2%nat, u); (1%nat, n)]].
Proof.
  unfold finditer.
  replace ("<animate" ++ attrs ++ "dur=" ++ dquote ++ value)
    with (("<animate" ++ attrs ++ "dur=" ++ dquote ++ n ++ u ++ dquote)
          ++ (r1 ++ ">" ++ r2))
    by (unfold value; now rewrite !append_assoc).
  rewrite (finditer_from_match smil_re _ _ [(2%nat, u); (1%nat, n)]).
  - f_equal. unfold smil_re. now apply finditer_from_absent.
  - discriminate.
  - replace (("<animate" ++ attrs ++ "dur=" ++ dquote ++ n ++ u ++ dquote)
             ++ r1 ++ ">" ++ r2)
      with ("<animate" ++ attrs ++ "dur=" ++ dquote ++ value)
      by (unfold value; now rewrite !append_assoc).
    exact smil_match.
Qed.

Lemma smil_text_plain :
  occurs_in "animation" ("<animate" ++ attrs ++ "dur=" ++ dquote ++ value) = false.
Proof.
  cbn [append]. rewrite !occurs_in_cons by reflexivity.
  change (String "d" ?x) with (String "d" x).
  rewrite occurs_in_separator; [|reflexivity|exact attrs_plain].
  rewrite !occurs_in_cons by reflexivity.
  unfold value.
  replace (dquote ++ n ++ u ++ dquote ++ r1 ++ ">" ++ r2)
    with ((dquote ++ n ++ u ++ dquote) ++ (r1 ++ ">" ++ r2))
    by (now rewrite !append_assoc).
  rewrite (occurs_in_skip "a" "nimation" (dquote ++ n ++ u ++ dquote)
             (r1 ++ ">" ++ r2)); [exact rest_plain|].
  rewrite !all_chars_append.
  rewrite (all_chars_impl is_digit _ n) by
    (try (now rewrite all_chars_digits);
     intros c H; apply (digit_facts c H)).
  destruct u_unit as [-> | ->]; reflexivity.
Qed.

End SmilElement.

(** X19: an element [<animate ... dur="..."], whatever its other attributes,
    whose [dur] is a numeral of at most twelve digits and a unit, gives
    one duration, this number in milliseconds, and no delay. *)
Theorem smil_duration_round_trip (attrs n u r1 r2 : string) :
  all_chars inside_tag attrs = true -> occurs_in "animation" attrs = false ->
  all_digits n = true -> n <> ""%string -> (String.length n <= 12)%nat ->
  u = "s"%string \/ u = "ms"%string ->
  occurs_in ("dur=" ++ dquote) r1 = false ->
  occurs_in "animation" (r1 ++ ">" ++ r2) = false ->
  occurs_in "<animate" (r1 ++ ">" ++ r2) = false ->
  parse_animation_properties
    ("<animate" ++ attrs ++ "dur=" ++ dquote ++ n ++ u ++ dquote ++ r1 ++ ">" ++ r2)
  = Ok ([digits_value 0 n * (if String.eqb u "s" then 1000 else 1)], []).
Proof.
  intros Ha1 Ha2 Hn Hne Hlen Hu Hr2 Hr3 Hr4.
  pose proof (smil_text_plain attrs n u r1 r2 Ha2 Hn Hu Hr3) as Hplain.
  unfold parse_animation_properties, finditer in *.
  unfold shorthand_re. rewrite finditer_from_absent by exact Hplain.
  unfold duration_re. rewrite finditer_from_absent
    by (exact (occurs_in_app "animation" "-duration" _ Hplain)).
  fold (finditer smil_re
          ("<animate" ++ attrs ++ "dur=" ++ dquote ++ n ++ u ++ dquote
           ++ r1 ++ ">" ++ r2)).
  rewrite (smil_found attrs n u r1 r2 Ha1 Hn Hne Hu Hr2 Hr4).
  cbn [for_each bind duration_step group Nat.eqb].
  rewrite (to_ms_exact n u Hn Hne Hlen Hu). reflexivity.
Qed.

Lemma smil_duration_round_trip_witness :
  parse_animation_properties
    ("<animate"
     ++ (" attributeName=" ++ dquote ++ "r" ++ dquote ++ " ")
     ++ "dur=" ++ dquote ++ "2" ++ "s" ++ dquote
     ++ (" repeatCount=" ++ dquote ++ "indefinite" ++ dquote ++ "/")
     ++ ">" ++ "</circle>")
  = Ok ([2000], []).
Proof.
  exact (smil_duration_round_trip
           (" attributeName=" ++ dquote ++ "r" ++ dquote ++ " ") "2" "s"
           (" repeatCount=" ++ dquote ++ "indefinite" ++ dquote ++ "/")
           "</circle>"
           eq_refl eq_refl eq_refl ltac:(discriminate) ltac:(simpl; lia)
           (or_introl eq_refl) eq_refl eq_refl eq_refl).
Defined.

(** ** Output names and source names *)

Section OutputNames.

Local Open Scope string_scope.

Lemma append_last_char (a b : string) (c d : ascii) :
  a ++ String c "" = b ++ String d "" -> c = d.
Proof.
  revert b. induction a as [|x a IH]; intros [|y b] H; simpl in H.
  - now injection H.
  - injection H as _ H. destruct b; discriminate.
  - injection H as _ H. destruct a; discriminate.
  - injection H as _ H. now apply IH in H.
Qed.

Lemma append_cancel_r (a b c : string) : a ++ c = b ++ c -> a = b.
Proof.
  revert b. induction a as [|x a IH]; intros [|y b] H; simpl in H.
  - reflexivity.
  - apply (f_equal String.length) in H. simpl in H. rewrite length_append in H. lia.
  - apply (f_equal String.length) in H. simpl in H. rewrite length_append in H. lia.
  - injection H as -> H. f_equal. now apply IH.
Qed.

(** X8: the name of an output file ends in [.webp], so it is never the
    name of a document that the listing [*-animated.svg] finds: no
    conversion overwrites a source document. *)
Theorem output_name_not_a_source (svg_name base : string) :
  String.eqb (output_name svg_name) (base ++ "-animated.svg") = false.
Proof.
  apply String.eqb_neq. unfold output_name. intros H.
  change ".webp" with (".web" ++ "p") in H.
  change "-animated.svg" with ("-animated.sv" ++ "g") in H.
  rewrite <- !append_assoc in H.
  apply append_last_char in H. discriminate.
Qed.

(** X9: two different documents whose base names hold the marker nowhere
    are written to different output files. *)
Theorem output_name_distinct (base1 base2 : string) :
  occurs_in "-animated" (base1 ++ "-animate") = false ->
  occurs_in "-animated" (base2 ++ "-animate") = false ->
  base1 <> base2 ->
  output_name (base1 ++ "-animated.svg") <> output_name (base2 ++ "-animated.svg").
Proof.
  intros H1 H2 Hne. unfold output_name, icon_name.
  rewrite !stem_animated_svg, !replace_marker_suffix by assumption.
  intros H. apply Hne. now apply append_cancel_r in H.
Qed.

End OutputNames.

Lemma output_name_distinct_witness :
  occurs_in "-animated" ("fire" ++ "-animate") = false /\
  occurs_in "-animated" ("ice" ++ "-animate") = false /\
  "fire"%string <> "ice"%string /\
  output_name "fire-animated.svg" <> output_name "ice-animated.svg".
Proof.
  split; [reflexivity|]. split; [reflexivity|]. split; [discriminate|].
  exact (output_name_distinct "fire" "ice" eq_refl eq_refl ltac:(discriminate)).
Defined.

(** ** The effects of a conversion *)

Lemma subsequence_none {A : Type} (l : list A) : subsequence [] l.
Proof. induction l; constructor; assumption. Qed.

Lemma attempted_app (a b : list line) :
  attempted (a ++ b) = (attempted a ++ attempted b)%list.
Proof. apply flat_map_app. Qed.

Lemma render_trace_attempted (output_path : string) (l : list line) (m : list string) :
  render_trace output_path l m ->
  attempted l = [] /\ (m = [] \/ m = [output_path]).
Proof.
  intros [[-> ->]|[(p & -> & Hm)|(p & n & kb & -> & ->)]]; simpl; auto.
Qed.

Section Effects.

Variables E frame : Type.
Variable list_of_set : list Z -> list Z.
Variable caps : capabilities E frame.

Lemma silent_ret {A : Type} (a : A) : silent (@ret E A a).
Proof. intros w r w' H. now injection H as <- <-. Qed.

Lemma silent_lift {A : Type} (r : result A) : silent (@lift E A r).
Proof. intros w r' w' H. unfold lift in H. destruct r; now injection H as <- <-. Qed.

Lemma silent_call {A : Type} (f : E -> outcome A * E) : silent (call f).
Proof.
  intros w r w' H. unfold call in H. destruct (f (ext w)) as [r0 e0].
  now injection H as <- <-.
Qed.

Lemma silent_bind {A B : Type} (c : io E A) (k : A -> io E B) :
  silent c -> (forall a, silent (k a)) -> silent (io_bind c k).
Proof.
  intros Hc Hk w r w' H. apply io_bind_cases in H.
  destruct H as [(a & w1 & H1 & H2)|(_ & r0 & H1)].
  - destruct (Hk a _ _ _ H2) as [-> ->]. exact (Hc _ _ _ H1).
  - exact (Hc _ _ _ H1).
Qed.

Lemma silent_capture_frames (start : Z) (indices : list Z) :
  forall frames, silent (capture_frames caps start indices frames).
Proof.
  induction indices as [|i rest IH]; intros frames; cbn [capture_frames].
  - apply silent_ret.
  - apply silent_bind; [apply silent_lift|]. intros t_ms.
    apply silent_bind; [apply silent_lift|]. intros t_sec.
    apply silent_bind; [apply silent_call|]. intros img.
    apply IH.
Qed.

Ltac bind_cases H a w1 H1 :=
  apply io_bind_cases in H;
  destruct H as [(a & w1 & H1 & H)|(_ & ? & H1)].

(** X10: the loop over the frames returns the frames in the order of the
    indices, behind the frames it was given: the frame of an index is the
    screenshot taken at the sample time of the index, handed over in
    milliseconds and in seconds.  The loop prints nothing and writes no
    file. *)
Theorem capture_frames_in_order (start : Z) (indices : list Z) :
  forall (acc frames : list frame) (w w' : world E),
    capture_frames caps start indices acc w = (Returned frames, w') ->
    exists imgs,
      frames = (acc ++ imgs)%list /\
      Forall2 (fun i img =>
                 exists t_ms t_sec e e',
                   sample_time start i = Ok t_ms /\
                   float_div t_ms (Finite 1000) = Ok t_sec /\
                   capture caps t_ms t_sec e = (Returned img, e'))
              indices imgs /\
      stdout w' = stdout w /\ written w' = written w.
Proof.
  induction indices as [|i rest IH]; intros acc frames w w' H.
  - cbn [capture_frames] in H. injection H as <- <-. exists [].
    rewrite app_nil_r. repeat split. constructor.
  - pose proof (silent_capture_frames start (i :: rest) acc _ _ _ H) as [Hs Hw].
    cbn [capture_frames] in H.
    apply io_bind_returned in H. destruct H as (t_ms & w1 & H1 & H).
    apply io_bind_returned in H. destruct H as (t_sec & w2 & H2 & H).
    apply io_bind_returned in H. destruct H as (img & w3 & H3 & H).
    apply lift_returned in H1. destruct H1 as [Et ->].
    apply lift_returned in H2. destruct H2 as [Es ->].
    apply call_cases in H3. destruct H3 as (Ec & _ & _).
    apply IH in H. destruct H as (imgs & -> & Hall & _ & _).
    exists (img :: imgs). rewrite <- app_assoc. split; [reflexivity|].
    split; [|now split]. constructor; [|exact Hall].
    exists t_ms, t_sec, (ext w), (ext w3).
    split; [exact Et|]. split; [exact Es|exact Ec].
Qed.

(** The effects of a conversion, whatever its outcome. *)
Lemma render_effects (svg_path output_path : string) (w w' : world E)
    (r : outcome unit) :
  render_svg_to_webp list_of_set caps svg_path output_path w = (r, w') ->
  exists l m,
    stdout w' = (stdout w ++ l)%list /\ written w' = (written w ++ m)%list /\
    render_trace output_path l m.
Proof.
  unfold render_svg_to_webp. intros H.
  assert (T0 : render_trace output_path [] []) by (left; now split).
  bind_cases H svg_content w1 H1; apply call_cases in H1;
    destruct H1 as (_ & S1 & W1);
    [|exists [], []; rewrite !app_nil_r; auto].
  bind_cases H p w2 H2; apply lift_cases in H2; destruct H2 as (-> & _);
    [|exists [], []; rewrite !app_nil_r; auto].
  assert (T1 : render_trace output_path [PlanLine p] []).
  { right; left. exists p. auto. }
  bind_cases H u3 w3 H3; injection H3 as _ <-;
    [|exists [PlanLine p], []; cbn [stdout written printed];
      rewrite S1, W1, app_nil_r; auto].
  bind_cases H u4 w4 H4; apply call_cases in H4;
    destruct H4 as (_ & S4 & W4); cbn [stdout written] in S4, W4;
    [|exists [PlanLine p], []; rewrite S4, W4, S1, W1, app_nil_r; auto].
  bind_cases H frames w5 H5;
    apply silent_capture_frames in H5; destruct H5 as (S5 & W5);
    [|exists [PlanLine p], []; rewrite S5, W5, S4, W4, S1, W1, app_nil_r; auto].
  assert (S : stdout w5 = (stdout w ++ [PlanLine p])%list)
    by (now rewrite S5, S4, S1).
  assert (W : written w5 = written w) by (now rewrite W5, W4, W1).
  clear S1 W1 S4 W4 S5 W5.
  destruct frames as [|f frames].
  { injection H as _ <-. exists [PlanLine p], []. rewrite S, W, app_nil_r. auto. }
  bind_cases H frame_ms w6 H6; apply lift_cases in H6; destruct H6 as (-> & _);
    [|exists [PlanLine p], []; rewrite S, W, app_nil_r; auto].
  bind_cases H duration w7 H7; apply lift_cases in H7; destruct H7 as (-> & _);
    [|exists [PlanLine p], []; rewrite S, W, app_nil_r; auto].
  bind_cases H u8 w8 H8; apply call_cases in H8; destruct H8 as (_ & S8 & W8);
    [|exists [PlanLine p], []; rewrite S8, W8, S, W, app_nil_r; auto].
  assert (T2 : render_trace output_path [PlanLine p] [output_path]).
  { right; left. exists p. auto. }
  bind_cases H u9 w9 H9; injection H9 as _ <-;
    [|exists [PlanLine p], [output_path]; cbn [stdout written];
      rewrite S8, W8, S, W; auto].
  bind_cases H size w10 H10; apply call_cases in H10;
    destruct H10 as (_ & S10 & W10); cbn [stdout written] in S10, W10;
    [|exists [PlanLine p], [output_path]; rewrite S10, W10, S8, W8, S, W; auto].
  bind_cases H size_kb w11 H11; apply lift_cases in H11; destruct H11 as (-> & _);
    [|exists [PlanLine p], [output_path]; rewrite S10, W10, S8, W8, S, W; auto].
  injection H as _ <-.
  exists [PlanLine p; SavedLine output_path (List.length (f :: frames)) size_kb],
         [output_path].
  cbn [stdout written]. rewrite S10, W10, S8, W8, S, W, <- app_assoc.
  split; [reflexivity|]. split; [reflexivity|].
  right; right. now exists p, (List.length (f :: frames)), size_kb.
Qed.

(** X11: whatever the outcome of a conversion, also when it raises or is
    interrupted, it has written at most the output file and printed at
    most two lines, the plan line and the line that reports the file. *)
Theorem render_writes_only_output (svg_path output_path : string)
    (w w' : world E) (r : outcome unit) :
  render_svg_to_webp list_of_set caps svg_path output_path w = (r, w') ->
  (written w' = written w \/ written w' = (written w ++ [output_path])%list) /\
  exists l, stdout w' = (stdout w ++ l)%list /\ (List.length l <= 2)%nat /\
            forallb is_render_line l = true.
Proof.
  intros H. destruct (render_effects _ _ _ _ _ H) as (l & m & Hl & Hm & Ht).
  destruct Ht as [[-> ->]|[(p & -> & Hm')|(p & n & kb & -> & ->)]].
  - rewrite app_nil_r in Hm. split; [now left|]. exists []. simpl. auto.
  - split.
    + destruct Hm' as [->| ->]; [rewrite app_nil_r in Hm; now left|now right].
    + exists [PlanLine p]. simpl. auto.
  - split; [now right|]. eexists. split; [exact Hl|]. simpl. auto.
Qed.

(** X12: a conversion that returns has printed the plan line and, when the
    plan has a frame, has saved as many frames as the plan counts under
    the output path, with a frame duration of 50 ms, and has then printed
    the line that reports the file and this number of frames. *)
Theorem render_saves_all_frames (svg_path output_path : string) (w w' : world E) :
  render_svg_to_webp list_of_set caps svg_path output_path w = (Returned tt, w') ->
  exists svg_content p,
    fst (read_text caps svg_path (ext w)) = Returned svg_content /\
    sample_plan list_of_set svg_content = Ok p /\
    if 0 <? num_frames p then
      exists frames e e' size_kb,
        List.length frames = Z.to_nat (num_frames p) /\
        save caps output_path frames 50 e = (Returned tt, e') /\
        stdout w'
        = (stdout w ++ [PlanLine p;
                        SavedLine output_path (Z.to_nat (num_frames p)) size_kb])%list
    else stdout w' = (stdout w ++ [PlanLine p])%list.
Proof.
  unfold render_svg_to_webp. intros H.
  apply io_bind_returned in H. destruct H as (svg_content & w1 & H1 & H).
  apply io_bind_returned in H. destruct H as (p & w2 & H2 & H).
  apply io_bind_returned in H. destruct H as ([] & w3 & H3 & H).
  apply io_bind_returned in H. destruct H as ([] & w4 & H4 & H).
  apply io_bind_returned in H. destruct H as (frames & w5 & H5 & H).
  exists svg_content, p.
  apply call_cases in H1. destruct H1 as (R1 & S1 & _).
  apply lift_returned in H2. destruct H2 as (R2 & ->).
  injection H3 as <-.
  apply call_cases in H4. destruct H4 as (_ & S4 & _). cbn [stdout] in S4.
  pose proof (capture_frames_length _ _ _ _ _ _ _ _ _ H5) as Hlen.
  rewrite range_length in Hlen. cbn [List.length Nat.add] in Hlen.
  apply silent_capture_frames in H5. destruct H5 as (S5 & _).
  assert (S : stdout w5 = (stdout w ++ [PlanLine p])%list)
    by (now rewrite S5, S4, S1).
  rewrite R1. split; [reflexivity|]. split; [exact R2|].
  destruct frames as [|f frames].
  - injection H as <-. cbn [List.length] in Hlen.
    replace (0 <? num_frames p) with false by (symmetry; apply Z.ltb_ge; lia).
    exact S.
  - cbn [List.length] in Hlen.
    replace (0 <? num_frames p) with true by (symmetry; apply Z.ltb_lt; lia).
    apply io_bind_returned in H. destruct H as (frame_ms & w6 & H6 & H).
    apply io_bind_returned in H. destruct H as (duration & w7 & H7 & H).
    apply io_bind_returned in H. destruct H as ([] & w8 & H8 & H).
    apply io_bind_returned in H. destruct H as ([] & w9 & H9 & H).
    apply io_bind_returned in H. destruct H as (size & w10 & H10 & H).
    apply io_bind_returned in H. destruct H as (size_kb & w11 & H11 & H).
    apply lift_returned in H6. destruct H6 as (R6 & ->).
    rewrite FRAME_MS_value in R6. injection R6 as <-.
    apply lift_returned in H7. destruct H7 as (R7 & ->).
    assert (Hd : duration = 50) by (vm_compute in R7; now injection R7 as <-).
    subst duration.
    apply call_cases in H8. destruct H8 as (R8 & S8 & _).
    injection H9 as <-.
    apply call_cases in H10. destruct H10 as (_ & S10 & _). cbn [stdout] in S10.
    apply lift_returned in H11. destruct H11 as (_ & ->).
    injection H as <-.
    exists (f :: frames), (ext w5), (ext w8), size_kb.
    split; [exact Hlen|]. split; [exact R8|].
    cbn [stdout List.length]. rewrite S10, S8, S, <- app_assoc, <- Hlen.
    reflexivity.
Qed.

(** ** The batch as a whole *)

Lemma convert_effects (svg_name : string) (w w' : world E) (r : outcome unit) :
  convert_one list_of_set caps svg_name w = (r, w') ->
  exists l m,
    stdout w' = (stdout w ++ ConvertingLine (icon_name svg_name) svg_name :: l)%list /\
    written w' = (written w ++ m)%list /\
    attempted l = [] /\ (m = [] \/ m = [output_name svg_name]) /\
    (r = Returned tt \/ r = Interrupted).
Proof.
  unfold convert_one, io_bind, try_except.
  change (print (ConvertingLine (icon_name svg_name) svg_name) w)
    with (Returned tt, printed (ConvertingLine (icon_name svg_name) svg_name) w).
  cbv beta iota.
  destruct (render_svg_to_webp list_of_set caps svg_name (output_name svg_name)
              (printed (ConvertingLine (icon_name svg_name) svg_name) w))
    as [[[]|e|] w1] eqn:Er;
    destruct (render_effects _ _ _ _ _ Er) as (l & m & Hl & Hm & Ht);
    destruct (render_trace_attempted _ _ _ Ht) as [Ha Hm'];
    cbn [printed stdout written] in Hl, Hm; intros H; injection H as <- <-.
  - exists (l ++ [BlankLine])%list, m. cbn [print stdout written].
    rewrite Hl, Hm, <- !app_assoc, attempted_app, Ha. cbn. auto 6.
  - exists (l ++ [ErrorLine e; BlankLine])%list, m. cbn [print stdout written].
    rewrite Hl, Hm, <- !app_assoc, attempted_app, Ha. cbn. auto 6.
  - exists l, m. rewrite Hl, Hm, <- !app_assoc. cbn. auto 6.
Qed.

Lemma for_each_effects (files : list string) :
  forall (w w' : world E) (r : outcome unit),
    io_for_each files (convert_one list_of_set caps) w = (r, w') ->
    exists l m,
      stdout w' = (stdout w ++ l)%list /\
      written w' = (written w ++ m)%list /\
      subsequence m (map output_name files) /\
      ((r = Returned tt /\ attempted l = files) \/
       (r = Interrupted /\ exists rest, files = (attempted l ++ rest)%list)).
Proof.
  induction files as [|f files IH]; intros w w' r H; cbn [io_for_each] in H.
  - injection H as <- <-. exists [], []. rewrite !app_nil_r.
    repeat split; [constructor|]. now left.
  - unfold io_bind in H.
    destruct (convert_one list_of_set caps f w) as [[[]|e|] w1] eqn:Ec;
      destruct (convert_effects _ _ _ _ Ec) as (l & m & Hl & Hm & Ha & Hm' & Hr).
    + apply IH in H. destruct H as (l2 & m2 & Hl2 & Hm2 & Hs2 & Hr2).
      exists (ConvertingLine (icon_name f) f :: l ++ l2)%list, (m ++ m2)%list.
      rewrite Hl2, Hm2, Hl, Hm, <- !app_assoc. cbn [app].
      split; [reflexivity|]. split; [reflexivity|]. split.
      * cbn [map]. destruct Hm' as [->| ->]; cbn [app];
          [now apply subsequence_skip|now apply subsequence_take].
      * change (attempted (ConvertingLine (icon_name f) f :: l ++ l2))
          with (f :: attempted (l ++ l2)).
        rewrite attempted_app, Ha. cbn [app].
        destruct Hr2 as [[-> ->]|[-> [rest ->]]]; [now left|].
        right. split; [reflexivity|]. now exists rest.
    + destruct Hr; discriminate.
    + injection H as <- <-.
      exists (ConvertingLine (icon_name f) f :: l), m.
      split; [exact Hl|]. split; [exact Hm|]. split.
      * cbn [map]. destruct Hm' as [->| ->].
        -- apply subsequence_none.
        -- apply subsequence_take, subsequence_none.
      * right. split; [reflexivity|].
        change (attempted (ConvertingLine (icon_name f) f :: l))
          with (f :: attempted l).
        rewrite Ha. now exists files.
Qed.

(** The effects of the block of [main], whatever its outcome: the launch
    has not returned and nothing has been printed or written; or a
    conversion has been interrupted; or every document has been attempted
    and the outcome is the one of [browser.close()]. *)
Lemma session_effects (files : list string) (w w' : world E) (r : outcome unit) :
  browser_session list_of_set caps files w = (r, w') ->
  exists l m,
    stdout w' = (stdout w ++ l)%list /\
    written w' = (written w ++ m)%list /\
    subsequence m (map output_name files) /\
    ((launch caps (ext w) = (r, ext w') /\ r <> Returned tt /\ l = [] /\ m = []) \/
     (r = Interrupted /\ fst (launch caps (ext w)) = Returned tt /\
      exists rest, files = (attempted l ++ rest)%list) \/
     (fst (launch caps (ext w)) = Returned tt /\ attempted l = files /\
      exists e3, close caps e3 = (r, ext w'))).
Proof.
  unfold browser_session, io_bind, call.
  destruct (launch caps (ext w)) as [[[]|e0|] e2] eqn:El; cbn [fst].
  - match goal with
    | |- context [io_for_each files ?c ?w0] =>
        destruct (io_for_each files c w0) as [[[]|e0|] w2] eqn:Ef
    end;
      destruct (for_each_effects _ _ _ _ Ef) as (l & m & Hl & Hm & Hs & Hr);
      cbn [ext stdout written] in Hl, Hm.
    + destruct Hr as [[_ Ha]|[Hr _]]; [|discriminate].
      destruct (close caps (ext w2)) as [r3 e3] eqn:Ec.
      intros H. injection H as <- <-. exists l, m. cbn [ext stdout written].
      split; [exact Hl|]. split; [exact Hm|]. split; [exact Hs|].
      right; right. split; [reflexivity|]. split; [exact Ha|]. now exists (ext w2).
    + destruct Hr as [[Hr _]|[Hr _]]; discriminate.
    + destruct Hr as [[Hr _]|[_ Hrest]]; [discriminate|].
      intros H. injection H as <- <-. exists l, m.
      split; [exact Hl|]. split; [exact Hm|]. split; [exact Hs|].
      right; left. auto.
  - intros H. injection H as <- <-. exists [], []. cbn [ext stdout written].
    rewrite !app_nil_r. split; [reflexivity|]. split; [reflexivity|].
    split; [apply subsequence_none|]. left.
    split; [reflexivity|]. split; [discriminate|]. now split.
  - intros H. injection H as <- <-. exists [], []. cbn [ext stdout written].
    rewrite !app_nil_r. split; [reflexivity|]. split; [reflexivity|].
    split; [apply subsequence_none|]. left.
    split; [reflexivity|]. split; [discriminate|]. now split.
Qed.

(** X13: with no document in the directory, [main] still starts
    Playwright and the browser, closes the browser, stops Playwright and
    returns: it prints that it found none and that it is done, and writes
    nothing. *)
Theorem main_empty_directory (w : world E) (e1 e2 e3 e4 e5 : E) :
  glob_animated caps (ext w) = (Returned [], e1) ->
  start caps e1 = (Returned tt, e2) ->
  launch caps e2 = (Returned tt, e3) ->
  close caps e3 = (Returned tt, e4) ->
  stop caps e4 = (Returned tt, e5) ->
  main list_of_set caps w
  = (Returned tt,
     {| ext := e5; stdout := (stdout w ++ [FoundLine 0; DoneLine])%list;
        written := written w |}).
Proof.
  intros Hg Hs Hl Hc Hx.
  unfold main, async_with, browser_session, io_bind, call, print. rewrite Hg.
  cbn [ext stdout written]. rewrite Hs. cbn [ext stdout written]. rewrite Hl.
  cbn [io_for_each ret ext stdout written].
  rewrite Hc. cbn [ext stdout written]. rewrite Hx.
  cbn [after_exit ext stdout written List.length]. now rewrite <- app_assoc.
Qed.

(** X14: an exception leaves [main] only from the listing of the
    directory, from the start of Playwright, from the launch of the
    browser, from its close or from the stop of Playwright; none comes
    from a conversion.  When the start fails, only the line with the
    number of documents has been printed and no file has been written;
    when the launch fails, the same holds and Playwright has been
    stopped; when the close fails, every document has been attempted and
    Playwright has been stopped. *)
Theorem main_raises_only_at_setup (w w' : world E) (e : exn) :
  main list_of_set caps w = (Raised e, w') ->
  fst (glob_animated caps (ext w)) = Raised e \/
  (exists e1,
     snd (glob_animated caps (ext w)) = e1 /\
     fst (start caps e1) = Raised e /\
     stdout w' = (stdout w ++ [FoundLine (List.length (found caps w))])%list /\
     written w' = written w) \/
  (exists e1 e2 e3,
     snd (glob_animated caps (ext w)) = e1 /\
     start caps e1 = (Returned tt, e2) /\
     launch caps e2 = (Raised e, e3) /\
     stop caps e3 = (Returned tt, ext w') /\
     stdout w' = (stdout w ++ [FoundLine (List.length (found caps w))])%list /\
     written w' = written w) \/
  (exists e3 e4 l,
     close caps e3 = (Raised e, e4) /\
     stop caps e4 = (Returned tt, ext w') /\
     stdout w' = (stdout w ++ FoundLine (List.length (found caps w)) :: l)%list /\
     attempted l = found caps w) \/
  (exists e4 l,
     fst (stop caps e4) = Raised e /\
     stdout w' = (stdout w ++ FoundLine (List.length (found caps w)) :: l)%list).
Proof.
  unfold main, io_bind, async_with, call, print, found.
  destruct (glob_animated caps (ext w)) as [[files|e0|] e1] eqn:Eg;
    cbn [fst snd ext stdout written].
  2: { intros H. injection H as <- <-. now left. }
  2: discriminate.
  destruct (start caps e1) as [[[]|e0|] e2] eqn:Es; cbn [ext stdout written].
  2: { intros H. injection H as <- <-. right; left. exists e1.
       rewrite Es. auto. }
  2: discriminate.
  match goal with
  | |- context [browser_session _ _ files ?w0] =>
      destruct (browser_session list_of_set caps files w0) as [o w2] eqn:Eb
  end.
  destruct (session_effects _ _ _ _ Eb) as (l & m & Hl & Hm & _ & Hcase).
  cbn [ext stdout written] in Hl, Hm, Hcase.
  destruct (stop caps (ext w2)) as [x e4] eqn:Ex.
  destruct x as [[]|ex|]; cbn [after_exit].
  - destruct o as [[]|eo|]; intros H; try discriminate. injection H as <- <-.
    cbn [ext stdout written].
    destruct Hcase as [(Hlaunch & _ & -> & ->)|[(Hr & _)|(_ & Ha & e3 & Hclose)]].
    + right; right; left. exists e1, e2, (ext w2).
      rewrite Hl, Hm, !app_nil_r. auto 8.
    + discriminate.
    + right; right; right; left. exists e3, (ext w2), l.
      rewrite Hl, <- app_assoc. auto.
  - intros H. injection H as <- <-. cbn [ext stdout written].
    right; right; right; right. exists (ext w2), l.
    rewrite Ex, Hl, <- app_assoc. auto.
  - discriminate.
Qed.

(** X15: when [main] returns, the lines it has printed are the number of
    documents found, the lines of the conversions and the last line, and
    every document found has been attempted once, in the order of the
    listing, whether its conversion failed or not. *)
Theorem main_attempts_every_document (w w' : world E) :
  main list_of_set caps w = (Returned tt, w') ->
  exists l,
    stdout w'
    = (stdout w ++ FoundLine (List.length (found caps w)) :: l ++ [DoneLine])%list /\
    attempted l = found caps w.
Proof.
  unfold main, io_bind, async_with, call, print, found.
  destruct (glob_animated caps (ext w)) as [[files|e0|] e1] eqn:Eg;
    cbn [fst ext stdout written]; try discriminate.
  destruct (start caps e1) as [[[]|e0|] e2] eqn:Es; cbn [ext stdout written];
    try discriminate.
  match goal with
  | |- context [browser_session _ _ files ?w0] =>
      destruct (browser_session list_of_set caps files w0) as [o w2] eqn:Eb
  end.
  destruct (session_effects _ _ _ _ Eb) as (l & m & Hl & Hm & _ & Hcase).
  cbn [ext stdout written] in Hl, Hm, Hcase.
  destruct (stop caps (ext w2)) as [x e4] eqn:Ex.
  destruct x as [[]|ex|]; cbn [after_exit]; try discriminate.
  destruct o as [[]|eo|]; intros H; try discriminate. injection H as <-.
  cbn [ext stdout written].
  destruct Hcase as [(_ & Hne & _)|[(Hr & _)|(_ & Ha & _)]];
    [now contradiction Hne|discriminate|].
  exists l. rewrite Hl, <- !app_assoc. auto.
Qed.

(** X16: whatever its outcome, [main] writes nothing but output files of
    the documents found, at most one for each document, in the order of
    the listing. *)
Theorem main_writes_only_outputs (w w' : world E) (r : outcome unit) :
  main list_of_set caps w = (r, w') ->
  exists m,
    written w' = (written w ++ m)%list /\
    subsequence m (map output_name (found caps w)).
Proof.
  unfold main, io_bind, async_with, call, print, found.
  destruct (glob_animated caps (ext w)) as [[files|e0|] e1] eqn:Eg;
    cbn [fst ext stdout written].
  2, 3: intros H; injection H as _ <-; exists []; cbn [written];
        rewrite app_nil_r; split; [reflexivity|constructor].
  destruct (start caps e1) as [[[]|e0|] e2] eqn:Es; cbn [ext stdout written].
  2, 3: intros H; injection H as _ <-; exists []; cbn [written];
        rewrite app_nil_r; split; [reflexivity|apply subsequence_none].
  match goal with
  | |- context [browser_session _ _ files ?w0] =>
      destruct (browser_session list_of_set caps files w0) as [o w2] eqn:Eb
  end.
  destruct (session_effects _ _ _ _ Eb) as (l & m & _ & Hm & Hs & _).
  cbn [written] in Hm.
  destruct (stop caps (ext w2)) as [x e4] eqn:Ex.
  destruct (after_exit o x) as [[]|ex|]; intros H; injection H as _ <-;
    exists m; auto.
Qed.

(** X17: an interruption that is no [Exception] is not caught by the
    loop: when the conversion of a document is interrupted, no error line
    is printed, the documents that remain are not attempted and
    [browser.close()] is not called.  The block is left through its exit:
    Playwright is stopped in the state that the conversion left, and
    [main] ends with the interruption when the stop returns, and as the
    stop ends otherwise. *)
Theorem interrupt_ends_batch
    (before after : list string) (cur : string)
    (w w1 w2 : world E) (e1 e2 e3 : E) :
  glob_animated caps (ext w) = (Returned (before ++ cur :: after)%list, e1) ->
  start caps e1 = (Returned tt, e2) ->
  launch caps e2 = (Returned tt, e3) ->
  io_for_each before (convert_one list_of_set caps)
    {| ext := e3;
       stdout := (stdout w ++ [FoundLine (List.length (before ++ cur :: after))])%list;
       written := written w |}
  = (Returned tt, w1) ->
  render_svg_to_webp list_of_set caps cur (output_name cur)
    (printed (ConvertingLine (icon_name cur) cur) w1) = (Interrupted, w2) ->
  convert_one list_of_set caps cur w1 = (Interrupted, w2) /\
  main list_of_set caps w
  = (after_exit Interrupted (fst (stop caps (ext w2))),
     {| ext := snd (stop caps (ext w2)); stdout := stdout w2; written := written w2 |}).
Proof.
  intros Hglob Hstart Hlaunch Hbefore Hcur.
  assert (Hc : convert_one list_of_set caps cur w1 = (Interrupted, w2)).
  { unfold convert_one, io_bind, try_except.
    change (print (ConvertingLine (icon_name cur) cur) w1)
      with (Returned tt, printed (ConvertingLine (icon_name cur) cur) w1).
    cbv beta iota. rewrite Hcur. reflexivity. }
  split; [exact Hc|].
  unfold main. unfold io_bind at 1. unfold call at 1. rewrite Hglob.
  unfold io_bind at 1. unfold print at 1. cbn [ext stdout written].
  unfold io_bind at 1. unfold async_with, browser_session.
  unfold call at 1. cbn [ext stdout written]. rewrite Hstart.
  unfold io_bind at 1. unfold call at 1. cbn [ext stdout written].
  rewrite Hlaunch. unfold io_bind at 1.
  rewrite (for_each_app _ _ list_of_set caps before (cur :: after) _ w1 Hbefore).
  cbn [io_for_each]. unfold io_bind at 1. rewrite Hc.
  unfold call. destruct (stop caps (ext w2)) as [[[]|ex|] e4]; reflexivity.
Qed.

End Effects.

Lemma capture_frames_in_order_witness :
  capture_frames scripted 2000 (range 3) [] demo_world
  = (Returned [Finite (inject_Z 2000); Finite (inject_Z 2050); Finite (inject_Z 2100)],
     demo_world) /\
  exists imgs,
    [Finite (inject_Z 2000); Finite (inject_Z 2050); Finite (inject_Z 2100)]
    = ([] ++ imgs)%list /\
    Forall2 (fun i img =>
               exists t_ms t_sec e e',
                 sample_time 2000 i = Ok t_ms /\
                 float_div t_ms (Finite 1000) = Ok t_sec /\
                 capture scripted t_ms t_sec e = (Returned img, e'))
            (range 3) imgs /\
    stdout demo_world = stdout demo_world /\ written demo_world = written demo_world.
Proof.
  assert (H : capture_frames scripted 2000 (range 3) [] demo_world
              = (Returned [Finite (inject_Z 2000); Finite (inject_Z 2050);
                           Finite (inject_Z 2100)], demo_world))
    by (vm_compute; reflexivity).
  split; [exact H|].
  exact (capture_frames_in_order _ _ scripted 2000 (range 3) [] _ _ _ H).
Defined.

Lemma render_writes_only_output_witness :
  fst (render_svg_to_webp first_seen scripted
         "bad-animated.svg" "bad.webp" demo_world)
  = Raised (ExternalError "Page.set_content: malformed markup") /\
  written (snd (render_svg_to_webp first_seen scripted
                  "bad-animated.svg" "bad.webp" demo_world)) = [] /\
  (written (snd (render_svg_to_webp first_seen scripted
                   "bad-animated.svg" "bad.webp" demo_world)) = written demo_world \/
   written (snd (render_svg_to_webp first_seen scripted
                   "bad-animated.svg" "bad.webp" demo_world))
   = (written demo_world ++ ["bad.webp"%string])%list).
Proof.
  split; [vm_compute; reflexivity|]. split; [vm_compute; reflexivity|].
  exact (proj1 (render_writes_only_output _ _ first_seen scripted
                  "bad-animated.svg" "bad.webp" demo_world _ _
                  (surjective_pairing _))).
Defined.

Lemma render_saves_all_frames_witness :
  render_svg_to_webp first_seen scripted "good-animated.svg" "good.webp" demo_world
  = (Returned tt,
     snd (render_svg_to_webp first_seen scripted
            "good-animated.svg" "good.webp" demo_world)) /\
  exists svg_content p,
    fst (read_text scripted "good-animated.svg" (ext demo_world))
    = Returned svg_content /\
    sample_plan first_seen svg_content = Ok p /\
    if 0 <? num_frames p then
      exists frames e e' size_kb,
        List.length frames = Z.to_nat (num_frames p) /\
        save scripted "good.webp" frames 50 e = (Returned tt, e') /\
        stdout (snd (render_svg_to_webp first_seen scripted
                       "good-animated.svg" "good.webp" demo_world))
        = (stdout demo_world
           ++ [PlanLine p;
               SavedLine "good.webp" (Z.to_nat (num_frames p)) size_kb])%list
    else stdout (snd (render_svg_to_webp first_seen scripted
                        "good-animated.svg" "good.webp" demo_world))
         = (stdout demo_world ++ [PlanLine p])%list.
Proof.
  assert (H : render_svg_to_webp first_seen scripted
                "good-animated.svg" "good.webp" demo_world
              = (Returned tt,
                 snd (render_svg_to_webp first_seen scripted
                        "good-animated.svg" "good.webp" demo_world)))
    by (vm_compute; reflexivity).
  split; [exact H|].
  exact (render_saves_all_frames _ _ first_seen scripted _ _ _ _ H).
Defined.

Lemma main_empty_directory_witness :
  main first_seen scripted {| ext := []; stdout := []; written := [] |}
  = (Returned tt,
     {| ext := []; stdout := [FoundLine 0; DoneLine]; written := [] |}).
Proof.
  exact (main_empty_directory _ _ first_seen scripted
           {| ext := []; stdout := []; written := [] |} [] [] [] [] []
           eq_refl eq_refl eq_refl eq_refl eq_refl).
Defined.

Lemma main_raises_only_at_setup_witness :
  main first_seen scripted_without_browser demo_world
  = (Raised (ExternalError "Executable doesn't exist"),
     {| ext := demo_files; stdout := [FoundLine 3]; written := [] |}) /\
  exists e1 e2 e3,
    snd (glob_animated scripted_without_browser (ext demo_world)) = e1 /\
    start scripted_without_browser e1 = (Returned tt, e2) /\
    launch scripted_without_browser e2
    = (Raised (ExternalError "Executable doesn't exist"), e3) /\
    stop scripted_without_browser e3 = (Returned tt, demo_files).
Proof.
  assert (H : main first_seen scripted_without_browser demo_world
              = (Raised (ExternalError "Executable doesn't exist"),
                 {| ext := demo_files; stdout := [FoundLine 3]; written := [] |}))
    by (vm_compute; reflexivity).
  split; [exact H|].
  destruct (main_raises_only_at_setup _ _ first_seen scripted_without_browser
              _ _ _ H)
    as [Hg|[(e1 & _ & Hs & _)|[(e1 & e2 & e3 & Hg & Hs & Hl & Hx & _)
                               |[(e3 & e4 & l & Hc & _)|(e4 & l & Hx & _)]]]].
  - discriminate Hg.
  - discriminate Hs.
  - exists e1, e2, e3. auto.
  - discriminate Hc.
  - discriminate Hx.
Defined.

Lemma main_attempts_every_document_witness :
  main first_seen scripted demo_world
  = (Returned tt, snd (main first_seen scripted demo_world)) /\
  found scripted demo_world
  = ["bad-animated.svg"; "good-animated.svg"; "tiny-animated.svg"]%string /\
  exists l,
    stdout (snd (main first_seen scripted demo_world))
    = (stdout demo_world
       ++ FoundLine (List.length (found scripted demo_world)) :: l ++ [DoneLine])%list /\
    attempted l = found scripted demo_world.
Proof.
  assert (H : main first_seen scripted demo_world
              = (Returned tt, snd (main first_seen scripted demo_world)))
    by (vm_compute; reflexivity).
  split; [exact H|]. split; [reflexivity|].
  exact (main_attempts_every_document _ _ first_seen scripted _ _ H).
Defined.

Lemma main_writes_only_outputs_witness :
  written (snd (main first_seen scripted demo_world)) = ["good.webp"%string] /\
  map output_name (found scripted demo_world)
  = ["bad.webp"; "good.webp"; "tiny.webp"]%string /\
  exists m,
    written (snd (main first_seen scripted demo_world))
    = (written demo_world ++ m)%list /\
    subsequence m (map output_name (found scripted demo_world)).
Proof.
  split; [vm_compute; reflexivity|]. split; [vm_compute; reflexivity|].
  exact (main_writes_only_outputs _ _ first_seen scripted demo_world _ _
           (surjective_pairing _)).
Defined.

Lemma interrupt_ends_batch_witness :
  let w0 := {| ext := demo_files; stdout := [FoundLine 3]; written := [] |} in
  let w1 := snd (io_for_each ["bad-animated.svg"%string]
                   (convert_one first_seen scripted_interrupted) w0) in
  let w2 := snd (render_svg_to_webp first_seen scripted_interrupted
                   "good-animated.svg" (output_name "good-animated.svg")
                   (printed (ConvertingLine (icon_name "good-animated.svg")
                                            "good-animated.svg") w1)) in
  main first_seen scripted_interrupted demo_world = (Interrupted, w2) /\
  attempted (stdout w2) = ["bad-animated.svg"; "good-animated.svg"]%string /\
  written w2 = [] /\ ext w2 = demo_files.
Proof.
  intros w0 w1 w2.
  assert (H1 : io_for_each ["bad-animated.svg"%string]
                 (convert_one first_seen scripted_interrupted) w0
               = (Returned tt, w1)) by (vm_compute; reflexivity).
  assert (H2 : render_svg_to_webp first_seen scripted_interrupted
                 "good-animated.svg" (output_name "good-animated.svg")
                 (printed (ConvertingLine (icon_name "good-animated.svg")
                                          "good-animated.svg") w1)
               = (Interrupted, w2)) by (vm_compute; reflexivity).
  split.
  - rewrite (proj2 (interrupt_ends_batch _ _ first_seen scripted_interrupted
                      ["bad-animated.svg"%string] ["tiny-animated.svg"%string]
                      "good-animated.svg" demo_world w1 w2
                      demo_files demo_files demo_files
                      eq_refl eq_refl eq_refl H1 H2)).
    vm_compute. reflexivity.
  - split; [|split]; vm_compute; reflexivity.
Defined.

(** ** The exceptions of a conversion *)

Lemma float_of_int_overflow (n : Z) (e : exn) :
  float_of_int n = Raise e -> e = OverflowError.
Proof.
  unfold float_of_int. destruct (round64 (inject_Z n)); intros H;
    [discriminate|now injection H as <-|now injection H as <-].
Qed.

Lemma sample_time_overflow (start i : Z) (e : exn) :
  sample_time start i = Raise e -> e = OverflowError.
Proof.
  unfold sample_time. rewrite FRAME_MS_value. cbn [bind].
  unfold int_mul_float, int_add_float.
  destruct (float_of_int i) as [x|e1] eqn:E1; cbn [bind].
  - destruct (float_of_int start) as [y|e2] eqn:E2; cbn [bind]; [discriminate|].
    intros H. injection H as <-. exact (float_of_int_overflow _ _ E2).
  - intros H. injection H as <-. exact (float_of_int_overflow _ _ E1).
Qed.

Lemma float_div_thousand (t : pyfloat) : exists s, float_div t (Finite 1000) = Ok s.
Proof. destruct t as [q|b|]; simpl; eexists; reflexivity. Qed.

Lemma int_truediv_overflow (a b : Z) (e : exn) :
  b <> 0 -> int_truediv a b = Raise e -> e = OverflowError.
Proof.
  intros Hb. unfold int_truediv. destruct (Z.eqb_spec b 0) as [E|_]; [contradiction|].
  destruct (round64 _); intros H;
    [discriminate|now injection H as <-|now injection H as <-].
Qed.

Section Raises.

Variables E frame : Type.
Variable list_of_set : list Z -> list Z.
Hypothesis order_ok : set_order list_of_set.
Variable caps : capabilities E frame.

Lemma sample_plan_overflow (svg_content : string) (e : exn) :
  sample_plan list_of_set svg_content = Raise e -> e = OverflowError.
Proof.
  destruct (parse_animation_properties svg_content) as [[D L]|e0] eqn:Ep.
  - destruct (sample_plan_of_timings list_of_set order_ok _ _ _ Ep)
      as (c & k & _ & _ & _ & _ & ->). discriminate.
  - unfold sample_plan. rewrite Ep. cbn [bind]. intros H. injection H as <-.
    exact (parse_animation_properties_overflow _ _ Ep).
Qed.

Lemma io_bind_raised {A B : Type} (c : io E A) (k : A -> io E B)
    (w w' : world E) (e : exn) :
  io_bind c k w = (Raised e, w') ->
  c w = (Raised e, w') \/
  exists a w1, c w = (Returned a, w1) /\ k a w1 = (Raised e, w').
Proof.
  unfold io_bind. destruct (c w) as [[a|e0|] w1]; intros H.
  - right. now exists a, w1.
  - left. injection H as -> ->. reflexivity.
  - discriminate.
Qed.

Lemma lift_raised {A : Type} (r : result A) (w w' : world E) (e : exn) :
  lift r w = (Raised e, w') -> r = Raise e.
Proof. unfold lift. destruct r; intros H; [discriminate|now injection H as <-]. Qed.

Lemma call_raised {A : Type} (f : E -> outcome A * E) (w w' : world E) (e : exn) :
  call f w = (Raised e, w') -> fst (f (ext w)) = Raised e.
Proof.
  unfold call. destruct (f (ext w)) as [r0 e0]. intros H. now injection H as ->.
Qed.

Lemma capture_frames_raises (start : Z) (indices : list Z) :
  forall (frames : list frame) (w w' : world E) (e : exn),
    capture_frames caps start indices frames w = (Raised e, w') ->
    e = OverflowError \/
    exists t_ms t_sec e0, fst (capture caps t_ms t_sec e0) = Raised e.
Proof.
  induction indices as [|i rest IH]; intros frames w w' e H;
    cbn [capture_frames] in H; [discriminate|].
  apply io_bind_raised in H. destruct H as [H|(t_ms & w1 & _ & H)].
  { left. apply lift_raised in H. exact (sample_time_overflow _ _ _ H). }
  apply io_bind_raised in H. destruct H as [H|(t_sec & w2 & _ & H)].
  { apply lift_raised in H. destruct (float_div_thousand t_ms) as [s Hs].
    congruence. }
  apply io_bind_raised in H. destruct H as [H|(img & w3 & _ & H)].
  { right. apply call_raised in H. now exists t_ms, t_sec, (ext w2). }
  exact (IH _ _ _ _ H).
Qed.

(** X20: an exception that leaves a conversion is an [OverflowError] of the
    arithmetic of the script, or it is raised by one of the calls that
    leave the script: the reading of the document, the page load, a
    screenshot, the save or the size of the file. *)
Theorem render_raises_overflow_or_external
    (svg_path output_path : string) (w w' : world E) (e : exn) :
  render_svg_to_webp list_of_set caps svg_path output_path w = (Raised e, w') ->
  e = OverflowError \/ capability_raises caps svg_path output_path e.
Proof.
  unfold render_svg_to_webp, capability_raises. intros H.
  apply io_bind_raised in H. destruct H as [H|(svg_content & w1 & _ & H)].
  { right. left. apply call_raised in H. now exists (ext w). }
  apply io_bind_raised in H. destruct H as [H|(p & w2 & _ & H)].
  { left. apply lift_raised in H. exact (sample_plan_overflow _ _ H). }
  apply io_bind_raised in H. destruct H as [H|(u3 & w3 & _ & H)];
    [discriminate|].
  apply io_bind_raised in H. destruct H as [H|(u4 & w4 & _ & H)].
  { right. right. left. apply call_raised in H. eauto. }
  apply io_bind_raised in H. destruct H as [H|(frames & w5 & _ & H)].
  { apply capture_frames_raises in H. destruct H as [H|H]; [now left|].
    right. right. right. now left. }
  destruct frames as [|f frames]; [discriminate|].
  apply io_bind_raised in H. destruct H as [H|(frame_ms & w6 & H6 & H)].
  { apply lift_raised in H. rewrite FRAME_MS_value in H. discriminate. }
  apply io_bind_raised in H. destruct H as [H|(duration & w7 & _ & H)].
  { apply lift_returned in H6. destruct H6 as [H6 _].
    rewrite FRAME_MS_value in H6. injection H6 as <-.
    apply lift_raised in H. discriminate. }
  apply io_bind_raised in H. destruct H as [H|(u8 & w8 & _ & H)].
  { right. right. right. right. left. apply call_raised in H. eauto. }
  apply io_bind_raised in H. destruct H as [H|(u9 & w9 & _ & H)];
    [discriminate|].
  apply io_bind_raised in H. destruct H as [H|(size & w10 & _ & H)].
  { right. right. right. right. right. apply call_raised in H. eauto. }
  apply io_bind_raised in H. destruct H as [H|(size_kb & w11 & _ & H)].
  { left. apply lift_raised in H.
    assert (H0 : 1024 <> 0) by discriminate.
    exact (int_truediv_overflow _ _ _ H0 H). }
  discriminate.
Qed.

End Raises.

Lemma render_raises_overflow_or_external_witness :
  set_order first_seen /\
  fst (render_svg_to_webp first_seen scripted
         "bad-animated.svg" "bad.webp" demo_world)
  = Raised (ExternalError "Page.set_content: malformed markup") /\
  (ExternalError "Page.set_content: malformed markup" = OverflowError \/
   capability_raises scripted "bad-animated.svg" "bad.webp"
     (ExternalError "Page.set_content: malformed markup")).
Proof.
  assert (H : render_svg_to_webp first_seen scripted
                "bad-animated.svg" "bad.webp" demo_world
              = (Raised (ExternalError "Page.set_content: malformed markup"),
                 snd (render_svg_to_webp first_seen scripted
                        "bad-animated.svg" "bad.webp" demo_world)))
    by (vm_compute; reflexivity).
  split; [exact first_seen_order|]. split; [now rewrite H|].
  exact (render_raises_overflow_or_external _ _ first_seen first_seen_order
           scripted _ _ _ _ _ H).
Defined.

(** * The declarations of a document *)

(** ** Scanning a text *)

Section Scanning.

Local Open Scope string_scope.

Variable A : Type.
Variable at_start : string -> A -> string -> Prop.

(** No declaration is empty, and a text starts with at most one. *)
Hypothesis at_start_nonempty :
  forall s x rest, at_start s x rest -> exists a, a <> "" /\ s = a ++ rest.
Hypothesis at_start_functional :
  forall s x rest x' rest',
    at_start s x rest -> at_start s x' rest' -> x = x' /\ rest = rest'.


Variable r : regex.
Variable Q : captures -> A -> Prop.

(** The pattern [r] matches where a declaration starts, and only there. *)
Hypothesis match_sound :
  forall s rest m, match_at r s = Some (rest, m) ->
                   exists x, at_start s x rest /\ Q m x.
Hypothesis match_complete :
  forall s x rest, at_start s x rest -> match_at r s <> None.

Lemma finditer_scan_bounded (n : nat) :
  forall s, (String.length s <= n)%nat ->
            exists xs, scan at_start s xs /\ Forall2 Q (finditer_from r s 0) xs.
Proof.
  induction n as [|n IH]; intros s Hlen.
  - destruct s; [|simpl in Hlen; lia].
    cbn [finditer_from].
    destruct (match_at r "") as [[rest m]|] eqn:E.
    + destruct (match_sound _ _ _ E) as (x & Hx & _).
      destruct (at_start_nonempty _ _ _ Hx) as (a & Ha & E').
      destruct a; [congruence|discriminate].
    + exists []. split; constructor.
  - destruct (match_at r s) as [[rest m]|] eqn:E.
    + destruct (match_sound _ _ _ E) as (x & Hx & Hq).
      destruct (at_start_nonempty _ _ _ Hx) as (a & Ha & ->).
      rewrite (finditer_from_match r a rest m Ha E).
      destruct (IH rest) as (xs & Hs & Hf).
      { rewrite length_append in Hlen. destruct a; [congruence|].
        simpl in Hlen. lia. }
      exists (x :: xs). split; [now apply scan_found with rest|now constructor].
    + destruct s as [|c s].
      * cbn [finditer_from]. rewrite E. exists []. split; constructor.
      * rewrite (finditer_from_none r c s E).
        destruct (IH s) as (xs & Hs & Hf); [simpl in Hlen; lia|].
        exists xs. split; [|exact Hf]. apply scan_next; [|exact Hs].
        intros x rest Hx. now apply (match_complete _ _ _ Hx).
Qed.

(** The matches of [r] that [finditer] returns are the declarations of
    the text. *)
Lemma finditer_scan (s : string) :
  exists xs, scan at_start s xs /\ Forall2 Q (finditer r s) xs.
Proof. exact (finditer_scan_bounded (String.length s) s (le_n _)). Qed.

End Scanning.

Section Repetition.

Local Open Scope string_scope.

Context {R : Type}.
Variable p : ascii -> bool.

(** A repetition does not fail when what follows succeeds behind some of
    the characters it can take. *)
Lemma match_star_at_least (k : string -> option R) (s : string) :
  k s <> None -> match_star p s k <> None.
Proof.
  intros Hk. destruct s as [|c s]; cbn [match_star]; [exact Hk|].
  destruct (p c); [|exact Hk]. destruct (match_star p s k); [discriminate|exact Hk].
Qed.

Lemma match_star_complete (k : string -> option R) (a b : string) :
  all_chars p a = true -> k b <> None -> match_star p (a ++ b) k <> None.
Proof.
  intros Ha Hk. induction a as [|c a IH]; cbn [append].
  - now apply match_star_at_least.
  - cbn [all_chars] in Ha. apply andb_prop in Ha. destruct Ha as [Hc Ha].
    cbn [match_star]. rewrite Hc.
    destruct (match_star p (a ++ b) k) eqn:E; [discriminate|].
    now apply IH in Ha.
Qed.

(** A repetition that succeeds has taken the longest run of characters
    behind which what follows succeeds. *)
Lemma match_star_first (k : string -> option R) (r : R) (s : string) :
  match_star p s k = Some r ->
  exists a b,
    s = a ++ b /\ all_chars p a = true /\ k b = Some r /\
    forall a' b', s = a' ++ b' -> all_chars p a' = true ->
                  (String.length a < String.length a')%nat -> k b' = None.
Proof.
  induction s as [|c s IH]; cbn [match_star]; intros H.
  - exists "", "". repeat split; [exact H|].
    intros a' b' E _ Hlen. destruct a'; [simpl in Hlen; lia|discriminate].
  - destruct (p c) eqn:Hc.
    + destruct (match_star p s k) as [r'|] eqn:E.
      * injection H as ->. destruct (IH eq_refl) as (a & b & -> & Ha & Hk & Hmax).
        exists (String c a), b. cbn [append all_chars]. rewrite Hc, Ha.
        repeat split; [exact Hk|].
        intros a' b' E' Ha' Hlen. destruct a' as [|c' a']; [simpl in Hlen; lia|].
        cbn [append] in E'. injection E' as <- E'.
        cbn [all_chars] in Ha'. apply andb_prop in Ha'.
        apply (Hmax a' b' E' (proj2 Ha')). simpl in Hlen. lia.
      * exists "", (String c s). repeat split; [exact H|].
        intros a' b' E' Ha' Hlen. destruct a' as [|c' a']; [simpl in Hlen; lia|].
        cbn [append] in E'. injection E' as <- E'.
        cbn [all_chars] in Ha'. apply andb_prop in Ha'. destruct Ha' as [_ Ha'].
        destruct (k b') eqn:Ek; [|reflexivity]. exfalso.
        assert (Hn : match_star p (a' ++ b') k <> None)
          by (apply match_star_complete; [exact Ha'|congruence]).
        rewrite <- E' in Hn. congruence.
    + exists "", (String c s). repeat split; [exact H|].
      intros a' b' E' Ha' Hlen. destruct a' as [|c' a']; [simpl in Hlen; lia|].
      cbn [append] in E'. injection E' as <- E'.
      cbn [all_chars] in Ha'. rewrite Hc in Ha'. discriminate.
Qed.

(** Behind a repetition that nothing keeps from going on, the text starts
    outside the class. *)
Lemma match_star_last (g : string -> R) (s : string) (r : R) :
  match_star p s (fun s' => Some (g s')) = Some r ->
  exists a b, s = a ++ b /\ all_chars p a = true /\ starts_outside p b /\ r = g b.
Proof.
  revert r. induction s as [|c s IH]; cbn [match_star]; intros r H.
  - exists "", "". injection H as <-. repeat split.
  - destruct (p c) eqn:Hc.
    + destruct (match_star p s (fun s' => Some (g s'))) as [r'|] eqn:E.
      * injection H as ->. destruct (IH _ eq_refl) as (a & b & -> & Ha & Hb & Hr).
        exists (String c a), b. cbn [append all_chars]. now rewrite Hc, Ha.
      * exfalso. revert E. now apply match_star_at_least.
    + injection H as <-. exists "", (String c s). repeat split. exact Hc.
Qed.


End Repetition.

(** ** Time-values *)

Section TimeValues.

Local Open Scope string_scope.

Lemma split_point_spec (s ip : string) (rest : option string) :
  split_point s = (ip, rest) ->
  s = ip ++ match rest with Some f => "." ++ f | None => "" end.
Proof.
  revert ip. induction s as [|c s IH]; intros ip H; cbn [split_point] in H.
  - now injection H as <- <-.
  - destruct (Ascii.eqb_spec c ".") as [->|Hc].
    + now injection H as <- <-.
    + destruct (split_point s) as [a b]. injection H as <- <-.
      cbn [append]. f_equal. now apply IH.
Qed.

(** A numeral that starts with a digit is a number. *)
Lemma numeral_number (c : ascii) (n : string) :
  is_numeral (String c n) = true -> is_digit c = true -> is_number (String c n).
Proof.
  unfold is_numeral. intros H Hc.
  destruct (split_point (String c n)) as [ip rest] eqn:E.
  apply andb_prop in H. destruct H as [H _].
  apply andb_prop in H. destruct H as [Hip Hfp].
  pose proof (split_point_spec _ _ _ E) as Hs.
  assert (Hne : ip <> "").
  { intros ->. destruct rest as [f|]; cbn [append] in Hs; [|discriminate].
    injection Hs as -> _. discriminate. }
  exists ip, (match rest with Some f => f | None => "" end).
  split; [exact Hip|]. split; [exact Hne|]. split; [exact Hfp|].
  destruct rest as [f|]; [now right|left]. now rewrite append_nil_r in Hs.
Qed.

Lemma number_numeral (n : string) : is_number n -> is_numeral n = true.
Proof.
  intros (ip & fp & Hip & Hne & Hfp & [-> | ->]);
    (destruct ip as [|c ip]; [congruence|]).
  - now apply is_numeral_digits.
  - now apply is_numeral_point.
Qed.

Lemma number_first (n : string) :
  is_number n -> exists c n', n = String c n' /\ is_digit c = true.
Proof.
  intros (ip & fp & Hip & Hne & _ & Hn). destruct ip as [|c ip]; [congruence|].
  cbn [all_digits] in Hip. apply andb_prop in Hip.
  destruct Hn as [-> | ->]; eexists _, _; (split; [reflexivity|exact (proj1 Hip)]).
Qed.

(** A match of [time_re] starts at a digit. *)
Lemma match_time_re_first {R : Type} (s : string) (m0 : captures)
    (k : string -> captures -> option R) (r : R) :
  match_re time_re s m0 k = Some r ->
  exists c s0, s = String c s0 /\ is_digit c = true.
Proof.
  unfold time_re. unfold_seq. unfold_group. unfold_seq.
  destruct s as [|c s0]; [discriminate|].
  change (match_re (Plus ?p) (String c ?s) ?m ?k0)
    with (if p c then match_star p s (fun s'' => k0 s'' m) else None).
  destruct (is_digit c) eqn:Hc; [|discriminate]. intros _. now exists c, s0.
Qed.

(** A match of [time_re] has passed a number and a unit, which are the
    texts of its groups. *)
Lemma match_time_re_number {R : Type} (s : string) (m0 : captures)
    (k : string -> captures -> option R) (r : R) :
  match_re time_re s m0 k = Some r ->
  exists n u rest,
    s = n ++ u ++ rest /\ is_number n /\ (u = "s" \/ u = "ms") /\
    k rest ((2%nat, u) :: (1%nat, n) :: m0) = Some r.
Proof.
  intros H. destruct (match_time_re_first _ _ _ _ H) as (c & s0 & -> & Hc).
  apply match_time_re_sound in H.
  destruct H as (n & u & rest & E & Hn & Hu & Hk).
  exists n, u, rest. split; [exact E|]. split; [|now split].
  destruct n as [|c' n']; [discriminate Hn|].
  cbn [append] in E. injection E as <- _. now apply numeral_number.
Qed.

Lemma match_unit_some {R : Type} (u rest : string) (m : captures)
    (k : string -> captures -> option R) :
  u = "s" \/ u = "ms" -> (forall m', k rest m' <> None) ->
  match_re (Group 2 (Alt (Lit "s") (Lit "ms"))) (u ++ rest) m k <> None.
Proof.
  intros Hu Hk. unfold_group.
  change (match_re (Alt ?a ?b) ?s ?m' ?k0)
    with (match match_re a s m' k0 with
          | Some x => Some x
          | None => match_re b s m' k0
          end).
  destruct Hu as [-> | ->].
  - rewrite match_lit_append.
    match goal with |- match ?x with _ => _ end <> None =>
      destruct x eqn:E; [discriminate|exfalso; revert E; apply Hk] end.
  - change (match_re (Lit "s") ("ms" ++ rest) ?m' ?k0) with (@None R).
    cbv iota. rewrite match_lit_append. apply Hk.
Qed.

(** Where a time-value is written, [time_re] matches. *)
Lemma match_time_re_some {R : Type} (n u rest : string) (m0 : captures)
    (k : string -> captures -> option R) :
  is_number n -> u = "s" \/ u = "ms" -> (forall m, k rest m <> None) ->
  match_re time_re (n ++ u ++ rest) m0 k <> None.
Proof.
  intros (ip & fp & Hip & Hne & Hfp & Hn) Hu Hk.
  destruct ip as [|c ip]; [congruence|].
  cbn [all_digits] in Hip. apply andb_prop in Hip. destruct Hip as [Hc Hip].
  assert (Hout : forall p, p "s"%char = false -> p "m"%char = false ->
                           starts_outside p (u ++ rest)).
  { intros p Hs Hm. destruct Hu as [-> | ->]; assumption. }
  unfold time_re. unfold_seq. unfold_group. unfold_seq.
  destruct Hn as [-> | ->].
  - change (String c ip ++ u ++ rest) with (String c (ip ++ u ++ rest)).
    change (match_re (Plus ?p) (String c ?s) ?m ?k0)
      with (if p c then match_star p s (fun s'' => k0 s'' m) else None).
    rewrite Hc. apply match_star_complete; [now rewrite all_chars_digits|].
    unfold_seq. rewrite match_opt_outside by (now apply Hout). cbv beta.
    unfold_star. apply match_star_at_least. now apply match_unit_some.
  - replace ((String c ip ++ "." ++ fp) ++ u ++ rest)
      with (String c (ip ++ String "." (fp ++ u ++ rest)))
      by (cbn [append]; now rewrite !append_assoc).
    change (match_re (Plus ?p) (String c ?s) ?m ?k0)
      with (if p c then match_star p s (fun s'' => k0 s'' m) else None).
    rewrite Hc. apply match_star_complete; [now rewrite all_chars_digits|].
    unfold_seq.
    change (match_re (Opt ?p) (String ?x ?s) ?m ?k0)
      with (if p x then match k0 s m with
                        | Some y => Some y
                        | None => k0 (String x s) m
                        end
            else k0 (String x s) m).
    change (is_char "." ".") with true. cbv iota.
    match goal with |- match ?x with _ => _ end <> None =>
      assert (Hx : x <> None); [|destruct x; [discriminate|congruence]] end.
    unfold_star. apply match_star_complete; [now rewrite all_chars_digits|].
    now apply match_unit_some.
Qed.



Lemma time_value_at_nonempty (s : string) (t : string * string) (rest : string) :
  time_value_at s t rest -> exists a, a <> "" /\ s = a ++ rest.
Proof.
  intros (-> & Hn & _). exists (fst t ++ snd t). rewrite append_assoc.
  split; [|reflexivity]. destruct (number_first _ Hn) as (c & n' & -> & _).
  discriminate.
Qed.

Lemma time_re_sound (s rest : string) (m : captures) :
  match_at time_re s = Some (rest, m) ->
  exists t, time_value_at s t rest /\ t = time_value_of m.
Proof.
  unfold match_at. intros H. apply match_time_re_number in H.
  destruct H as (n & u & rest' & -> & Hn & Hu & Hk). injection Hk as <- <-.
  exists (n, u). split; [|reflexivity]. now split.
Qed.

Lemma time_re_complete (s : string) (t : string * string) (rest : string) :
  time_value_at s t rest -> match_at time_re s <> None.
Proof.
  intros (-> & Hn & Hu). unfold match_at.
  apply match_time_re_some; [exact Hn|exact Hu|discriminate].
Qed.

Lemma Forall2_map_eq {X Y : Type} (f : X -> Y) (xs : list X) (ys : list Y) :
  Forall2 (fun x y => y = f x) xs ys -> ys = map f xs.
Proof. induction 1 as [|x y xs ys -> _ IH]; cbn [map]; [reflexivity|now rewrite IH]. Qed.

(** The time-values that [findall] returns are the time-values of the
    text. *)
Lemma time_values_scan (s : string) : scan time_value_at s (time_values s).
Proof.
  destruct (finditer_scan _ time_value_at time_value_at_nonempty time_re
              (fun m t => t = time_value_of m) time_re_sound time_re_complete s)
    as (xs & Hs & Hf).
  apply Forall2_map_eq in Hf. subst xs. exact Hs.
Qed.

(** No time-value starts at a character that is no digit. *)
Lemma time_value_at_digit (c : ascii) (s : string) (t : string * string)
    (rest : string) :
  time_value_at (String c s) t rest -> is_digit c = true.
Proof.
  intros (E & Hn & _). destruct (number_first _ Hn) as (c' & n' & En & Hc).
  rewrite En in E. cbn [append] in E. now injection E as -> _.
Qed.

Lemma scan_time_values_skip (sp s : string) (ts : list (string * string)) :
  all_chars is_space sp = true ->
  scan time_value_at s ts -> scan time_value_at (sp ++ s) ts.
Proof.
  intros Hsp Hs. induction sp as [|c sp IH]; cbn [append]; [exact Hs|].
  cbn [all_chars] in Hsp. apply andb_prop in Hsp. destruct Hsp as [Hc Hsp].
  apply scan_next; [|now apply IH].
  intros t rest Ht. apply time_value_at_digit in Ht.
  destruct c as [[] [] [] [] [] [] [] []]; discriminate.
Qed.

End TimeValues.

(** ** The three declarations *)

Section Declarations.

Local Open Scope string_scope.

Lemma append_cancel_l (a x y : string) : a ++ x = a ++ y -> x = y.
Proof.
  induction a as [|c a IH]; cbn [append]; intros H; [exact H|].
  injection H as H. now apply IH.
Qed.


Lemma space_none_of (c : ascii) : is_space c = true -> none_of ";" "}" c = true.
Proof.
  intros H. destruct c as [[] [] [] [] [] [] [] []];
    first [discriminate H | reflexivity].
Qed.



(** *** The shorthand declaration *)

Lemma shorthand_at_nonempty (s value rest : string) :
  shorthand_at s value rest -> exists a, a <> "" /\ s = a ++ rest.
Proof.
  intros (sp & -> & _). exists ("animation" ++ sp ++ ":" ++ value).
  split; [discriminate|]. now rewrite !append_assoc.
Qed.


(** A match of the first pattern is a shorthand declaration; its group
    is the value of the declaration without the white space in front. *)
Lemma shorthand_re_sound (s rest : string) (m : captures) :
  match_at shorthand_re s = Some (rest, m) ->
  exists value,
    shorthand_at s value rest /\
    exists sp, all_chars is_space sp = true /\ value = sp ++ group m 1.
Proof.
  unfold match_at, shorthand_re. cbn [match_re]. intros H.
  destruct (strip_prefix "animation" s) as [s1|] eqn:E1; [|discriminate].
  apply strip_prefix_sound in E1. subst s.
  apply match_star_sound in H. destruct H as (sp1 & s2 & -> & Hsp1 & H).
  destruct (strip_prefix ":" s2) as [s3|] eqn:E2; [|discriminate].
  apply strip_prefix_sound in E2. subst s2.
  apply match_star_sound in H. destruct H as (sp2 & s4 & -> & Hsp2 & H).
  destruct s4 as [|c s5]; [discriminate|].
  destruct (none_of ";" "}" c) eqn:Hc; [|discriminate].
  apply (match_star_last (none_of ";" "}")
           (fun s'' => (s'', [(1%nat, consumed (String c s5) s'')]))) in H.
  destruct H as (a & b & -> & Ha & Hb & H). injection H as -> ->.
  change (String c (a ++ b)) with (String c a ++ b).
  rewrite consumed_append. exists (sp2 ++ String c a). split.
  - exists sp1. split; [now rewrite !append_assoc|]. split; [exact Hsp1|].
    split; [destruct sp2; discriminate|]. split; [|exact Hb].
    rewrite all_chars_append. cbn [all_chars]. rewrite Hc, Ha.
    rewrite (all_chars_impl is_space _ sp2 space_none_of Hsp2). reflexivity.
  - exists sp2. split; [exact Hsp2|reflexivity].
Qed.

Lemma shorthand_re_complete (s value rest : string) :
  shorthand_at s value rest -> match_at shorthand_re s <> None.
Proof.
  intros (sp & -> & Hsp & Hne & Hv & _). unfold match_at, shorthand_re.
  unfold_seq. rewrite match_lit_append. cbv beta.
  unfold_seq. unfold_star. apply match_star_complete; [exact Hsp|].
  unfold_seq. rewrite match_lit_append. cbv beta.
  unfold_seq. unfold_star. apply match_star_at_least.
  unfold_group. destruct value as [|c v]; [congruence|].
  cbn [all_chars] in Hv. apply andb_prop in Hv. destruct Hv as [Hc _].
  change (String c v ++ rest) with (String c (v ++ rest)).
  change (match_re (Plus ?p) (String c ?x) ?m0 ?k0)
    with (if p c then match_star p x (fun s'' => k0 s'' m0) else None).
  rewrite Hc. apply match_star_at_least. discriminate.
Qed.

(** *** The declaration of [animation-duration] *)

Lemma duration_at_nonempty (s : string) (t : string * string) (rest : string) :
  duration_at s t rest -> exists a, a <> "" /\ s = a ++ rest.
Proof.
  intros (sp1 & sp2 & s' & -> & _ & _ & -> & _).
  exists ("animation-duration" ++ sp1 ++ ":" ++ sp2 ++ fst t ++ snd t).
  split; [discriminate|]. now rewrite !append_assoc.
Qed.


Lemma duration_re_at (s rest : string) (m : captures) :
  match_at duration_re s = Some (rest, m) ->
  exists t, duration_at s t rest /\ t = time_value_of m.
Proof.
  unfold match_at, duration_re. cbn [match_re]. intros H.
  destruct (strip_prefix "animation-duration" s) as [s1|] eqn:E1; [|discriminate].
  apply strip_prefix_sound in E1. subst s.
  apply match_star_sound in H. destruct H as (sp1 & s2 & -> & Hsp1 & H).
  destruct (strip_prefix ":" s2) as [s3|] eqn:E2; [|discriminate].
  apply strip_prefix_sound in E2. subst s2.
  apply match_star_sound in H. destruct H as (sp2 & s4 & -> & Hsp2 & H).
  apply match_time_re_number in H.
  destruct H as (n & u & rest' & -> & Hn & Hu & Hk). injection Hk as -> <-.
  exists (n, u). split; [|reflexivity].
  exists sp1, sp2, (n ++ u ++ rest). repeat split; assumption.
Qed.

Lemma duration_re_complete (s : string) (t : string * string) (rest : string) :
  duration_at s t rest -> match_at duration_re s <> None.
Proof.
  intros (sp1 & sp2 & s' & -> & H1 & H2 & -> & Hn & Hu).
  unfold match_at, duration_re.
  unfold_seq. rewrite match_lit_append. cbv beta.
  unfold_seq. unfold_star. apply match_star_complete; [exact H1|].
  unfold_seq. rewrite match_lit_append. cbv beta.
  unfold_seq. unfold_star. apply match_star_complete; [exact H2|].
  apply match_time_re_some; [exact Hn|exact Hu|discriminate].
Qed.

(** *** The [dur] attribute *)

Lemma smil_at_nonempty (s : string) (t : string * string) (rest : string) :
  smil_at s t rest -> exists a, a <> "" /\ s = a ++ rest.
Proof.
  intros (attrs & (s' & -> & _ & -> & _) & _).
  exists ("<animate" ++ attrs ++ "dur=" ++ dquote ++ fst t ++ snd t ++ dquote).
  split; [discriminate|]. now rewrite !append_assoc.
Qed.


(** Where the attribute is written, the rest of the third pattern
    matches. *)
Lemma dur_some (s' : string) (t : string * string) (rest : string) (m : captures) :
  time_value_at s' t (dquote ++ rest) ->
  match_re (Seq (Lit ("dur=" ++ dquote)) (Seq time_re (Lit dquote)))
    (("dur=" ++ dquote) ++ s') m (fun r0 m0 => Some (r0, m0)) <> None.
Proof.
  intros (-> & Hn & Hu). unfold_seq. rewrite match_lit_append. cbv beta.
  unfold_seq. apply match_time_re_some; [exact Hn|exact Hu|].
  intros m'. rewrite match_lit_append. discriminate.
Qed.

Lemma smil_re_at (s rest : string) (m : captures) :
  match_at smil_re s = Some (rest, m) ->
  exists t, smil_at s t rest /\ t = time_value_of m.
Proof.
  unfold match_at, smil_re. unfold_seq.
  change (match_re (Lit ?l) ?x ?m0 ?k0)
    with (match strip_prefix l x with Some s' => k0 s' m0 | None => None end) at 1.
  intros H.
  destruct (strip_prefix "<animate" s) as [s1|] eqn:E1; [|discriminate].
  apply strip_prefix_sound in E1. subst s.
  revert H. unfold_seq. unfold_star. fold inside_tag. intros H.
  apply match_star_first in H.
  destruct H as (attrs & b & -> & Hattrs & H & Hmax).
  assert (Hb : exists n u, b = ("dur=" ++ dquote) ++ n ++ u ++ dquote ++ rest /\
                           is_number n /\ (u = "s" \/ u = "ms") /\
                           m = [(2%nat, u); (1%nat, n)]).
  { revert H. unfold_seq.
    change (match_re (Lit ?l) ?x ?m0 ?k0)
      with (match strip_prefix l x with Some s' => k0 s' m0 | None => None end) at 1.
    destruct (strip_prefix ("dur=" ++ dquote) b) as [s3|] eqn:E3; [|discriminate].
    apply strip_prefix_sound in E3. subst b. unfold_seq. intros H.
    apply match_time_re_number in H.
    destruct H as (n & u & rest1 & -> & Hn & Hu & H).
    cbn [match_re] in H.
    destruct (strip_prefix dquote rest1) as [s4|] eqn:E4; [|discriminate].
    apply strip_prefix_sound in E4. subst rest1. injection H as -> <-.
    now exists n, u. }
  destruct Hb as (n & u & -> & Hn & Hu & ->).
  exists (n, u). split; [|reflexivity]. exists attrs. split.
  - exists (n ++ u ++ dquote ++ rest). split; [now rewrite !append_assoc|].
    split; [exact Hattrs|]. now split.
  - intros attrs' t' rest' (s1' & E & Hattrs' & Ht').
    destruct (Nat.le_gt_cases (String.length attrs') (String.length attrs))
      as [Hle|Hgt]; [exact Hle|exfalso].
    apply append_cancel_l in E.
    replace (attrs' ++ "dur=" ++ dquote ++ s1')
      with (attrs' ++ ("dur=" ++ dquote) ++ s1') in E
      by (now rewrite !append_assoc).
    pose proof (Hmax _ _ E Hattrs' Hgt) as Hnone.
    exact (dur_some _ _ _ _ Ht' Hnone).
Qed.

Lemma smil_re_complete (s : string) (t : string * string) (rest : string) :
  smil_at s t rest -> match_at smil_re s <> None.
Proof.
  intros (attrs & (s' & -> & Hattrs & Ht) & _). unfold match_at, smil_re.
  unfold_seq. rewrite match_lit_append. cbv beta.
  unfold_seq. unfold_star. fold inside_tag.
  apply match_star_complete; [exact Hattrs|].
  replace ("dur=" ++ dquote ++ s') with (("dur=" ++ dquote) ++ s')
    by (now rewrite !append_assoc).
  now apply dur_some with t rest.
Qed.

End Declarations.

(** ** What the parser returns *)

Lemma flat_map_of_map {X Y Z : Type} (f : X -> Y) (g : Y -> list Z) (l : list X) :
  flat_map g (map f l) = flat_map (fun x => g (f x)) l.
Proof. induction l as [|x l IH]; cbn [map flat_map]; [reflexivity|now rewrite IH]. Qed.

(** The shorthand declarations of a text and their time-values are what
    the first loop finds. *)
Lemma shorthand_values (s : string) :
  exists values,
    scan shorthand_at s values /\
    Forall2 (scan time_value_at) values
      (map (fun m => time_values (group m 1)) (finditer shorthand_re s)).
Proof.
  destruct (finditer_scan _ shorthand_at shorthand_at_nonempty shorthand_re
              (fun m value => exists sp, all_chars is_space sp = true /\
                                         value = (sp ++ group m 1)%string)
              shorthand_re_sound shorthand_re_complete s)
    as (values & Hs & Hf).
  exists values. split; [exact Hs|]. clear Hs.
  induction Hf as [|m v ms vs (sp & Hsp & ->) _ IH]; cbn [map];
    [constructor|constructor; [|exact IH]].
  apply scan_time_values_skip; [exact Hsp|apply time_values_scan].
Qed.


(** What the three loops take from their matches is what the document
    declares, and a document declares nothing else. *)
Lemma matches_declared (s : string) :
  declares s (matched_durations s) (matched_delays s).
Proof.
  destruct (shorthand_values s) as (values & Hv & Ht).
  destruct (finditer_scan _ duration_at duration_at_nonempty duration_re
              (fun m t => t = time_value_of m) duration_re_at duration_re_complete s)
    as (ds & Hds & Hd).
  destruct (finditer_scan _ smil_at smil_at_nonempty smil_re
              (fun m t => t = time_value_of m) smil_re_at smil_re_complete s)
    as (ss & Hss & Hs).
  apply Forall2_map_eq in Hd, Hs. subst ds ss.
  exists values, (map (fun m => time_values (group m 1)) (finditer shorthand_re s)),
         (map time_value_of (finditer duration_re s)),
         (map time_value_of (finditer smil_re s)).
  split; [exact Hv|]. split; [exact Ht|]. split; [exact Hds|]. split; [exact Hss|].
  unfold matched_durations, matched_delays, first_time_values, second_time_values.
  now rewrite !flat_map_of_map.
Qed.




(** A time-value is read from its first digit on: the point in front of
    [.5s] and the sign in front of [-1s] are not part of it. *)
Example parse_animation_properties_leading_point :
  parse_animation_properties "animation: spin .5s -1s" = Ok ([5000], [1000]) /\
  declares "animation: spin .5s -1s" [("5", "s")]%string [("1", "s")]%string.
Proof.
  split; [vm_compute; reflexivity|].
  pose proof (matches_declared "animation: spin .5s -1s") as H.
  vm_compute matched_durations in H. vm_compute matched_delays in H.
  exact H.
Qed.
